(** * Rendering reconciliation of the typewriter editor

    A shallow embedding of [src/rendering/rendering.ts]: the line grouper
    ([combineLines]), the range diff ([getChangedRanges]), the inline
    composer ([renderInline]) and the reconciler ([render],
    [renderChanges]), with the properties stated about them.

    JavaScript objects that the code compares by reference or uses as
    [WeakMap] keys are modelled by their address (a [nat]); immutable
    objects are read through a store, mutable ones live in a heap that is
    threaded through the functions. *)

From Stdlib Require Import ZArith String Ascii List Bool Lia.
From stdpp Require Import base gmap strings list fin_maps.

Local Open Scope string_scope.
Local Open Scope list_scope.
Local Open Scope nat_scope.

(** ** Values, attribute maps and abstract nodes *)

(** The JSON values that attribute maps and node properties hold. *)
Inductive Value : Type :=
| VBool (b : bool)
| VNum (z : Z)
| VStr (s : string)
| VNull.

#[global] Instance Value_eq_dec : EqDecision Value.
Proof. solve_decision. Defined.

(** [AttributeMap]: a JavaScript object, kept as an association list since
    [Object.keys] enumerates the keys in insertion order. *)
Definition AttributeMap : Type := list (string * Value).

(** [attributes[name]]: [None] stands for [undefined]. *)
Fixpoint attr_get (m : AttributeMap) (name : string) : option Value :=
  match m with
  | [] => None
  | (k, v) :: m' => if bool_decide (k = name) then Some v else attr_get m' name
  end.

(** [Object.keys(attributes)] *)
Definition attr_keys (m : AttributeMap) : list string := map fst m.

(** [isEqual] of [@typewriter/document], on attribute values. *)
Definition isEqual (a b : option Value) : bool := bool_decide (a = b).

(** The abstract nodes of [./vdom]: [VNode] is [{type, props, children, key}]
    and a [VChild] is a string or a node. *)
Inductive VNode : Type :=
| mkVNode (vtype : string) (props : gmap string Value)
          (children : list VChild) (key : option string)
with VChild : Type :=
| VText (s : string)
| VElem (n : VNode).

Definition vtype (n : VNode) : string := let '(mkVNode t _ _ _) := n in t.
Definition props (n : VNode) : gmap string Value := let '(mkVNode _ p _ _) := n in p.
Definition children (n : VNode) : list VChild := let '(mkVNode _ _ c _) := n in c.
Definition key (n : VNode) : option string := let '(mkVNode _ _ _ k) := n in k.

(** [h(type, props, children)] *)
Definition h (type : string) (p : gmap string Value) (c : list VChild) : VNode :=
  mkVNode type p c None.

(** [node.key = k] *)
Definition set_key (n : VNode) (k : string) : VNode :=
  mkVNode (vtype n) (props n) (children n) (Some k).

(** [last.children = cs] *)
Definition set_children (n : VNode) (cs : list VChild) : VNode :=
  mkVNode (vtype n) (props n) cs (key n).

(** [const BR = h('br', {})] *)
Definition BR : VNode := h "br" ∅ [].

(** ** The document model: operations and lines *)

(** [op.insert]: a string, an embed object, or absent. *)
Inductive Insert : Type :=
| InsText (s : string)
| InsEmbed (o : AttributeMap)
| InsNone.

Record Op : Type := mkOp {
  insert : Insert;
  attributes : option AttributeMap
}.

(** [Delta]: [delta.ops] *)
Definition Delta : Type := list Op.

(** Addresses of the objects that are compared by reference: lines,
    attribute maps of lines, line types, format types, [Line[]] arrays and
    [CombinedData] objects. *)
Abbreviation LineRef := nat.
Abbreviation AttrRef := nat.
Abbreviation TypeRef := nat.
Abbreviation FmtRef := nat.
Abbreviation ArrRef := nat.
Abbreviation DataRef := nat.

(** A [Line]: [line.attributes] is an object with an identity of its own
    (the key of the [linesType] cache). *)
Record Line : Type := mkLine {
  id : string;
  line_attributes : AttrRef;
  content : Delta
}.

(** ** The typeset and the editor *)

(** A [LineType] of [../typesetting/typeset]; each function is optional.
    The [editor] and [forHTML] arguments of the render functions are fixed
    for a render pass and are not passed along. *)
Record LineType : Type := mkLineType {
  shouldCombine : option (AttributeMap -> AttributeMap -> bool);
  lt_render : option (AttributeMap -> list VChild -> VNode);
  renderMultiple : option (list (AttributeMap * list VChild * string) -> VNode)
}.

(** A [FormatType]; its [render] may return no node. *)
Record FormatType : Type := mkFormatType {
  fmt_name : string;
  fmt_render : option (AttributeMap -> list VChild -> option VNode)
}.

(** An embed type. *)
Record EmbedType : Type := mkEmbedType {
  embed_name : string;
  embed_render : option (AttributeMap -> list VChild -> VChild);
  noFill : bool
}.

(** What the code reads of the [Editor] and of the modules it imports:
    the typeset's three registries, the immutable objects behind the
    addresses, [applyDecorations] of [../modules/decorations], which
    on-screen elements the selector [typeset.lines.selector] matches
    (given the ancestors of the element, innermost first, and the
    element), and [vdom_patch], what [patch] of [./vdom] leaves of the
    children of the root when it is given the new nodes and a slice of
    the old children (their positions). The sources do not hold [./vdom]:
    nothing is assumed of [vdom_patch]. *)
Record Editor : Type := mkEditor {
  lineAt : LineRef -> Line;
  attrsAt : AttrRef -> AttributeMap;
  lineTypeAt : TypeRef -> LineType;
  formatAt : FmtRef -> FormatType;
  lines_findByAttributes : AttributeMap -> TypeRef;
  formats_get : string -> option FmtRef;
  formats_priority : string -> Z;
  embeds_findByAttributes : AttributeMap -> option EmbedType;
  applyDecorations : VNode -> AttributeMap -> VNode;
  lines_selector : list VNode -> VNode -> bool;
  vdom_patch : list VNode -> list VNode -> list nat -> list VNode
}.

(** ** Child lists *)

(** [addOrMergeChild(list, newChild)]: the list after the call. *)
Definition addOrMergeChild (l : list VChild) (newChild : VChild) : list VChild :=
  let index := length l - 1 in
  match l !! index with
  | Some (VElem lastN) =>
      match newChild with
      | VElem newN =>
          if bool_decide (vtype lastN = vtype newN)
             && bool_decide (props lastN = props newN)
          then <[index := VElem (set_children lastN (children lastN ++ children newN))]> l
          else l ++ [newChild]
      | VText _ => l ++ [newChild]
      end
  | Some (VText lastS) =>
      match newChild with
      | VText newS => <[index := VText (String.append lastS newS)]> l
      | VElem _ => l ++ [newChild]
      end
  | None => l ++ [newChild]
  end.

(** [combineChildren(a, b)]; [None] is [undefined]. *)
Definition combineChildren (a b : option (list VChild)) : list VChild :=
  match a, b with
  | None, None => []
  | None, Some b => b
  | Some a, None => a
  | Some a, Some b => fold_left addOrMergeChild b a
  end.

(** ** Text of an operation *)

(** The no-break space ['\xA0']. *)
Definition nbsp : ascii := ascii_of_nat 160.
Definition space : ascii := ascii_of_nat 32.

(** [s.replace(/  /g, ab)]: every pair of spaces, scanning from the left,
    becomes the two characters [a] [b]. *)
Fixpoint replace_pairs (a b : ascii) (s : string) : string :=
  match s with
  | String c (String d r as t) =>
      if bool_decide (c = space) && bool_decide (d = space)
      then String a (String b (replace_pairs a b r))
      else String c (replace_pairs a b t)
  | _ => s
  end.

(** [s.replace(/^ /, '\xA0')] *)
Definition replace_leading (s : string) : string :=
  match s with
  | String c r => if bool_decide (c = space) then String nbsp r else s
  | EmptyString => s
  end.

(** [s.replace(/ $/, '\xA0')] *)
Fixpoint replace_trailing (s : string) : string :=
  match s with
  | EmptyString => s
  | String c EmptyString => if bool_decide (c = space) then String nbsp EmptyString else s
  | String c r => String c (replace_trailing r)
  end.

(** [typeof op.insert === 'object'] *)
Definition insert_is_object (o : Op) : bool :=
  match insert o with InsEmbed _ => true | _ => false end.

(** [startsWithSpace(op)] *)
Definition startsWithSpace (o : Op) : bool :=
  match insert o with
  | InsText (String c _) => bool_decide (c = space)
  | _ => false
  end.

(** The string pushed for a text operation between [prev] and [next]. *)
Definition opText (prev : option Op) (s : string) (next : option Op) : string :=
  let str := replace_pairs space nbsp (replace_pairs nbsp space s) in
  let str := match prev with
             | None => replace_leading str
             | Some p => if insert_is_object p then replace_leading str else str
             end in
  match next with
  | None => replace_trailing str
  | Some n => if insert_is_object n || startsWithSpace n
              then replace_trailing str else str
  end.

(** ** The inline composer *)

(** [InlineStackItem]; the type is held by reference. *)
Record InlineStackItem : Type := mkItem {
  item_type : FmtRef;
  item_attributes : AttributeMap;
  item_content : option (list VChild)
}.

(** The variables [renderInline] closes over. [activeStack] is kept with
    its top first: [activeStack[i]] is [rev activeStack !! i], [push] is
    cons and [pop] removes the head. *)
Record Composer : Type := mkComposer {
  inlineChildren : list VChild;
  trailingBreak : bool;
  activeStack : list InlineStackItem
}.

(** [keys.sort((a, b) => priority(a) - priority(b))]: the sort is stable. *)
Fixpoint sort_insert (prio : string -> Z) (x : string) (l : list string) : list string :=
  match l with
  | [] => [x]
  | y :: l' => if (prio x <=? prio y)%Z then x :: l else y :: sort_insert prio x l'
  end.

Definition sort_by_priority (prio : string -> Z) (l : list string) : list string :=
  foldr (sort_insert prio) [] l.

Section Inline.
Variable editor : Editor.

(** The [while] loop of [collapseStack(from)]: the stack that is left and
    the collected [children]. *)
Fixpoint collapseLoop (from : nat) (stack : list InlineStackItem)
         (chn : option (list VChild))
  : list InlineStackItem * option (list VChild) :=
  match stack with
  | [] => ([], chn)
  | item :: rest =>
      if from <? length stack then
        match fmt_render (formatAt editor (item_type item)) with
        | None => (rest, chn)
        | Some r =>
            let chn' := combineChildren (item_content item) chn in
            match r (item_attributes item) chn' with
            | Some node => collapseLoop from rest (Some [VElem node])
            | None => collapseLoop from rest (Some chn')
            end
        end
      else (stack, chn)
  end.

(** [collapseStack(from)] *)
Definition collapseStack (from : nat) (c : Composer) : Composer :=
  let '(stack, chn) := collapseLoop from (activeStack c) None in
  match chn with
  | Some chn =>
      match stack with
      | [] => mkComposer (inlineChildren c ++ chn) (trailingBreak c) []
      | last :: rest =>
          let content' := match item_content last with
                          | Some lc => lc ++ chn
                          | None => chn
                          end in
          mkComposer (inlineChildren c) (trailingBreak c)
            (mkItem (item_type last) (item_attributes last) (Some content') :: rest)
      end
  | None => mkComposer (inlineChildren c) (trailingBreak c) stack
  end.

(** [activeStack.push({ type, attributes })] *)
Definition pushItem (ty : FmtRef) (attrs : AttributeMap) (c : Composer) : Composer :=
  mkComposer (inlineChildren c) (trailingBreak c)
    (mkItem ty attrs None :: activeStack c).

(** [insertStackItem(index, type, attributes)] *)
Definition insertStackItem (index : nat) (ty : FmtRef) (attrs : AttributeMap)
           (c : Composer) : Composer :=
  match rev (activeStack c) !! index with
  | Some active =>
      if bool_decide (item_type active = ty)
         && isEqual (attr_get (item_attributes active)
                       (fmt_name (formatAt editor (item_type active))))
                    (attr_get attrs (fmt_name (formatAt editor ty)))
      then c
      else pushItem ty attrs (collapseStack index c)
  | None => pushItem ty attrs c
  end.

(** The children an operation produces and the new [trailingBreak]. *)
Definition opChildren (prev : option Op) (op : Op) (next : option Op)
           (tb : bool) : list VChild * bool :=
  match insert op with
  | InsText s => ([VText (opText prev s next)], false)
  | InsEmbed o =>
      match embeds_findByAttributes editor o with
      | Some embed =>
          match embed_render embed with
          | Some r =>
              ([r o []],
               if bool_decide (embed_name embed = "br") then true
               else if negb (noFill embed) then false else tb)
          | None => ([], tb)
          end
      | None => ([], tb)
      end
  | InsNone => ([], tb)
  end.

(** The [sortedKeys.forEach] of an operation with attributes: the
    composer and [stackIndex]. *)
Definition insertKey (attrs : AttributeMap) (acc : Composer * nat) (name : string)
  : Composer * nat :=
  let '(c, stackIndex) := acc in
  match formats_get editor name with
  | Some ty =>
      match fmt_render (formatAt editor ty) with
      | Some _ => (insertStackItem stackIndex ty attrs c, S stackIndex)
      | None => acc
      end
  | None => acc
  end.

(** The body of [delta.ops.forEach]. *)
Definition renderOp (prev : option Op) (op : Op) (next : option Op)
           (c : Composer) : Composer :=
  let '(chn, tb) := opChildren prev op next (trailingBreak c) in
  let c := mkComposer (inlineChildren c) tb (activeStack c) in
  match attributes op with
  | Some attrs =>
      let sortedKeys := sort_by_priority (formats_priority editor) (attr_keys attrs) in
      let '(c, _) := fold_left (insertKey attrs) sortedKeys (c, 0) in
      match activeStack c with
      | last :: rest =>
          mkComposer (inlineChildren c) (trailingBreak c)
            (mkItem (item_type last) (item_attributes last)
               (Some (combineChildren (item_content last) (Some chn))) :: rest)
      | [] => c
      end
  | None =>
      let c := collapseStack 0 c in
      mkComposer (combineChildren (Some (inlineChildren c)) (Some chn))
        (trailingBreak c) (activeStack c)
  end.

(** [delta.ops.forEach((op, i, array) => ...)] with [array[i - 1]] and
    [array[i + 1]]. *)
Fixpoint renderOps (prev : option Op) (ops : list Op) (c : Composer) : Composer :=
  match ops with
  | [] => c
  | op :: rest => renderOps (Some op) rest (renderOp prev op (head rest) c)
  end.

(** [renderInline(editor, delta)] *)
Definition renderInline (delta : Delta) : list VChild :=
  let c := renderOps None delta (mkComposer [] true []) in
  let c := if 0 <? length (activeStack c) then collapseStack 0 c else c in
  if trailingBreak c then inlineChildren c ++ [VElem BR] else inlineChildren c.

End Inline.

(** ** The module-level caches and the heap *)

(** [CombinedEntry = Line | Line[]]: a reference to a line or to an array
    of lines. *)
Inductive CombinedEntry : Type :=
| ELine (l : LineRef)
| EArr (a : ArrRef).

#[global] Instance CombinedEntry_eq_dec : EqDecision CombinedEntry.
Proof. solve_decision. Defined.

(** [CombinedData] *)
Record CombinedData : Type := mkData {
  combined : list CombinedEntry;
  byKey : gmap string CombinedEntry
}.

(** The mutable objects and the module's [WeakMap]s. [arrays] holds the
    [Line[]] objects, [datas] the [CombinedData] objects; a [WeakMap] is a
    finite map on the addresses of its keys. *)
Record State : Type := mkState {
  arrays : gmap nat (list nat);
  datas : gmap nat CombinedData;
  linesType : gmap nat nat;
  linesMultiples : gmap nat nat;
  linesCombined : gmap nat nat
}.

(** The elements of the array at [a]; an address that holds no array reads
    as the empty array. *)
Definition readArr (st : State) (a : ArrRef) : list LineRef :=
  default [] (arrays st !! a).

(** The object at [d]. *)
Definition readData (st : State) (d : DataRef) : CombinedData :=
  default (mkData [] ∅) (datas st !! d).

(** [[]]: a new empty array. *)
Definition newArr (st : State) : ArrRef * State :=
  let a := fresh (dom (arrays st)) in
  (a, mkState (<[a := []]> (arrays st)) (datas st) (linesType st)
        (linesMultiples st) (linesCombined st)).

(** [arr.push(line)] *)
Definition pushArr (st : State) (a : ArrRef) (line : LineRef) : State :=
  mkState (<[a := readArr st a ++ [line]]> (arrays st)) (datas st) (linesType st)
    (linesMultiples st) (linesCombined st).

(** [{ combined, byKey }]: a new object. *)
Definition newData (st : State) (data : CombinedData) : DataRef * State :=
  let d := fresh (dom (datas st)) in
  (d, mkState (arrays st) (<[d := data]> (datas st)) (linesType st)
        (linesMultiples st) (linesCombined st)).

Definition set_linesType (st : State) (a : AttrRef) (t : TypeRef) : State :=
  mkState (arrays st) (datas st) (<[a := t]> (linesType st))
    (linesMultiples st) (linesCombined st).

Definition set_linesMultiples (st : State) (l : LineRef) (a : ArrRef) : State :=
  mkState (arrays st) (datas st) (linesType st)
    (<[l := a]> (linesMultiples st)) (linesCombined st).

Definition set_linesCombined (st : State) (a : ArrRef) (d : DataRef) : State :=
  mkState (arrays st) (datas st) (linesType st)
    (linesMultiples st) (<[a := d]> (linesCombined st)).

(** [arr.every((v, i) => other[i] === v)] *)
Definition every_same (arr other : list LineRef) : bool :=
  forallb (fun iv => bool_decide (other !! fst iv = Some (snd iv)))
    (zip (seq 0 (length arr)) arr).

(** A value or a thrown error. *)
Inductive Result (A : Type) : Type :=
| Ok (a : A)
| Throw (msg : string).
Arguments Ok {A} a.
Arguments Throw {A} msg.

(** The loop variables of [combineLines]. *)
Record Grouping : Type := mkGrouping {
  g_state : State;
  g_combined : list CombinedEntry;
  g_byKey : gmap string CombinedEntry;
  g_collect : ArrRef
}.

Section Rendering.
Variable editor : Editor.

(** [line.attributes] as a map. *)
Definition attrsOf (line : LineRef) : AttributeMap :=
  attrsAt editor (line_attributes (lineAt editor line)).

(** [getLineType(editor, line)]: the type and the updated cache. *)
Definition getLineType (st : State) (line : LineRef) : TypeRef * State :=
  let a := line_attributes (lineAt editor line) in
  match linesType st !! a with
  | Some type => (type, st)
  | None =>
      let type := lines_findByAttributes editor (attrsAt editor a) in
      (type, set_linesType st a type)
  end.

(** The condition under which the group is closed after [line]:
    [!next || getLineType(editor, next) !== type ||
     !type.shouldCombine(collect[0].attributes, next.attributes)]. *)
Definition closesGroup (st : State) (type : TypeRef)
           (sc : AttributeMap -> AttributeMap -> bool)
           (collect0 : LineRef) (next : option LineRef) : bool * State :=
  match next with
  | None => (true, st)
  | Some next =>
      let '(tn, st) := getLineType st next in
      if negb (bool_decide (tn = type)) then (true, st)
      else (negb (sc (attrsOf collect0) (attrsOf next)), st)
  end.

(** The body of [lines.forEach((line, i) => ...)], with [lines[i + 1]]. *)
Definition combineStep (g : Grouping) (line : LineRef) (next : option LineRef)
  : Grouping :=
  let '(type, st) := getLineType (g_state g) line in
  match shouldCombine (lineTypeAt editor type) with
  | Some sc =>
      let collect := g_collect g in
      let st := pushArr st collect line in
      let collect0 := hd line (readArr st collect) in
      let '(closes, st) := closesGroup st type sc collect0 next in
      if closes then
        let coll := readArr st collect in
        let reuse :=
          match linesMultiples st !! collect0 with
          | Some last =>
              if (length (readArr st last) =? length coll)
                 && every_same coll (readArr st last)
              then Some last else None
          | None => None
          end in
        let '(collect, st) :=
          match reuse with
          | Some last => (last, st)
          | None => (collect, set_linesMultiples st collect0 collect)
          end in
        let collect0 := hd line (readArr st collect) in
        let '(fresh_collect, st) := newArr st in
        mkGrouping st (g_combined g ++ [EArr collect])
          (<[id (lineAt editor collect0) := EArr collect]> (g_byKey g))
          fresh_collect
      else mkGrouping st (g_combined g) (g_byKey g) collect
  | None =>
      match lt_render (lineTypeAt editor type) with
      | Some _ =>
          mkGrouping st (g_combined g ++ [ELine line])
            (<[id (lineAt editor line) := ELine line]> (g_byKey g))
            (g_collect g)
      | None => mkGrouping st (g_combined g) (g_byKey g) (g_collect g)
      end
  end.

(** [lines.forEach] *)
Fixpoint combineLoop (g : Grouping) (lines : list LineRef) : Grouping :=
  match lines with
  | [] => g
  | line :: rest => combineLoop (combineStep g line (head rest)) rest
  end.

(** [combineLines(editor, lines)]: the address of the result and the
    state after the call. The array is not written during the loop, so
    its elements are read once. *)
Definition combineLines (st : State) (lines : ArrRef) : DataRef * State :=
  match linesCombined st !! lines with
  | Some cache => (cache, st)
  | None =>
      let '(collect, st) := newArr st in
      let g := combineLoop (mkGrouping st [] ∅ collect) (readArr st lines) in
      let '(data, st) := newData (g_state g) (mkData (g_combined g) (g_byKey g)) in
      (data, set_linesCombined st lines data)
  end.

(** ** Range diff *)

(** [isSame(oldEntry, newEntry)] *)
Definition isSame (st : State) (oldEntry newEntry : CombinedEntry) : bool :=
  if bool_decide (oldEntry = newEntry) then true
  else match oldEntry, newEntry with
       | EArr o, EArr n =>
           (length (readArr st o) =? length (readArr st n))
           && every_same (readArr st o) (readArr st n)
       | _, _ => false
       end.

(** [isSame(oldC[i], newC[j])]; an index out of range reads [undefined]. *)
Definition sameAt (st : State) (oldC newC : list CombinedEntry) (i j : nat) : bool :=
  match oldC !! i, newC !! j with
  | Some o, Some n => isSame st o n
  | None, None => true
  | _, _ => false
  end.

(** [getChangedRanges(oldC, newC)]: each [for] loop stops at the first
    index whose entries are not the same. *)
Definition getChangedRanges (st : State) (oldC newC : list CombinedEntry)
  : (Z * Z) * (Z * Z) :=
  let oldLength := length oldC in
  let newLength := length newC in
  let minLength := Nat.min oldLength newLength in
  let start :=
    match find (fun i => negb (sameAt st oldC newC i i)) (seq 0 minLength) with
    | Some i => i
    | None => 0
    end in
  let '(oldEnd, newEnd) :=
    match find (fun i => negb (sameAt st oldC newC (oldLength - i - 1) (newLength - i - 1)))
               (seq 0 minLength) with
    | Some i => (oldLength - i, newLength - i)
    | None => (0, 0)
    end in
  ((Z.of_nat start, Z.of_nat oldEnd), (Z.of_nat start, Z.of_nat newEnd)).

(** ** Rendering of units *)

(** [renderSingleLine(editor, line)] *)
Definition renderSingleLine (st : State) (line : LineRef) : Result VNode * State :=
  let '(type, st) := getLineType st line in
  match lt_render (lineTypeAt editor type) with
  | None => (Throw "No render method defined for line", st)
  | Some r =>
      let l := lineAt editor line in
      let node := r (attrsOf line) (renderInline editor (content l)) in
      let node := applyDecorations editor node (attrsOf line) in
      (Ok (set_key node (id l)), st)
  end.

(** [renderMultiLine(editor, lines)]; [lines[0]] of an empty array is
    [undefined], whose [attributes] cannot be read. *)
Definition renderMultiLine (st : State) (lines : ArrRef) : Result VNode * State :=
  match readArr st lines with
  | [] => (Throw "TypeError: Cannot read properties of undefined", st)
  | line0 :: _ =>
      let '(type, st) := getLineType st line0 in
      match renderMultiple (lineTypeAt editor type) with
      | None => (Throw "No render method defined for line", st)
      | Some r =>
          let node :=
            r (map (fun line => (attrsOf line,
                                 renderInline editor (content (lineAt editor line)),
                                 id (lineAt editor line)))
                   (readArr st lines)) in
          (Ok (set_key node (id (lineAt editor line0))), st)
      end
  end.

(** [renderLine(editor, line)] *)
Definition renderLine (st : State) (line : CombinedEntry) : Result VNode * State :=
  match line with
  | EArr a => renderMultiLine st a
  | ELine l => renderSingleLine st l
  end.

(** [renderCombined(editor, combined)]: [map] stops at the first throw;
    every rendered node is an object, so [filter(Boolean)] keeps all. *)
Fixpoint renderCombined (st : State) (combined : list CombinedEntry)
  : Result (list VNode) * State :=
  match combined with
  | [] => (Ok [], st)
  | line :: rest =>
      match renderLine st line with
      | (Throw msg, st) => (Throw msg, st)
      | (Ok node, st) =>
          match renderCombined st rest with
          | (Throw msg, st) => (Throw msg, st)
          | (Ok nodes, st) => (Ok (node :: nodes), st)
          end
      end
  end.

End Rendering.

(** ** The reconciler *)

(** What the code reads of a [TextDocument] of [@typewriter/document]:
    the array [doc.lines] and the methods [getLineRange], the range of a
    line, and [getLineBy], the line of an id, if there is one (an absent
    id is [undefined]). For no line ([undefined]) [getLineRange] gives no
    range: the callers below say what the code does with that. *)
Record TextDocument : Type := mkDoc {
  doc_lines : ArrRef;
  getLineRange : LineRef -> Z * Z;
  getLineBy : option string -> option LineRef
}.

(** Modelled from the spec: the on-screen tree that [patch] of [./vdom]
    maintains is not part of the sources. An on-screen node is
    represented by the abstract node that it displays, and is identified
    by its position: the path of child indices that leads to it from the
    root. [View] holds what the editor shows and records: [editor.doc],
    the children of [editor.root], the side table [nodeRanges.get(root)]
    (an element without entry is one for which [getLineNodeStart] and
    [getLineNodeEnd] are [undefined]) and the events dispatched so far. *)
Record View : Type := mkView {
  doc : TextDocument;
  childNodes : list VNode;
  nodeRanges : gmap (list nat) (Z * Z);
  events : list string
}.

(** [editor.dispatchEvent(new Event(name))] *)
Definition dispatchEvent (name : string) (v : View) : View :=
  mkView (doc v) (childNodes v) (nodeRanges v) (events v ++ [name]).

(** Modelled from the spec: [patch(root, vnodes, oldSlice)] of [./vdom],
    which is not part of the sources. Without [oldSlice] the call is to
    "replace the entire on-screen tree": the children of the root are the
    new nodes. With [oldSlice] the primitive reconciles the nodes of the
    slice with the new nodes by their keys and, in the words of the spec,
    needs surrounding context in the slice to anchor what it inserts;
    what it leaves is not determined by the sources and is the editor's
    [vdom_patch]. The nodes of [oldSlice] are given by their positions
    among the children of the root. *)
Definition patch (editor : Editor) (root : list VNode) (vnodes : list VNode)
    (oldSlice : option (list nat)) : list VNode :=
  match oldSlice with
  | None => vnodes
  | Some slice => vdom_patch editor root vnodes slice
  end.

(** [array.slice(start, end)] with JavaScript's treatment of negative and
    out-of-range indices. *)
Definition js_slice {A : Type} (l : list A) (s e : Z) : list A :=
  let len := Z.of_nat (length l) in
  let k := if (s <? 0)%Z then Z.max (len + s) 0 else Z.min s len in
  let f := if (e <? 0)%Z then Z.max (len + e) 0 else Z.min e len in
  firstn (Z.to_nat (f - k)) (skipn (Z.to_nat k) l).

(** Modelled from the spec: [node.querySelectorAll(selector)], the
    descendant elements of [node] that the selector matches, in document
    order, each with its path. *)
Fixpoint querySelectorAll (sel : list VNode -> VNode -> bool) (ancestors : list VNode)
    (path : list nat) (node : VNode) {struct node} : list (list nat * VNode) :=
  match node with
  | mkVNode _ _ cs _ =>
      (fix go (cs : list VChild) (i : nat) {struct cs} : list (list nat * VNode) :=
         match cs with
         | [] => []
         | VText _ :: cs' => go cs' (S i)
         | VElem m :: cs' =>
             (if sel (node :: ancestors) m then [(path ++ [i], m)] else [])
             ++ querySelectorAll sel (node :: ancestors) (path ++ [i]) m
             ++ go cs' (S i)
         end) cs 0
  end.

(** [root.querySelectorAll(selector)] over the children of the root. *)
Definition rootElements (sel : list VNode -> VNode -> bool) (root : list VNode)
  : list (list nat * VNode) :=
  concat (imap (fun i child =>
                  (if sel [] child then [([i], child)] else [])
                  ++ querySelectorAll sel [] [i] child) root).

(** The inner loop of [setLineNodesRanges]: the line elements of a
    combined section. *)
Definition sectionRanges (d : TextDocument) (lineElements : list (list nat * VNode))
    (ranges : gmap (list nat) (Z * Z)) : gmap (list nat) (Z * Z) :=
  fold_left (fun ranges el =>
               match getLineBy d (key (snd el)) with
               | Some line => <[fst el := getLineRange d line]> ranges
               | None => ranges
               end) lineElements ranges.

(** The last loop of [setLineNodesRanges]: the line elements that have no
    range yet. There is no test of the line here: for a key that names no
    line of the document the code stores what [getLineRange] gives for
    [undefined], which is no range, and the element stays one without
    range (each element is met once, after the first loop, so that the
    stored [undefined] is not seen by [ranges.has] either). *)
Definition remainingRanges (d : TextDocument) (lineElements : list (list nat * VNode))
    (ranges : gmap (list nat) (Z * Z)) : gmap (list nat) (Z * Z) :=
  fold_left (fun ranges el =>
               match ranges !! fst el, key (snd el) with
               | Some _, _ => ranges
               | None, None => ranges
               | None, Some k =>
                   if bool_decide (k = "") then ranges
                   else match getLineBy d (Some k) with
                        | Some line => <[fst el := getLineRange d line]> ranges
                        | None => ranges
                        end
               end) lineElements ranges.

(** The adjustment of the two windows in [renderChanges]: when they
    differ, each is widened by one unit on both sides, within bounds, and
    the end of the old window is moved by the difference between the
    number of on-screen children [domLen] and the number of old units. *)
Definition expandRanges (domLen oldLen newLen : Z) (ranges : (Z * Z) * (Z * Z))
  : (Z * Z) * (Z * Z) :=
  let '(oldRange, newRange) := ranges in
  if negb (bool_decide (oldRange = newRange)) then
    let oldEnd := Z.min oldLen (snd oldRange + 1) in
    ((Z.max 0 (fst oldRange - 1),
      if negb (bool_decide (domLen = oldLen)) then oldEnd + (domLen - oldLen) else oldEnd),
     (Z.max 0 (fst newRange - 1), Z.min newLen (snd newRange + 1)))%Z
  else (oldRange, newRange).

Section Reconciler.
Variable editor : Editor.

(** The body of the first loop of [setLineNodesRanges], for the child at
    index [i]. The range of a combined section runs from the start of
    [entry[0]] to the end of [entry[entry.length - 1]]; an array that
    [combineLines] files under a key is not empty, and for an empty one
    (where the code would index the missing range of no line) nothing is
    recorded. *)
Definition childRanges (st : State) (d : TextDocument)
    (byKey : gmap string CombinedEntry) (ranges : gmap (list nat) (Z * Z))
    (i : nat) (child : VNode) : gmap (list nat) (Z * Z) :=
  match key child with
  | None => ranges
  | Some k =>
      if bool_decide (k = "") then ranges
      else match byKey !! k with
           | None => ranges
           | Some (EArr a) =>
               let entry := readArr st a in
               match head entry, last entry with
               | Some first, Some final =>
                   let ranges :=
                     <[[i] := (fst (getLineRange d first),
                               snd (getLineRange d final))]> ranges in
                   sectionRanges d (querySelectorAll (lines_selector editor) [] [i] child)
                     ranges
               | _, _ => ranges
               end
           | Some (ELine l) => <[[i] := getLineRange d l]> ranges
           end
  end.

(** [setLineNodesRanges(editor)] *)
Definition setLineNodesRanges (st : State) (v : View) : State * View :=
  let '(data, st) := combineLines editor st (doc_lines (doc v)) in
  let byKey := byKey (readData st data) in
  let ranges :=
    fold_left (fun ranges ic => childRanges st (doc v) byKey ranges (fst ic) (snd ic))
      (imap (fun i child => (i, child)) (childNodes v)) ∅ in
  let ranges :=
    remainingRanges (doc v) (rootElements (lines_selector editor) (childNodes v)) ranges in
  (st, mkView (doc v) (childNodes v) ranges (events v)).

(** [renderDoc(editor, doc)] *)
Definition renderDoc (st : State) (d : TextDocument) : Result (list VNode) * State :=
  let '(data, st) := combineLines editor st (doc_lines d) in
  renderCombined editor st (combined (readData st data)).

(** [render(editor, doc)]: the outcome with the state and the view it
    leaves. *)
Definition render (st : State) (v : View) (d : TextDocument)
  : Result unit * (State * View) :=
  let v := dispatchEvent "rendering" v in
  match renderDoc st d with
  | (Throw msg, st) => (Throw msg, (st, v))
  | (Ok vnodes, st) =>
      let v := mkView (doc v) (patch editor (childNodes v) vnodes None) (nodeRanges v) (events v) in
      let '(st, v) := setLineNodesRanges st v in
      (Ok tt, (st, dispatchEvent "rendered" (dispatchEvent "render" v)))
  end.

(** [renderChanges(editor, oldDoc, newDoc)] *)
Definition renderChanges (st : State) (v : View) (oldDoc newDoc : TextDocument)
  : Result unit * (State * View) :=
  let '(oldData, st) := combineLines editor st (doc_lines oldDoc) in
  let oldCombined := combined (readData st oldData) in
  let '(newData, st) := combineLines editor st (doc_lines newDoc) in
  let newCombined := combined (readData st newData) in
  let '(oldRange, newRange) :=
    expandRanges (Z.of_nat (length (childNodes v))) (Z.of_nat (length oldCombined))
      (Z.of_nat (length newCombined)) (getChangedRanges st oldCombined newCombined) in
  let oldSlice :=
    js_slice (seq 0 (length (childNodes v))) (fst oldRange) (snd oldRange) in
  let newSlice := js_slice newCombined (fst newRange) (snd newRange) in
  if (length oldSlice =? 0) && (length newSlice =? 0) then render st v newDoc
  else
    let v := dispatchEvent "rendering" v in
    match renderCombined editor st newSlice with
    | (Throw msg, st) => (Throw msg, (st, v))
    | (Ok vnodes, st) =>
        let v := mkView (doc v) (patch editor (childNodes v) vnodes (Some oldSlice))
                   (nodeRanges v) (events v) in
        let '(st, v) := setLineNodesRanges st v in
        (Ok tt, (st, dispatchEvent "rendered" (dispatchEvent "render" v)))
    end.

End Reconciler.

(** [getLineNodeStart(root, node)] and [getLineNodeEnd(root, node)] *)
Definition getLineNodeStart (v : View) (node : list nat) : option Z :=
  fst <$> nodeRanges v !! node.

Definition getLineNodeEnd (v : View) (node : list nat) : option Z :=
  snd <$> nodeRanges v !! node.

(** ** Auxiliary definitions used to state the properties *)

(** The format types that the keys of an operation resolve to and that
    have a render function: the frames the operation asks for. *)
Definition renderableTypes (editor : Editor) (keys : list string) : list FmtRef :=
  omap (fun name =>
          match formats_get editor name with
          | Some ty => match fmt_render (formatAt editor ty) with
                       | Some _ => Some ty
                       | None => None
                       end
          | None => None
          end) keys.

(** Two children that [addOrMergeChild] would merge: two strings, or two
    nodes of identical type and equal props. *)
Definition mergeable (a b : VChild) : bool :=
  match a, b with
  | VText _, VText _ => true
  | VElem n, VElem m => bool_decide (vtype n = vtype m) && bool_decide (props n = props m)
  | _, _ => false
  end.

(** The line type [getLineType] resolves for a line in a given state of
    the [linesType] cache. *)
Definition resolve (editor : Editor) (st : State) (line : LineRef) : TypeRef :=
  fst (getLineType editor st line).

(** The type of the line declares [shouldCombine]. *)
Definition combinable (editor : Editor) (st : State) (line : LineRef) : bool :=
  match shouldCombine (lineTypeAt editor (resolve editor st line)) with
  | Some _ => true
  | None => false
  end.

(** The type of the line has an applicable renderer: it declares
    [shouldCombine], or else it has a [render] function. *)
Definition included (editor : Editor) (st : State) (line : LineRef) : bool :=
  match shouldCombine (lineTypeAt editor (resolve editor st line)) with
  | Some _ => true
  | None => match lt_render (lineTypeAt editor (resolve editor st line)) with
            | Some _ => true
            | None => false
            end
  end.

(** The member lines of a render unit. *)
Definition members (st : State) (e : CombinedEntry) : list LineRef :=
  match e with
  | ELine l => [l]
  | EArr a => readArr st a
  end.

(** Further calls of [combineLines], one after the other. *)
Definition combineMany (editor : Editor) (st : State) (ls : list ArrRef) : State :=
  fold_left (fun st lines => snd (combineLines editor st lines)) ls st.

(** What holds of a unit that [combineLines] has pushed, while the array
    [collect] is being filled: a single line is of a type that renders
    but does not combine; an array is not [collect], is not empty and
    holds lines of combinable types. *)
Definition unit_ok (editor : Editor) (st0 st : State) (collect : ArrRef)
    (e : CombinedEntry) : Prop :=
  match e with
  | ELine l => combinable editor st0 l = false /\ included editor st0 l = true
  | EArr a => a <> collect /\ readArr st a <> []
              /\ Forall (fun l => combinable editor st0 l = true) (readArr st a)
  end.

(** The invariant of the loop of [combineLines], entered in the state
    [st0], after the lines [done] and before the lines [rest]. *)
Record GroupInv (editor : Editor) (st0 : State) (done rest : list LineRef)
    (g : Grouping) : Prop := mkGroupInv {
  gi_resolve : forall l, resolve editor (g_state g) l = resolve editor st0 l;
  gi_fresh : arrays st0 !! g_collect g = None;
  gi_alloc : is_Some (arrays (g_state g) !! g_collect g);
  gi_heap : forall a, is_Some (arrays st0 !! a) ->
                      arrays (g_state g) !! a = arrays st0 !! a;
  gi_datas : datas (g_state g) = datas st0;
  gi_cache : linesCombined (g_state g) = linesCombined st0;
  gi_units : Forall (unit_ok editor st0 (g_state g) (g_collect g)) (g_combined g);
  gi_parts : concat (map (members (g_state g)) (g_combined g))
             ++ readArr (g_state g) (g_collect g)
             = List.filter (included editor st0) done;
  gi_open : readArr (g_state g) (g_collect g) <> [] ->
            exists n, head rest = Some n /\ combinable editor st0 n = true;
  gi_collect : Forall (fun l => combinable editor st0 l = true)
                 (readArr (g_state g) (g_collect g))
}.

(** The type that renders the unit lacks the render function the unit
    needs: [render] for a single line, [renderMultiple] (of the type of
    the first line) for an array. *)
Definition lacksRenderer (editor : Editor) (st : State) (e : CombinedEntry) : Prop :=
  match e with
  | ELine l => lt_render (lineTypeAt editor (resolve editor st l)) = None
  | EArr a => exists line0, head (readArr st a) = Some line0
                /\ renderMultiple (lineTypeAt editor (resolve editor st line0)) = None
  end.

(** What [isSame] compares of a unit: whether it is an array, and its
    member lines. *)
Definition unitView (st : State) (e : CombinedEntry) : bool * list LineRef :=
  match e with
  | ELine l => (false, [l])
  | EArr a => (true, readArr st a)
  end.

(** The nodes of a list of units, each rendered in the same state. *)
Fixpoint renderAll (editor : Editor) (st : State) (units : list CombinedEntry)
  : Result (list VNode) :=
  match units with
  | [] => Ok []
  | e :: rest =>
      match fst (renderLine editor st e) with
      | Throw msg => Throw msg
      | Ok node =>
          match renderAll editor st rest with
          | Throw msg => Throw msg
          | Ok nodes => Ok (node :: nodes)
          end
      end
  end.

(** The type of the line is in the [linesType] cache. *)
Definition typeCached (editor : Editor) (st : State) (l : LineRef) : Prop :=
  is_Some (linesType st !! line_attributes (lineAt editor l)).

(** An entry of the [linesCombined] cache is sound: the array exists, the
    result exists and is a grouping of the lines of the array into units
    that are not empty, and the types of the lines are cached. *)
Definition entry_ok (editor : Editor) (st : State) (lines : ArrRef) (d : DataRef) : Prop :=
  is_Some (arrays st !! lines)
  /\ exists data,
      datas st !! d = Some data
      /\ concat (map (members st) (combined data))
         = List.filter (included editor st) (readArr st lines)
      /\ Forall (fun e => members st e <> []) (combined data)
      /\ Forall (typeCached editor st) (readArr st lines).

(** The caches are sound: every entry of [linesCombined] is. This holds
    when nothing is cached and every call of [combineLines] on an array
    that exists keeps it. *)
Definition caches_ok (editor : Editor) (st : State) : Prop :=
  forall lines d, linesCombined st !! lines = Some d -> entry_ok editor st lines d.

(** ** A small typeset, for the examples

    Formats [bold] (address 0), [link] (address 1, lower priority) and
    [foo] (address 2, without render function); line types [list]
    (address 0, combinable when the [list] attributes agree, rendered by
    [renderMultiple] only) and [paragraph] (address 1, the default);
    lines 0 and 1 are list items, line 2 is a paragraph; no embeds; the
    tree-patch primitive replaces a slice where it is. *)

Definition ex_wrap (tag : string) : AttributeMap -> list VChild -> option VNode :=
  fun _ c => Some (h tag ∅ c).

Definition ex_formatAt (r : FmtRef) : FormatType :=
  match r with
  | 0 => mkFormatType "bold" (Some (ex_wrap "strong"))
  | 1 => mkFormatType "link" (Some (ex_wrap "a"))
  | _ => mkFormatType "foo" None
  end.

Definition ex_formats_get (name : string) : option FmtRef :=
  if bool_decide (name = "bold") then Some 0
  else if bool_decide (name = "link") then Some 1
  else if bool_decide (name = "foo") then Some 2
  else None.

Definition ex_priority (name : string) : Z :=
  if bool_decide (name = "link") then 0%Z
  else if bool_decide (name = "bold") then 1%Z
  else 2%Z.

Definition ex_lineAt (r : LineRef) : Line :=
  match r with
  | 0 => mkLine "a" 0 [mkOp (InsText "A") None]
  | 1 => mkLine "b" 1 [mkOp (InsText "B") None]
  | 2 => mkLine "c" 2 [mkOp (InsText "C") None]
  | _ => mkLine "d" 3 [mkOp (InsText "D") None]
  end.

Definition ex_attrsAt (r : AttrRef) : AttributeMap :=
  match r with
  | 0 | 1 => [("list", VStr "bullet")]
  | _ => []
  end.

Definition ex_lineTypeAt (r : TypeRef) : LineType :=
  match r with
  | 0 => mkLineType
           (Some (fun a b => bool_decide (attr_get a "list" = attr_get b "list")))
           None
           (Some (fun items =>
                    h "ul" ∅ (map (fun '(_, c, k) => VElem (mkVNode "li" ∅ c (Some k))) items)))
  | _ => mkLineType None (Some (fun _ c => h "p" ∅ c)) None
  end.

Definition ex_findByAttributes (a : AttributeMap) : TypeRef :=
  match attr_get a "list" with
  | Some _ => 0
  | None => 1
  end.

(** A primitive that replaces the nodes of the slice, where they are, by
    the new nodes (and puts them at the end when the slice is empty). *)
Definition splice_patch (root vnodes : list VNode) (slice : list nat) : list VNode :=
  match slice with
  | [] => root ++ vnodes
  | i :: rest => firstn i root ++ vnodes ++ skipn (i + S (length rest)) root
  end.

Definition ex_selector (ancestors : list VNode) (n : VNode) : bool :=
  bool_decide (vtype n = "p") || bool_decide (vtype n = "li").

Definition ex_editor : Editor :=
  mkEditor ex_lineAt ex_attrsAt ex_lineTypeAt ex_formatAt ex_findByAttributes
    ex_formats_get ex_priority (fun _ => None) (fun n _ => n)
    ex_selector splice_patch.

(** No cache holds anything; the array at address 0 is [[line 0, line 1, line 2]],
    the array at address 1 is [[line 0]] and the array at address 2 is
    [[line 0, line 1, line 2, line 3]]. *)
Definition ex_state : State :=
  mkState {[ 0 := [0; 1; 2]; 1 := [0]; 2 := [0; 1; 2; 3] ]} ∅ ∅ ∅ ∅.

(** Two snapshots, of the lines at address 0 and at address 2; every line
    is two characters long. *)
Definition ex_range (n : LineRef) : Z * Z :=
  (Z.of_nat (2 * n), Z.of_nat (2 * n + 2)).

Definition ex_lineBy (k : option string) : option LineRef :=
  match k with
  | Some k => if bool_decide (k = "a") then Some 0
              else if bool_decide (k = "b") then Some 1
              else if bool_decide (k = "c") then Some 2
              else if bool_decide (k = "d") then Some 3
              else None
  | None => None
  end.

Definition ex_doc_old : TextDocument := mkDoc 0 ex_range ex_lineBy.
Definition ex_doc_new : TextDocument := mkDoc 2 ex_range ex_lineBy.

(** The state and the view after the full render of the old snapshot (the
    editor already holds the new one). *)
Definition ex_rendered : State :=
  fst (snd (render ex_editor ex_state (mkView ex_doc_new [] ∅ []) ex_doc_old)).

Definition ex_view : View :=
  snd (snd (render ex_editor ex_state (mkView ex_doc_new [] ∅ []) ex_doc_old)).

(** A grouping in progress: [collect] is the empty array at address 2, and
    the memo of line 0 is the array at address 1, that is [[line 0]]. *)
Definition ex_grouping : Grouping :=
  mkGrouping
    (mkState {[ 0 := [0; 1; 2]; 1 := [0]; 2 := [] ]} ∅ ∅ {[ 0 := 1 ]} ∅)
    [] ∅ 2.

(** ** Further auxiliary definitions *)

(** No two adjacent characters of the string are spaces. *)
Fixpoint no_double_space (s : string) : bool :=
  match s with
  | String c t =>
      match t with
      | String d _ => negb (bool_decide (c = space) && bool_decide (d = space))
      | EmptyString => true
      end && no_double_space t
  | EmptyString => true
  end.

Definition first_char (s : string) : option ascii :=
  match s with
  | String c _ => Some c
  | EmptyString => None
  end.

Fixpoint last_char (s : string) : option ascii :=
  match s with
  | EmptyString => None
  | String c EmptyString => Some c
  | String _ r => last_char r
  end.

(** [t] is [s] with some of its spaces turned into no-break spaces, and
    nothing else changed. *)
Fixpoint spaces_to_nbsp (s t : string) : bool :=
  match s, t with
  | EmptyString, EmptyString => true
  | String c s', String d t' =>
      (bool_decide (c = d) || (bool_decide (c = space) && bool_decide (d = nbsp)))
      && spaces_to_nbsp s' t'
  | _, _ => false
  end.

(** No two adjacent children of the list are [mergeable]. *)
Fixpoint merged (l : list VChild) : bool :=
  match l with
  | a :: t =>
      match t with
      | b :: _ => negb (mergeable a b)
      | [] => true
      end && merged t
  | [] => true
  end.

(** The strings that a run of text operations pushes, joined: each is
    computed between its neighbours. *)
Fixpoint plainText (prev : option Op) (ops : list Op) : string :=
  match ops with
  | [] => EmptyString
  | op :: rest =>
      String.append
        match insert op with
        | InsText s => opText prev s (head rest)
        | _ => EmptyString
        end
        (plainText (Some op) rest)
  end.

(** The composer of [renderInline] after the operations and the final
    [collapseStack], before the trailing break is decided. *)
Definition finalComposer (editor : Editor) (delta : Delta) : Composer :=
  let c := renderOps editor None delta (mkComposer [] true []) in
  if 0 <? length (activeStack c) then collapseStack editor 0 c else c.

(** The children of the line without the trailing break, and whether the
    break is appended. *)
Definition inlineBody (editor : Editor) (delta : Delta) : list VChild :=
  inlineChildren (finalComposer editor delta).

Definition appendsBreak (editor : Editor) (delta : Delta) : bool :=
  trailingBreak (finalComposer editor delta).

(** Every frame of the stack is of a format with a render function. *)
Definition stack_renderable (editor : Editor) (stack : list InlineStackItem) : Prop :=
  Forall (fun item => is_Some (fmt_render (formatAt editor (item_type item)))) stack.

(** *** The grouping, without the heap *)

(** The condition that closes a group, on the types [R] of the lines. *)
Definition closesAfter (editor : Editor) (R : LineRef -> TypeRef) (type : TypeRef)
    (sc : AttributeMap -> AttributeMap -> bool) (collect0 : LineRef)
    (next : option LineRef) : bool :=
  match next with
  | None => true
  | Some n =>
      negb (bool_decide (R n = type))
      || negb (sc (attrsOf editor collect0) (attrsOf editor n))
  end.

(** The loop of [combineLines] on the lines alone: the units it pushes,
    each as [unitView] shows it, when the lines [opened] are collected
    and the types of the lines are [R]. *)
Fixpoint groupFrom (editor : Editor) (R : LineRef -> TypeRef) (opened : list LineRef)
    (lines : list LineRef) : list (bool * list LineRef) :=
  match lines with
  | [] => []
  | line :: rest =>
      match shouldCombine (lineTypeAt editor (R line)) with
      | Some sc =>
          let coll := opened ++ [line] in
          if closesAfter editor R (R line) sc (hd line coll) (head rest)
          then (true, coll) :: groupFrom editor R [] rest
          else groupFrom editor R coll rest
      | None =>
          match lt_render (lineTypeAt editor (R line)) with
          | Some _ => (false, [line]) :: groupFrom editor R opened rest
          | None => groupFrom editor R opened rest
          end
      end
  end.

(** The key of a unit: the id of its first line. *)
Definition unitKey (editor : Editor) (st : State) (e : CombinedEntry) : option string :=
  (fun l => id (lineAt editor l)) <$> head (members st e).

(** A unit, as [unitView] shows it, is uniform for the types [R]: the
    lines of an array are all of the type of the first line, which
    declares [shouldCombine], and each line after the first was accepted
    by [shouldCombine] against the first; a single line is of a type that
    has a [render] function and does not declare [shouldCombine]. *)
Definition uniform (editor : Editor) (R : LineRef -> TypeRef)
    (u : bool * list LineRef) : Prop :=
  if fst u then
    exists c0 sc,
      head (snd u) = Some c0
      /\ shouldCombine (lineTypeAt editor (R c0)) = Some sc
      /\ Forall (fun l => R l = R c0) (snd u)
      /\ Forall (fun l => sc (attrsOf editor c0) (attrsOf editor l) = true) (tail (snd u))
  else
    exists l,
      snd u = [l]
      /\ shouldCombine (lineTypeAt editor (R l)) = None
      /\ is_Some (lt_render (lineTypeAt editor (R l))).

(** Every entry of [byKey] is a unit, under its key. *)
Definition byKey_ok (editor : Editor) (st : State) (units : list CombinedEntry)
    (bk : gmap string CombinedEntry) : Prop :=
  forall k e, bk !! k = Some e -> e ∈ units /\ unitKey editor st e = Some k.

(** Every unit is found in [byKey] under its key. *)
Definition byKey_full (editor : Editor) (st : State) (units : list CombinedEntry)
    (bk : gmap string CombinedEntry) : Prop :=
  forall e, e ∈ units -> exists k, unitKey editor st e = Some k /\ bk !! k = Some e.

(** The memo [linesMultiples] holds every array unit, under its first
    line. *)
Definition memo_holds (st : State) (units : list CombinedEntry) : Prop :=
  forall r, EArr r ∈ units ->
    exists l0, head (readArr st r) = Some l0 /\ linesMultiples st !! l0 = Some r.

(** The memo is as it was in [st0] outside the lines of the units. *)
Definition memo_kept (st0 st : State) (units : list CombinedEntry) : Prop :=
  forall l, l ∉ concat (map (members st) units) ->
            linesMultiples st !! l = linesMultiples st0 !! l.

(** An array unit whose lines are those of the array that the memo of
    [st0] held for its first line is that array. *)
Definition memo_reused (st0 st : State) (units : list CombinedEntry) : Prop :=
  forall r l0 last,
    EArr r ∈ units -> head (readArr st r) = Some l0 ->
    linesMultiples st0 !! l0 = Some last -> readArr st0 last = readArr st r ->
    r = last.

(** What the frame of a format makes of the children it is collapsed
    with: the node its render function returns, or the children as they
    are when it returns none. *)
Definition wrapFormat (editor : Editor) (attrs : AttributeMap) (ty : FmtRef)
    (chn : list VChild) : list VChild :=
  match fmt_render (formatAt editor ty) with
  | Some r => match r attrs chn with
              | Some node => [VElem node]
              | None => chn
              end
  | None => chn
  end.

(** The frame [active] is what [insertStackItem] accepts for the type
    [ty] and the attributes [attrs]: the same type, with an equal value of
    the format. *)
Definition frameMatches (editor : Editor) (active : InlineStackItem) (ty : FmtRef)
    (attrs : AttributeMap) : Prop :=
  item_type active = ty
  /\ attr_get (item_attributes active) (fmt_name (formatAt editor ty))
     = attr_get attrs (fmt_name (formatAt editor ty)).

(** ** Further examples *)

(** Two arrays that hold the same lines: the arrays at addresses 0 and 1
    are both [[line 0, line 1, line 2]]; no cache holds anything. *)
Definition ex_twins : State :=
  mkState {[ 0 := [0; 1; 2]; 1 := [0; 1; 2] ]} ∅ ∅ ∅ ∅.

(** The example typeset with three embeds: [br], [image], which fills its
    line, and [anchor], which does not. *)
Definition ex_embeds (o : AttributeMap) : option EmbedType :=
  match attr_get o "br", attr_get o "image", attr_get o "anchor" with
  | Some _, _, _ => Some (mkEmbedType "br" (Some (fun _ _ => VElem BR)) false)
  | None, Some _, _ => Some (mkEmbedType "image" (Some (fun _ _ => VElem (h "img" ∅ []))) false)
  | None, None, Some _ =>
      Some (mkEmbedType "anchor" (Some (fun _ _ => VElem (h "a" ∅ []))) true)
  | None, None, None => None
  end.

Definition ex_editor_embeds : Editor :=
  mkEditor ex_lineAt ex_attrsAt ex_lineTypeAt ex_formatAt ex_findByAttributes
    ex_formats_get ex_priority ex_embeds (fun n _ => n)
    ex_selector splice_patch.

(** A text in bold inside a link, followed by a text in the link only. *)
Definition ex_op_bold_link : Op :=
  mkOp (InsText "a") (Some [("bold", VBool true); ("link", VStr "u")]).

Definition ex_op_link : Op := mkOp (InsText "b") (Some [("link", VStr "u")]).

(** The primitive replaces the nodes of a slice that is not empty by the
    new nodes, where they are. *)
Definition replaces_in_place (editor : Editor) : Prop :=
  forall (root vnodes : list VNode) (a n : nat),
    vdom_patch editor root vnodes (seq a (S n))
    = firstn a root ++ vnodes ++ skipn (a + S n) root.

(** An example of a primitive that goes by the keys and is given nothing
    to anchor on: a node of the slice whose key a new node has gives way
    to that node, where it is; the other nodes of the slice are removed;
    the new nodes whose key no node of the slice has are put at the end
    of the root. *)
Definition keyed_patch (root vnodes : list VNode) (slice : list nat) : list VNode :=
  let old := omap (fun i => root !! i) slice in
  concat (imap (fun i n =>
                  if bool_decide (i ∈ slice)
                  then List.filter (fun m => bool_decide (key m = key n)) vnodes
                  else [n]) root)
  ++ List.filter (fun m => negb (existsb (fun n => bool_decide (key n = key m)) old)) vnodes.

(** Four paragraphs [a], [b], [d] and [f] (lines 0 to 3), each two
    characters long, and an editor over them with the primitive [p]. The
    old snapshot holds [a], [b], [f] (the array at address 0), the new
    one [b], [d], [f] (the array at address 1): as many lines are added
    as are removed. *)
Definition ex_par_lineAt (r : LineRef) : Line :=
  match r with
  | 0 => mkLine "a" 2 [mkOp (InsText "A") None]
  | 1 => mkLine "b" 2 [mkOp (InsText "B") None]
  | 2 => mkLine "d" 2 [mkOp (InsText "D") None]
  | _ => mkLine "f" 2 [mkOp (InsText "F") None]
  end.

Definition ex_pars (p : list VNode -> list VNode -> list nat -> list VNode) : Editor :=
  mkEditor ex_par_lineAt ex_attrsAt ex_lineTypeAt ex_formatAt ex_findByAttributes
    ex_formats_get ex_priority (fun _ => None) (fun n _ => n) ex_selector p.

Definition ex_pars_state : State :=
  mkState {[ 0 := [0; 1; 3]; 1 := [1; 2; 3] ]} ∅ ∅ ∅ ∅.

Definition ex_pars_old : TextDocument :=
  mkDoc 0
    (fun n => match n with 0 => (0, 2)%Z | 1 => (2, 4)%Z | _ => (4, 6)%Z end)
    (fun k => match k with
              | Some k => if bool_decide (k = "a") then Some 0
                          else if bool_decide (k = "b") then Some 1
                          else if bool_decide (k = "f") then Some 3
                          else None
              | None => None
              end).

Definition ex_pars_new : TextDocument :=
  mkDoc 1
    (fun n => match n with 1 => (0, 2)%Z | 2 => (2, 4)%Z | _ => (4, 6)%Z end)
    (fun k => match k with
              | Some k => if bool_decide (k = "b") then Some 1
                          else if bool_decide (k = "d") then Some 2
                          else if bool_decide (k = "f") then Some 3
                          else None
              | None => None
              end).

(** The state and the view after the full render of the old snapshot,
    once the editor holds the new one. *)
Definition ex_pars_rendered (p : list VNode -> list VNode -> list nat -> list VNode)
  : State * View :=
  let r := render (ex_pars p) ex_pars_state (mkView ex_pars_old [] ∅ []) ex_pars_old in
  (fst (snd r),
   mkView ex_pars_new (childNodes (snd (snd r))) (nodeRanges (snd (snd r)))
     (events (snd (snd r)))).

(** The on-screen node of a paragraph. *)
Definition ex_par (k text : string) : VNode := mkVNode "p" ∅ [VText text] (Some k).

(** * Properties *)

(** ** Inline composition *)

Lemma sort_two_keys (prio : string -> Z) (a b : string) :
  (prio b < prio a)%Z -> sort_by_priority prio [a; b] = [b; a].
Proof.
  intros Hlt. unfold sort_by_priority. simpl.
  destruct (Z.leb_spec (prio a) (prio b)) as [Hle | _]; [lia | reflexivity].
Qed.

Section InlineFacts.
Variable editor : Editor.

Lemma insertKey_renderable attrs c i name ty r :
  formats_get editor name = Some ty ->
  fmt_render (formatAt editor ty) = Some r ->
  insertKey editor attrs (c, i) name = (insertStackItem editor i ty attrs c, S i).
Proof. intros Hg Hr. unfold insertKey. rewrite Hg, Hr. reflexivity. Qed.

Lemma insertKey_not_renderable attrs c i name ty :
  formats_get editor name = Some ty ->
  fmt_render (formatAt editor ty) = None ->
  insertKey editor attrs (c, i) name = (c, i).
Proof. intros Hg Hr. unfold insertKey. rewrite Hg, Hr. reflexivity. Qed.

Lemma insertKey_unresolved attrs c i name :
  formats_get editor name = None ->
  insertKey editor attrs (c, i) name = (c, i).
Proof. intros Hg. unfold insertKey. rewrite Hg. reflexivity. Qed.

Lemma insertStackItem_push i ty attrs c :
  length (activeStack c) <= i ->
  insertStackItem editor i ty attrs c = pushItem ty attrs c.
Proof.
  intros Hlen. unfold insertStackItem.
  rewrite lookup_ge_None_2; [reflexivity |]. rewrite length_rev. exact Hlen.
Qed.

End InlineFacts.

(** C8: one text operation with attributes [{bold: true, link: u}], where
    the link format has the lower priority and both formats render by
    wrapping their children: the result is one link node, whose only child
    is the bold node, whose only child is the text. *)
Theorem renderInline_link_wraps_bold (editor : Editor) (fb fl : FmtRef)
    (rb rl : AttributeMap -> list VChild -> option VNode) (s u : string) :
  let attrs := [("bold", VBool true); ("link", VStr u)] in
  formats_get editor "bold" = Some fb ->
  formats_get editor "link" = Some fl ->
  fmt_render (formatAt editor fb) = Some rb ->
  fmt_render (formatAt editor fl) = Some rl ->
  (formats_priority editor "link" < formats_priority editor "bold")%Z ->
  (forall c, exists n, rb attrs c = Some n /\ children n = c) ->
  (forall c, exists n, rl attrs c = Some n /\ children n = c) ->
  exists nl nb,
    renderInline editor [mkOp (InsText s) (Some attrs)] = [VElem nl]
    /\ rl attrs [VElem nb] = Some nl /\ children nl = [VElem nb]
    /\ rb attrs [VText (opText None s None)] = Some nb
    /\ children nb = [VText (opText None s None)].
Proof.
  intros attrs Hgb Hgl Hrb Hrl Hprio Hwb Hwl.
  unfold renderInline, renderOps, renderOp, opChildren. cbn [insert attributes head].
  set (t := opText None s None). clearbody t.
  destruct (Hwb [VText t]) as (nb & Hnb & Hcb).
  destruct (Hwl [VElem nb]) as (nl & Hnl & Hcl).
  exists nl, nb. repeat split; try assumption.
  unfold attr_keys. cbn [map fst attrs].
  rewrite (sort_two_keys _ "bold" "link" Hprio).
  cbn [fold_left].
  rewrite (insertKey_renderable editor _ _ _ _ _ _ Hgl Hrl).
  rewrite insertStackItem_push by (cbn; lia).
  rewrite (insertKey_renderable editor _ _ _ _ _ _ Hgb Hrb).
  rewrite insertStackItem_push by (cbn; lia).
  cbn. unfold collapseStack. cbn. rewrite Hrb. cbn.
  fold attrs. rewrite Hnb, Hrl. cbn. rewrite Hnl. reflexivity.
Qed.

Lemma renderInline_link_wraps_bold_witness :
  exists nl nb,
    renderInline ex_editor
      [mkOp (InsText "x") (Some [("bold", VBool true); ("link", VStr "u")])] = [VElem nl]
    /\ ex_wrap "a" [("bold", VBool true); ("link", VStr "u")] [VElem nb] = Some nl
    /\ children nl = [VElem nb]
    /\ ex_wrap "strong" [("bold", VBool true); ("link", VStr "u")]
         [VText (opText None "x" None)] = Some nb
    /\ children nb = [VText (opText None "x" None)].
Proof.
  apply (renderInline_link_wraps_bold ex_editor 0 1 (ex_wrap "strong") (ex_wrap "a") "x" "u").
  - reflexivity.
  - reflexivity.
  - reflexivity.
  - reflexivity.
  - vm_compute. reflexivity.
  - intros c. exists (h "strong" ∅ c). split; reflexivity.
  - intros c. exists (h "a" ∅ c). split; reflexivity.
Defined.

(** In an operation with attributes, a key that resolves to no format, or
    to a format without render function, leaves the composer as it is:
    nothing is pushed and nothing is raised. *)
Lemma insertKey_skips_unrendered (editor : Editor) attrs c i name :
  (forall ty, formats_get editor name = Some ty ->
              fmt_render (formatAt editor ty) = None) ->
  insertKey editor attrs (c, i) name = (c, i).
Proof.
  intros H. unfold insertKey. destruct (formats_get editor name) as [ty |]; [| reflexivity].
  rewrite (H ty eq_refl). reflexivity.
Qed.

(** When the only attribute of a lone text operation resolves to a format
    without render function, the text is lost: nothing is rendered. *)
Lemma renderInline_unrendered_only (editor : Editor) name v ty s :
  formats_get editor name = Some ty ->
  fmt_render (formatAt editor ty) = None ->
  renderInline editor [mkOp (InsText s) (Some [(name, v)])] = [].
Proof.
  intros Hg Hr. unfold renderInline, renderOps, renderOp, opChildren.
  cbn [insert attributes head attr_keys map fst sort_by_priority foldr sort_insert fold_left].
  rewrite (insertKey_not_renderable editor _ _ _ _ _ Hg Hr). reflexivity.
Qed.

(** C7: the operation [{insert: "x", attributes: {foo: true}}], where [foo]
    resolves to a format without render function, renders to nothing: the
    frame is skipped and nothing is raised, but the text "x" is dropped
    with it. *)
Theorem renderInline_drops_text_of_unrendered_format :
  formats_get ex_editor "foo" = Some 2
  /\ fmt_render (formatAt ex_editor 2) = None
  /\ renderInline ex_editor [mkOp (InsText "x") (Some [("foo", VBool true)])] = []
  /\ renderInline ex_editor [mkOp (InsText "x") None] = [VText "x"].
Proof. repeat split; reflexivity. Qed.

(** ** Sibling merging *)

Lemma addOrMergeChild_text (l : list VChild) (a b : string) :
  addOrMergeChild (l ++ [VText a]) (VText b) = l ++ [VText (String.append a b)].
Proof.
  unfold addOrMergeChild. rewrite length_app. cbn [length].
  replace (length l + 1 - 1) with (length l + 0) by lia.
  rewrite lookup_app_r by lia. replace (length l + 0 - length l) with 0 by lia.
  cbn [lookup list_lookup]. rewrite Nat.add_0_r.
  rewrite insert_app_r_alt by lia. rewrite Nat.sub_diag. reflexivity.
Qed.

Lemma addOrMergeChild_node (l : list VChild) t p c1 k1 c2 k2 :
  addOrMergeChild (l ++ [VElem (mkVNode t p c1 k1)]) (VElem (mkVNode t p c2 k2))
  = l ++ [VElem (mkVNode t p (c1 ++ c2) k1)].
Proof.
  unfold addOrMergeChild. rewrite length_app. cbn [length].
  replace (length l + 1 - 1) with (length l + 0) by lia.
  rewrite lookup_app_r by lia. replace (length l + 0 - length l) with 0 by lia.
  cbn [lookup list_lookup vtype props children]. rewrite Nat.add_0_r.
  rewrite !bool_decide_eq_true_2 by reflexivity. cbn [andb].
  rewrite insert_app_r_alt by lia. rewrite Nat.sub_diag. reflexivity.
Qed.

Lemma addOrMergeChild_other (l : list VChild) (x y : VChild) :
  mergeable x y = false ->
  addOrMergeChild (l ++ [x]) y = l ++ [x; y].
Proof.
  intros Hm. unfold addOrMergeChild. rewrite length_app. cbn [length].
  replace (length l + 1 - 1) with (length l + 0) by lia.
  rewrite lookup_app_r by lia. replace (length l + 0 - length l) with 0 by lia.
  cbn [lookup list_lookup]. rewrite <- app_assoc. cbn [app].
  destruct x as [a | n], y as [b | m]; cbn in Hm; try discriminate; try reflexivity.
  rewrite Hm. reflexivity.
Qed.

Lemma sort_insert_elem (prio : string -> Z) (x k : string) (l : list string) :
  k ∈ sort_insert prio x l <-> k = x \/ k ∈ l.
Proof.
  induction l as [| y l IH]; cbn.
  - set_solver.
  - destruct (prio x <=? prio y)%Z.
    + rewrite !elem_of_cons. tauto.
    + rewrite !elem_of_cons, IH. tauto.
Qed.

Lemma sort_by_priority_elem (prio : string -> Z) (k : string) (l : list string) :
  k ∈ sort_by_priority prio l <-> k ∈ l.
Proof.
  induction l as [| x l IH]; cbn; [reflexivity |].
  rewrite sort_insert_elem, elem_of_cons, IH. tauto.
Qed.

Section FrameFacts.
Variable editor : Editor.

Lemma renderableTypes_cons_renderable name keys ty r :
  formats_get editor name = Some ty ->
  fmt_render (formatAt editor ty) = Some r ->
  renderableTypes editor (name :: keys) = ty :: renderableTypes editor keys.
Proof. intros Hg Hr. unfold renderableTypes. cbn. rewrite Hg, Hr. reflexivity. Qed.

Lemma renderableTypes_nonempty keys name ty r :
  name ∈ keys ->
  formats_get editor name = Some ty ->
  fmt_render (formatAt editor ty) = Some r ->
  renderableTypes editor keys <> [].
Proof.
  intros Hin Hg Hr Hnil.
  assert (ty ∈ renderableTypes editor keys) as Hty.
  { unfold renderableTypes. apply list_elem_of_omap. exists name.
    split; [exact Hin |]. rewrite Hg, Hr. reflexivity. }
  rewrite Hnil in Hty. inversion Hty.
Qed.

(** On a stack that holds [i] frames, the keys push one frame for each
    renderable type, in order. *)
Lemma insertKeys_build attrs keys :
  forall c i,
    length (activeStack c) = i ->
    fold_left (insertKey editor attrs) keys (c, i)
    = (mkComposer (inlineChildren c) (trailingBreak c)
         (rev (map (fun ty => mkItem ty attrs None) (renderableTypes editor keys))
          ++ activeStack c),
       i + length (renderableTypes editor keys)).
Proof.
  induction keys as [| name keys IH]; intros c i Hlen.
  - cbn. destruct c. rewrite Nat.add_0_r. reflexivity.
  - cbn [fold_left].
    destruct (formats_get editor name) as [ty |] eqn:Hg.
    + destruct (fmt_render (formatAt editor ty)) as [r |] eqn:Hr.
      * rewrite (insertKey_renderable editor _ _ _ _ _ _ Hg Hr).
        rewrite insertStackItem_push by lia.
        rewrite IH by (cbn; lia).
        rewrite (renderableTypes_cons_renderable _ _ _ _ Hg Hr).
        cbn [map rev length pushItem inlineChildren trailingBreak activeStack].
        rewrite <- app_assoc. cbn [app]. f_equal. lia.
      * rewrite (insertKey_not_renderable editor _ _ _ _ _ Hg Hr).
        rewrite IH by exact Hlen. unfold renderableTypes. cbn. rewrite Hg, Hr. reflexivity.
    + rewrite (insertKey_unresolved editor _ _ _ _ Hg).
      rewrite IH by exact Hlen. unfold renderableTypes. cbn. rewrite Hg. reflexivity.
Qed.

(** On a stack whose frames from depth [i] on are those the keys ask for,
    with the same attributes, the keys change nothing. *)
Lemma insertKeys_keep attrs keys :
  forall c i,
    (forall j ty, renderableTypes editor keys !! j = Some ty ->
       exists active, rev (activeStack c) !! (i + j) = Some active
                      /\ item_type active = ty /\ item_attributes active = attrs) ->
    fold_left (insertKey editor attrs) keys (c, i)
    = (c, i + length (renderableTypes editor keys)).
Proof.
  induction keys as [| name keys IH]; intros c i Hframes.
  - cbn. rewrite Nat.add_0_r. reflexivity.
  - cbn [fold_left].
    destruct (formats_get editor name) as [ty |] eqn:Hg.
    + destruct (fmt_render (formatAt editor ty)) as [r |] eqn:Hr.
      * rewrite (insertKey_renderable editor _ _ _ _ _ _ Hg Hr).
        rewrite (renderableTypes_cons_renderable _ _ _ _ Hg Hr) in Hframes |- *.
        destruct (Hframes 0 ty eq_refl) as (active & Hact & Hty & Hat).
        rewrite Nat.add_0_r in Hact.
        assert (insertStackItem editor i ty attrs c = c) as ->.
        { unfold insertStackItem. rewrite Hact, Hty, Hat.
          rewrite bool_decide_eq_true_2 by reflexivity.
          unfold isEqual. rewrite bool_decide_eq_true_2 by reflexivity. reflexivity. }
        rewrite IH.
        { cbn [length]. f_equal. lia. }
        intros j ty' Hj. destruct (Hframes (S j) ty' Hj) as (a' & Ha' & ?).
        exists a'. split; [| assumption]. rewrite <- Ha'. f_equal. lia.
      * rewrite (insertKey_not_renderable editor _ _ _ _ _ Hg Hr).
        assert (renderableTypes editor (name :: keys) = renderableTypes editor keys) as Heq.
        { unfold renderableTypes. cbn. rewrite Hg, Hr. reflexivity. }
        rewrite Heq in Hframes |- *. apply IH. exact Hframes.
    + rewrite (insertKey_unresolved editor _ _ _ _ Hg).
      assert (renderableTypes editor (name :: keys) = renderableTypes editor keys) as Heq.
      { unfold renderableTypes. cbn. rewrite Hg. reflexivity. }
      rewrite Heq in Hframes |- *. apply IH. exact Hframes.
Qed.

End FrameFacts.

(** Two consecutive text operations without attributes. *)
Lemma renderInline_two_plain_texts (editor : Editor) (s1 s2 : string) :
  let op1 := mkOp (InsText s1) None in
  let op2 := mkOp (InsText s2) None in
  renderInline editor [op1; op2]
  = [VText (String.append (opText None s1 (Some op2)) (opText (Some op1) s2 None))].
Proof.
  intros op1 op2. unfold renderInline, renderOps, renderOp, opChildren.
  cbn [insert attributes head op1 op2].
  set (t1 := opText None s1 _). set (t2 := opText _ s2 None). clearbody t1 t2.
  reflexivity.
Qed.

(** Two consecutive text operations with the same attributes, one of
    which at least has a format that renders: the frames opened by the
    first operation stay open, and the innermost one holds the single
    concatenated text. *)
Lemma renderOps_two_formatted_texts (editor : Editor) (attrs : AttributeMap)
    (s1 s2 : string) (name : string) (ty : FmtRef)
    (r : AttributeMap -> list VChild -> option VNode) :
  let op1 := mkOp (InsText s1) (Some attrs) in
  let op2 := mkOp (InsText s2) (Some attrs) in
  name ∈ attr_keys attrs ->
  formats_get editor name = Some ty ->
  fmt_render (formatAt editor ty) = Some r ->
  exists top rest,
    renderOps editor None [op1; op2] (mkComposer [] true [])
    = mkComposer [] false
        (mkItem top attrs
           (Some [VText (String.append (opText None s1 (Some op2))
                                        (opText (Some op1) s2 None))])
         :: map (fun ty => mkItem ty attrs None) rest).
Proof.
  intros op1 op2 Hin Hg Hr.
  unfold renderOps, renderOp, opChildren. cbn [insert attributes head op1 op2].
  fold op1 op2.
  set (t1 := opText None s1 _). set (t2 := opText _ s2 None). clearbody t1 t2.
  set (keys := sort_by_priority (formats_priority editor) (attr_keys attrs)).
  assert (renderableTypes editor keys <> []) as Hne.
  { apply (renderableTypes_nonempty editor keys name ty r); [| exact Hg | exact Hr].
    apply sort_by_priority_elem. exact Hin. }
  cbn [inlineChildren trailingBreak activeStack].
  rewrite (insertKeys_build editor attrs keys (mkComposer [] false []) 0 eq_refl).
  cbn [inlineChildren trailingBreak activeStack]. rewrite app_nil_r.
  destruct (exists_last Hne) as (tys' & top & Htys). rewrite Htys.
  rewrite map_app, rev_app_distr. cbn [map rev app].
  cbn [activeStack item_type item_attributes item_content combineChildren
       inlineChildren trailingBreak].
  rewrite (insertKeys_keep editor attrs keys _ 0).
  - cbn [activeStack item_type item_attributes item_content combineChildren
         inlineChildren trailingBreak fold_left].
    exists top, (rev tys'). rewrite map_rev. reflexivity.
  - intros j ty' Hj. cbn [activeStack rev Nat.add].
    rewrite rev_involutive. rewrite Htys in Hj.
    destruct (decide (j < length tys')) as [Hlt | Hge].
    + rewrite lookup_app_l in Hj by exact Hlt.
      exists (mkItem ty' attrs None). split; [| split; reflexivity].
      rewrite lookup_app_l by (rewrite length_map; exact Hlt).
      rewrite list_lookup_fmap, Hj. reflexivity.
    + rewrite lookup_app_r in Hj by lia.
      destruct (j - length tys') as [| k] eqn:Hk; cbn in Hj; [| discriminate].
      inversion Hj; subst ty'.
      exists (mkItem top attrs (Some [VText t1])). split; [| split; reflexivity].
      rewrite lookup_app_r by (rewrite length_map; lia).
      rewrite length_map, Hk. reflexivity.
Qed.

(** What [collapseStack] does with the children it has collected: they
    are appended as they are, to the top-level output when no frame is
    left, and to the content of the frame on top otherwise. *)
Lemma collapseStack_appends (editor : Editor) (from : nat) (c : Composer)
    (chn : list VChild) :
  (collapseLoop editor from (activeStack c) None = ([], Some chn) ->
   collapseStack editor from c
   = mkComposer (inlineChildren c ++ chn) (trailingBreak c) [])
  /\ (forall last rest,
        collapseLoop editor from (activeStack c) None = (last :: rest, Some chn) ->
        collapseStack editor from c
        = mkComposer (inlineChildren c) (trailingBreak c)
            (mkItem (item_type last) (item_attributes last)
               (Some (default [] (item_content last) ++ chn)) :: rest)).
Proof.
  split.
  - intros H. unfold collapseStack. rewrite H. reflexivity.
  - intros last rest H. unfold collapseStack. rewrite H.
    destruct (item_content last); reflexivity.
Qed.

(** Where the children do merge: [addOrMergeChild], through which
    [combineChildren] appends, concatenates a string onto a last string,
    concatenates the child lists of two nodes of identical type and equal
    props, and appends otherwise; the children that [collapseStack] has
    collected are appended as they are; two consecutive text operations
    without attributes yield one concatenated text child at the top
    level, and two consecutive text operations with the same attributes,
    of which a format renders, yield one concatenated text child in the
    innermost open frame. *)
Lemma children_merge_on_combine (editor : Editor) :
  (forall l a b,
     addOrMergeChild (l ++ [VText a]) (VText b) = l ++ [VText (String.append a b)])
  /\ (forall l t p c1 k1 c2 k2,
        addOrMergeChild (l ++ [VElem (mkVNode t p c1 k1)]) (VElem (mkVNode t p c2 k2))
        = l ++ [VElem (mkVNode t p (c1 ++ c2) k1)])
  /\ (forall l x y, mergeable x y = false -> addOrMergeChild (l ++ [x]) y = l ++ [x; y])
  /\ (forall a b, combineChildren (Some a) (Some b) = fold_left addOrMergeChild b a)
  /\ (forall from c chn,
        collapseLoop editor from (activeStack c) None = ([], Some chn) ->
        inlineChildren (collapseStack editor from c) = inlineChildren c ++ chn)
  /\ (forall from c chn last rest,
        collapseLoop editor from (activeStack c) None = (last :: rest, Some chn) ->
        activeStack (collapseStack editor from c)
        = mkItem (item_type last) (item_attributes last)
            (Some (default [] (item_content last) ++ chn)) :: rest)
  /\ (forall s1 s2,
        let op1 := mkOp (InsText s1) None in
        let op2 := mkOp (InsText s2) None in
        renderInline editor [op1; op2]
        = [VText (String.append (opText None s1 (Some op2)) (opText (Some op1) s2 None))])
  /\ (forall attrs s1 s2 name ty r,
        let op1 := mkOp (InsText s1) (Some attrs) in
        let op2 := mkOp (InsText s2) (Some attrs) in
        name ∈ attr_keys attrs ->
        formats_get editor name = Some ty ->
        fmt_render (formatAt editor ty) = Some r ->
        exists top rest,
          renderOps editor None [op1; op2] (mkComposer [] true [])
          = mkComposer [] false
              (mkItem top attrs
                 (Some [VText (String.append (opText None s1 (Some op2))
                                              (opText (Some op1) s2 None))])
               :: map (fun ty => mkItem ty attrs None) rest)).
Proof.
  split; [exact addOrMergeChild_text |].
  split; [exact addOrMergeChild_node |].
  split; [exact addOrMergeChild_other |].
  split; [reflexivity |].
  split.
  { intros from c chn H.
    rewrite (proj1 (collapseStack_appends editor from c chn) H). reflexivity. }
  split.
  { intros from c chn last rest H.
    rewrite (proj2 (collapseStack_appends editor from c chn) last rest H). reflexivity. }
  split; [exact (renderInline_two_plain_texts editor) |].
  intros attrs s1 s2 name ty r. exact (renderOps_two_formatted_texts editor attrs s1 s2 name ty r).
Qed.

(** C9: [collapseStack] hands the nodes it has finalized to the top-level
    output, or to the frame that is still open, as they are
    ([push.apply]), where every other append goes through
    [combineChildren]. At the top level: a bold run, an embed that no
    embed type renders and another bold run leave two adjacent [strong]
    nodes of equal props, which [combineChildren] joins into one. In a
    frame that is still open: of three runs in one link whose bold values
    differ, the nodes of the first two are handed to the link one after
    the other and stay two siblings, while the node of the third, which
    is finalized together with the link, is merged into the second by
    [combineChildren]; of two such runs the second is finalized with the
    link, and the two are merged. *)
Theorem collapseStack_skips_the_merge :
  let bold s := mkOp (InsText s) (Some [("bold", VBool true)]) in
  let run s n := mkOp (InsText s) (Some [("link", VStr "u"); ("bold", VNum n)]) in
  let strong c := VElem (h "strong" ∅ c) in
  renderInline ex_editor [bold "a"; mkOp (InsEmbed [("image", VStr "i")]) None; bold "b"]
  = [strong [VText "a"]; strong [VText "b"]]
  /\ mergeable (strong [VText "a"]) (strong [VText "b"]) = true
  /\ combineChildren (Some [strong [VText "a"]]) (Some [strong [VText "b"]])
     = [strong [VText "a"; VText "b"]]
  /\ renderInline ex_editor [run "a" 1%Z; run "b" 2%Z; run "c" 3%Z]
     = [VElem (h "a" ∅ [strong [VText "a"]; strong [VText "b"; VText "c"]])]
  /\ renderInline ex_editor [run "a" 1%Z; run "b" 2%Z]
     = [VElem (h "a" ∅ [strong [VText "a"; VText "b"]])].
Proof. cbv zeta. repeat split; vm_compute; reflexivity. Qed.

(** ** The caches and the heap *)

Lemma find_none_iff {A} (f : A -> bool) (l : list A) :
  find f l = None <-> forall x, x ∈ l -> f x = false.
Proof.
  induction l as [| y l IH]; cbn.
  - split; [intros _ x Hx; inversion Hx | reflexivity].
  - destruct (f y) eqn:Hy.
    + split; [discriminate |]. intros H. rewrite (H y) in Hy by left. discriminate.
    + rewrite IH. split.
      * intros H x Hx. apply elem_of_cons in Hx as [-> | Hx]; [exact Hy | exact (H x Hx)].
      * intros H x Hx. apply H. right. exact Hx.
Qed.

(** [arr.every((v, i) => other[i] === v)] with equal lengths is equality of
    the arrays, element by element. *)
Lemma every_same_prefix (arr other : list nat) (k : nat) :
  forallb (fun iv => bool_decide (other !! fst iv = Some (snd iv)))
    (zip (seq k (length arr)) arr) = true
  <-> forall i v, arr !! i = Some v -> other !! (k + i) = Some v.
Proof.
  revert k. induction arr as [| x arr IH]; intros k; cbn.
  - split; [intros _ i v Hi; discriminate | reflexivity].
  - rewrite andb_true_iff, bool_decide_eq_true, IH. split.
    + intros [H0 Hrest] [| i] v Hi; cbn in Hi.
      * inversion Hi; subst. rewrite Nat.add_0_r. exact H0.
      * replace (k + S i) with (S k + i) by lia. apply Hrest. exact Hi.
    + intros H. split.
      * rewrite <- (Nat.add_0_r k). apply (H 0). reflexivity.
      * intros i v Hi. replace (S k + i) with (k + S i) by lia. apply (H (S i)). exact Hi.
Qed.

Lemma every_same_spec (arr other : list nat) :
  every_same arr other = true <-> forall i v, arr !! i = Some v -> other !! i = Some v.
Proof. unfold every_same. apply (every_same_prefix arr other 0). Qed.

Lemma same_length_every_same (arr other : list nat) :
  (length other =? length arr) && every_same arr other = true <-> other = arr.
Proof.
  rewrite andb_true_iff, Nat.eqb_eq, every_same_spec. split.
  - intros [Hlen H]. apply list_eq. intros i.
    destruct (arr !! i) as [v |] eqn:Hv.
    + apply H. exact Hv.
    + apply lookup_ge_None. apply lookup_ge_None in Hv. lia.
  - intros ->. split; [reflexivity | auto].
Qed.

Section StateFacts.
Variable editor : Editor.

Lemma resolve_linesType st st' line :
  linesType st = linesType st' -> resolve editor st line = resolve editor st' line.
Proof. intros H. unfold resolve, getLineType. rewrite H. destruct (_ !! _); reflexivity. Qed.

Lemma getLineType_fst st line : fst (getLineType editor st line) = resolve editor st line.
Proof. reflexivity. Qed.

Lemma getLineType_arrays st line : arrays (snd (getLineType editor st line)) = arrays st.
Proof. unfold getLineType. destruct (_ !! _); reflexivity. Qed.

Lemma getLineType_datas st line : datas (snd (getLineType editor st line)) = datas st.
Proof. unfold getLineType. destruct (_ !! _); reflexivity. Qed.

Lemma getLineType_linesMultiples st line :
  linesMultiples (snd (getLineType editor st line)) = linesMultiples st.
Proof. unfold getLineType. destruct (_ !! _); reflexivity. Qed.

Lemma getLineType_linesCombined st line :
  linesCombined (snd (getLineType editor st line)) = linesCombined st.
Proof. unfold getLineType. destruct (_ !! _); reflexivity. Qed.

(** The cache never changes what a line resolves to. *)
Lemma getLineType_resolve st line line' :
  resolve editor (snd (getLineType editor st line)) line' = resolve editor st line'.
Proof.
  unfold resolve, getLineType.
  destruct (linesType st !! line_attributes (lineAt editor line)) as [t |] eqn:Hc;
    [reflexivity |].
  cbn [snd set_linesType linesType].
  destruct (decide (line_attributes (lineAt editor line)
                    = line_attributes (lineAt editor line'))) as [Heq | Hne].
  - rewrite <- Heq, lookup_insert_eq, Hc. reflexivity.
  - rewrite lookup_insert_ne by exact Hne.
    destruct (linesType st !! line_attributes (lineAt editor line')); reflexivity.
Qed.

Lemma readArr_arrays st st' a : arrays st = arrays st' -> readArr st a = readArr st' a.
Proof. intros H. unfold readArr. rewrite H. reflexivity. Qed.

Lemma readArr_getLineType st line a :
  readArr (snd (getLineType editor st line)) a = readArr st a.
Proof. apply readArr_arrays, getLineType_arrays. Qed.

Lemma readArr_pushArr_eq st a line : readArr (pushArr st a line) a = readArr st a ++ [line].
Proof. unfold readArr at 1, pushArr. cbn. rewrite lookup_insert_eq. reflexivity. Qed.

Lemma readArr_pushArr_ne st a b line : a <> b -> readArr (pushArr st a line) b = readArr st b.
Proof. intros H. unfold readArr, pushArr. cbn. rewrite lookup_insert_ne by exact H. reflexivity. Qed.

Lemma newArr_fresh st : arrays st !! fst (newArr st) = None.
Proof. cbn. apply not_elem_of_dom. apply is_fresh. Qed.

Lemma readArr_newArr_eq st : readArr (snd (newArr st)) (fst (newArr st)) = [].
Proof. unfold readArr. cbn. rewrite lookup_insert_eq. reflexivity. Qed.

Lemma readArr_newArr_ne st a : a <> fst (newArr st) -> readArr (snd (newArr st)) a = readArr st a.
Proof. intros H. unfold readArr. cbn. rewrite lookup_insert_ne by (cbn in H; congruence). reflexivity. Qed.

Lemma readArr_nonempty_allocated st a : readArr st a <> [] -> is_Some (arrays st !! a).
Proof. unfold readArr. destruct (arrays st !! a); [eauto | intros H; contradiction H; reflexivity]. Qed.

(** [isSame] holds exactly between units with the same member lines of the
    same kind. *)
Lemma isSame_spec st o n :
  isSame st o n = true <->
  match o, n with
  | ELine a, ELine b => a = b
  | EArr a, EArr b => readArr st a = readArr st b
  | _, _ => False
  end.
Proof.
  unfold isSame. destruct (bool_decide (o = n)) eqn:Heq.
  - apply bool_decide_eq_true in Heq as ->. destruct n; split; auto.
  - apply bool_decide_eq_false in Heq.
    destruct o as [a | a], n as [b | b]; try (split; [discriminate | tauto]).
    + split; [discriminate | intros ->; contradiction Heq; reflexivity].
    + rewrite Nat.eqb_sym, same_length_every_same. split; intros H; symmetry; exact H.
Qed.

Lemma isSame_refl st e : isSame st e e = true.
Proof. unfold isSame. rewrite bool_decide_eq_true_2; reflexivity. Qed.

End StateFacts.

(** ** Range diff *)

(** Appending one unit that is not the same as the last old unit: the
    front scan finds no mismatch below the old length and leaves the start
    at 0; the back scan stops at once. *)
Lemma getChangedRanges_append (st : State) (oldC : list CombinedEntry)
    (lastE u : CombinedEntry) :
  last oldC = Some lastE ->
  isSame st lastE u = false ->
  getChangedRanges st oldC (oldC ++ [u])
  = ((0%Z, Z.of_nat (length oldC)), (0%Z, Z.of_nat (length oldC + 1))).
Proof.
  intros Hlast Hdiff. unfold getChangedRanges.
  rewrite length_app. cbn [length].
  replace (Nat.min (length oldC) (length oldC + 1)) with (length oldC) by lia.
  assert (find (fun i => negb (sameAt st oldC (oldC ++ [u]) i i)) (seq 0 (length oldC)) = None)
    as ->.
  { apply find_none_iff. intros i Hi. apply elem_of_seq in Hi.
    unfold sameAt. rewrite lookup_app_l by lia.
    destruct (lookup_lt_is_Some_2 oldC i) as [o Ho]; [lia |].
    rewrite Ho, isSame_refl. reflexivity. }
  destruct oldC as [| e oldC']; [discriminate |].
  set (oldC := e :: oldC') in *.
  assert (length oldC = S (length oldC')) as Hlen by reflexivity.
  rewrite Hlen. cbn [seq find].
  assert (sameAt st oldC (oldC ++ [u]) (S (length oldC') - 0 - 1) (S (length oldC') + 1 - 0 - 1)
          = false) as ->.
  { unfold sameAt.
    replace (S (length oldC') - 0 - 1) with (length oldC') by lia.
    replace (S (length oldC') + 1 - 0 - 1) with (length oldC + 0) by lia.
    rewrite lookup_app_r by lia. replace (length oldC + 0 - length oldC) with 0 by lia.
    rewrite last_lookup in Hlast. rewrite Hlen in Hlast. cbn [pred] in Hlast.
    rewrite Hlast. cbn. exact Hdiff. }
  cbn [negb]. f_equal; f_equal; lia.
Qed.

(** C2: for the old units [[a]] and the new units [[a, b]] (one unit
    appended to a sequence of length 1) the code returns the old window
    [[0, 1)] and the new window [[0, 2)], not [[1, 1)] and [[1, 2)]: when
    the front scan meets no mismatch the start stays at its initial 0. *)
Theorem getChangedRanges_append_starts_at_zero :
  getChangedRanges ex_state [ELine 0] [ELine 0; ELine 1] = ((0, 1), (0, 2))%Z
  /\ getChangedRanges ex_state [ELine 0] [ELine 0; ELine 1] <> ((1, 1), (1, 2))%Z.
Proof. split; [reflexivity | discriminate]. Qed.

(** ** The line grouper *)

Section GroupFacts.
Variable editor : Editor.

Lemma combinable_included st l : combinable editor st l = true -> included editor st l = true.
Proof. unfold combinable, included. destruct (shouldCombine _); [reflexivity | discriminate]. Qed.

Lemma closesGroup_arrays st type sc c0 next :
  arrays (snd (closesGroup editor st type sc c0 next)) = arrays st.
Proof.
  unfold closesGroup. destruct next as [n |]; [| reflexivity].
  destruct (getLineType editor st n) as [tn st1] eqn:E.
  assert (arrays st1 = arrays st) as <-.
  { change st1 with (snd (tn, st1)). rewrite <- E. apply getLineType_arrays. }
  destruct (negb _); reflexivity.
Qed.

Lemma closesGroup_datas st type sc c0 next :
  datas (snd (closesGroup editor st type sc c0 next)) = datas st.
Proof.
  unfold closesGroup. destruct next as [n |]; [| reflexivity].
  destruct (getLineType editor st n) as [tn st1] eqn:E.
  assert (datas st1 = datas st) as <-.
  { change st1 with (snd (tn, st1)). rewrite <- E. apply getLineType_datas. }
  destruct (negb _); reflexivity.
Qed.

Lemma closesGroup_linesCombined st type sc c0 next :
  linesCombined (snd (closesGroup editor st type sc c0 next)) = linesCombined st.
Proof.
  unfold closesGroup. destruct next as [n |]; [| reflexivity].
  destruct (getLineType editor st n) as [tn st1] eqn:E.
  assert (linesCombined st1 = linesCombined st) as <-.
  { change st1 with (snd (tn, st1)). rewrite <- E. apply getLineType_linesCombined. }
  destruct (negb _); reflexivity.
Qed.

Lemma closesGroup_linesMultiples st type sc c0 next :
  linesMultiples (snd (closesGroup editor st type sc c0 next)) = linesMultiples st.
Proof.
  unfold closesGroup. destruct next as [n |]; [| reflexivity].
  destruct (getLineType editor st n) as [tn st1] eqn:E.
  assert (linesMultiples st1 = linesMultiples st) as <-.
  { change st1 with (snd (tn, st1)). rewrite <- E. apply getLineType_linesMultiples. }
  destruct (negb _); reflexivity.
Qed.

Lemma closesGroup_resolve st type sc c0 next l :
  resolve editor (snd (closesGroup editor st type sc c0 next)) l = resolve editor st l.
Proof.
  unfold closesGroup. destruct next as [n |]; [| reflexivity].
  destruct (getLineType editor st n) as [tn st1] eqn:E.
  assert (resolve editor st1 l = resolve editor st l) as <-.
  { change st1 with (snd (tn, st1)). rewrite <- E. apply getLineType_resolve. }
  destruct (negb _); reflexivity.
Qed.

(** The group stays open only before a line of the same type. *)
Lemma closesGroup_open st type sc c0 next :
  fst (closesGroup editor st type sc c0 next) = false ->
  exists n, next = Some n /\ resolve editor st n = type
            /\ sc (attrsOf editor c0) (attrsOf editor n) = true.
Proof.
  unfold closesGroup. destruct next as [n |]; [| discriminate].
  destruct (getLineType editor st n) as [tn st1] eqn:E.
  assert (tn = resolve editor st n) as Htn.
  { unfold resolve. rewrite E. reflexivity. }
  destruct (bool_decide (tn = type)) eqn:Hb; cbn; [| discriminate].
  apply bool_decide_eq_true in Hb. intros Hsc. apply negb_false_iff in Hsc.
  exists n. repeat split; [congruence | exact Hsc].
Qed.

End GroupFacts.

Section StepFacts.
Variable editor : Editor.

(** The memoized array that a closing group reuses, if any. *)
Lemma reuse_spec st c0 coll :
  match linesMultiples st !! c0 with
  | Some last =>
      if (length (readArr st last) =? length coll) && every_same coll (readArr st last)
      then Some last else None
  | None => None
  end
  = match linesMultiples st !! c0 with
    | Some last => if decide (readArr st last = coll) then Some last else None
    | None => None
    end.
Proof.
  destruct (linesMultiples st !! c0) as [last |]; [| reflexivity].
  destruct (decide (readArr st last = coll)) as [Heq | Hne].
  - apply same_length_every_same in Heq. rewrite Heq. reflexivity.
  - destruct ((length (readArr st last) =? length coll) && every_same coll (readArr st last))
      eqn:Hb; [| reflexivity].
    apply same_length_every_same in Hb. contradiction.
Qed.

(** [combineStep], case by case. *)
Lemma combineStep_combinable g line next sc :
  shouldCombine (lineTypeAt editor (resolve editor (g_state g) line)) = Some sc ->
  let type := resolve editor (g_state g) line in
  let st1 := snd (getLineType editor (g_state g) line) in
  let st2 := pushArr st1 (g_collect g) line in
  let coll := readArr st2 (g_collect g) in
  let c0 := hd line coll in
  let cl := closesGroup editor st2 type sc c0 next in
  let st3 := snd cl in
  combineStep editor g line next
  = if fst cl then
      let unit :=
        match linesMultiples st3 !! c0 with
        | Some last => if decide (readArr st3 last = readArr st3 (g_collect g))
                       then Some last else None
        | None => None
        end in
      let collect' := match unit with Some last => last | None => g_collect g end in
      let st4 := match unit with
                 | Some _ => st3
                 | None => set_linesMultiples st3 c0 (g_collect g)
                 end in
      mkGrouping (snd (newArr st4)) (g_combined g ++ [EArr collect'])
        (<[id (lineAt editor (hd line (readArr st4 collect'))) := EArr collect']> (g_byKey g))
        (fst (newArr st4))
    else mkGrouping st3 (g_combined g) (g_byKey g) (g_collect g).
Proof.
  intros Hsc. cbv zeta. unfold combineStep.
  assert (resolve editor (g_state g) line = fst (getLineType editor (g_state g) line))
    as Hty by reflexivity.
  rewrite Hty in *. clear Hty.
  destruct (getLineType editor (g_state g) line) as [ty s1]. cbn [fst snd] in *.
  rewrite Hsc.
  destruct (closesGroup editor (pushArr s1 (g_collect g) line) ty sc
              (hd line (readArr (pushArr s1 (g_collect g) line) (g_collect g))) next)
    as [closes s3]. cbn [fst snd].
  destruct closes; [| reflexivity].
  rewrite reuse_spec.
  destruct (linesMultiples s3 !! _) as [last |]; [| reflexivity].
  destruct (decide (readArr s3 last = readArr s3 (g_collect g))); reflexivity.
Qed.

Lemma combineStep_single g line :
  forall next,
  shouldCombine (lineTypeAt editor (resolve editor (g_state g) line)) = None ->
  let st1 := snd (getLineType editor (g_state g) line) in
  combineStep editor g line next
  = match lt_render (lineTypeAt editor (resolve editor (g_state g) line)) with
    | Some _ => mkGrouping st1 (g_combined g ++ [ELine line])
                  (<[id (lineAt editor line) := ELine line]> (g_byKey g)) (g_collect g)
    | None => mkGrouping st1 (g_combined g) (g_byKey g) (g_collect g)
    end.
Proof.
  intros next Hsc. cbv zeta. unfold combineStep.
  assert (resolve editor (g_state g) line = fst (getLineType editor (g_state g) line))
    as Hty by reflexivity.
  rewrite Hty in *. clear Hty.
  destruct (getLineType editor (g_state g) line) as [ty s1]. cbn [fst snd] in *.
  rewrite Hsc. reflexivity.
Qed.

End StepFacts.

Section InvFacts.
Variable editor : Editor.

(** Units that were pushed keep their member lines when the heap changes
    only at [collect] and at addresses that were not allocated. *)
Lemma units_frame st0 st st' c c' us :
  (forall a, a <> c -> is_Some (arrays st !! a) ->
             arrays st' !! a = arrays st !! a /\ a <> c') ->
  Forall (unit_ok editor st0 st c) us ->
  Forall (unit_ok editor st0 st' c') us /\ map (members st') us = map (members st) us.
Proof.
  intros Hframe Hus. induction Hus as [| e us He Hus [IH1 IH2]]; [split; constructor |].
  assert (unit_ok editor st0 st' c' e /\ members st' e = members st e) as [He1 He2].
  { destruct e as [l | a]; cbn in *; [split; [exact He | reflexivity] |].
    destruct He as (Hne & Hnil & Hall).
    destruct (Hframe a Hne (readArr_nonempty_allocated st a Hnil)) as [Heq Hne'].
    assert (readArr st' a = readArr st a) as Hr by (unfold readArr; rewrite Heq; reflexivity).
    rewrite Hr. repeat split; assumption. }
  split; [constructor; assumption | cbn; rewrite He2, IH2; reflexivity].
Qed.

Lemma filter_snoc (f : nat -> bool) (l : list nat) (x : nat) :
  List.filter f (l ++ [x]) = List.filter f l ++ (if f x then [x] else []).
Proof. rewrite List.filter_app. cbn. destruct (f x); reflexivity. Qed.

Lemma concat_map_snoc {A B} (f : A -> list B) (l : list A) (x : A) :
  concat (map f (l ++ [x])) = concat (map f l) ++ f x.
Proof. rewrite map_app, concat_app. cbn. rewrite app_nil_r. reflexivity. Qed.

(** One step of the loop keeps the invariant. *)
Lemma combineStep_inv st0 done line rest g :
  GroupInv editor st0 done (line :: rest) g ->
  GroupInv editor st0 (done ++ [line]) rest (combineStep editor g line (head rest)).
Proof.
  intros Inv. destruct Inv as [HR HF HA HH HD HC HU HP HO HCo].
  set (c := g_collect g) in *. set (st := g_state g) in *.
  assert (resolve editor st line = resolve editor st0 line) as Hty by apply HR.
  destruct (shouldCombine (lineTypeAt editor (resolve editor st line))) as [sc |] eqn:Hsc.
  - (* the line is pushed onto collect *)
    assert (combinable editor st0 line = true) as Hcomb.
    { unfold combinable. rewrite <- Hty, Hsc. reflexivity. }
    rewrite (combineStep_combinable editor g line (head rest) sc Hsc). cbv zeta.
    fold st c.
    set (st1 := snd (getLineType editor st line)).
    set (st2 := pushArr st1 c line).
    set (cl := closesGroup editor st2 (resolve editor st line) sc
                 (hd line (readArr st2 c)) (head rest)).
    set (st3 := snd cl).
    assert (arrays st3 = <[c := readArr st c ++ [line]]> (arrays st)) as Harr3.
    { unfold st3, cl. rewrite closesGroup_arrays. unfold st2, pushArr. cbn [arrays].
      unfold st1. rewrite readArr_getLineType, getLineType_arrays. reflexivity. }
    assert (forall l, resolve editor st3 l = resolve editor st0 l) as HR3.
    { intros l. unfold st3, cl. rewrite closesGroup_resolve.
      rewrite (resolve_linesType editor st2 st1) by reflexivity.
      unfold st1. rewrite getLineType_resolve. apply HR. }
    assert (datas st3 = datas st0) as HD3.
    { unfold st3, cl. rewrite closesGroup_datas. cbn. unfold st1.
      rewrite getLineType_datas. exact HD. }
    assert (linesCombined st3 = linesCombined st0) as HC3.
    { unfold st3, cl. rewrite closesGroup_linesCombined. cbn. unfold st1.
      rewrite getLineType_linesCombined. exact HC. }
    assert (readArr st3 c = readArr st c ++ [line]) as Hc3.
    { unfold readArr at 1. rewrite Harr3, lookup_insert_eq. reflexivity. }
    assert (forall a, a <> c -> arrays st3 !! a = arrays st !! a) as Hother.
    { intros a Ha. rewrite Harr3, lookup_insert_ne by congruence. reflexivity. }
    assert (forall a, is_Some (arrays st0 !! a) -> a <> c) as Hold.
    { intros a [x Hx] ->. rewrite HF in Hx. discriminate. }
    assert (List.filter (included editor st0) (done ++ [line])
            = concat (map (members st) (g_combined g)) ++ readArr st c ++ [line]) as Hfilter.
    { rewrite filter_snoc, (combinable_included editor st0 line Hcomb), <- HP.
      rewrite <- app_assoc. reflexivity. }
    assert (Forall (fun l => combinable editor st0 l = true) (readArr st c ++ [line])) as Hall.
    { apply Forall_app. split; [exact HCo | constructor; [exact Hcomb | constructor]]. }
    destruct (fst cl) eqn:Hcl.
    + (* the group is closed *)
      set (unit := match linesMultiples st3 !! hd line (readArr st2 c) with
                   | Some last => if decide (readArr st3 last = readArr st3 c)
                                  then Some last else None
                   | None => None
                   end).
      set (collect' := match unit with Some last => last | None => c end).
      set (st4 := match unit with
                  | Some _ => st3
                  | None => set_linesMultiples st3 (hd line (readArr st2 c)) c
                  end).
      assert (arrays st4 = arrays st3) as Harr4 by (unfold st4; destruct unit; reflexivity).
      assert (linesType st4 = linesType st3) as Hlt4 by (unfold st4; destruct unit; reflexivity).
      assert (datas st4 = datas st3) as HD4 by (unfold st4; destruct unit; reflexivity).
      assert (linesCombined st4 = linesCombined st3) as HC4
        by (unfold st4; destruct unit; reflexivity).
      assert (readArr st4 collect' = readArr st c ++ [line]) as Hcoll.
      { rewrite (readArr_arrays st4 st3) by exact Harr4. unfold collect', unit.
        destruct (linesMultiples st3 !! _) as [last |]; [| exact Hc3].
        destruct (decide _) as [Heq | _]; [rewrite Heq |]; exact Hc3. }
      assert (is_Some (arrays st4 !! collect')) as Hcalloc.
      { apply readArr_nonempty_allocated. rewrite Hcoll. destruct (readArr st c); discriminate. }
      pose proof (newArr_fresh st4) as Hfresh.
      set (c' := fst (newArr st4)) in *.
      assert (arrays (snd (newArr st4)) = <[c' := []]> (arrays st4)) as Harr5 by reflexivity.
      assert (forall a, is_Some (arrays st4 !! a) -> a <> c') as Hne'.
      { intros a [x Hx] ->. rewrite Hfresh in Hx. discriminate. }
      assert (forall a, a <> c -> is_Some (arrays st !! a) ->
                arrays (snd (newArr st4)) !! a = arrays st !! a /\ a <> c') as Hframe.
      { intros a Ha Hsome.
        assert (a <> c') as Hac'.
        { apply Hne'. rewrite Harr4, Hother by exact Ha. exact Hsome. }
        split; [| exact Hac'].
        rewrite Harr5, lookup_insert_ne by congruence.
        rewrite Harr4. apply Hother. exact Ha. }
      destruct (units_frame st0 st (snd (newArr st4)) c c' (g_combined g) Hframe HU)
        as [HU' Hmem].
      assert (readArr (snd (newArr st4)) collect' = readArr st c ++ [line]) as Hcoll5.
      { rewrite <- Hcoll. unfold readArr. rewrite Harr5.
        rewrite lookup_insert_ne by (symmetry; apply Hne'; exact Hcalloc). reflexivity. }
      constructor; cbn [g_state g_collect g_combined].
      * intros l. rewrite (resolve_linesType editor _ st3) by (cbn; exact Hlt4). apply HR3.
      * destruct (arrays st0 !! c') as [x |] eqn:Hx; [| reflexivity].
        exfalso. apply (Hne' c'); [| reflexivity].
        rewrite Harr4, Hother by (apply Hold; eauto). rewrite HH by eauto. eauto.
      * rewrite Harr5, lookup_insert_eq. eauto.
      * intros a Ha. destruct (Hframe a (Hold a Ha)) as [Heq _].
        { rewrite HH by exact Ha. exact Ha. }
        rewrite Heq. apply HH. exact Ha.
      * cbn. rewrite HD4. exact HD3.
      * cbn. rewrite HC4. exact HC3.
      * apply Forall_app. split; [exact HU' |]. constructor; [| constructor].
        unfold unit_ok. rewrite Hcoll5. repeat split.
        -- apply Hne'. exact Hcalloc.
        -- destruct (readArr st c); discriminate.
        -- exact Hall.
      * rewrite concat_map_snoc, Hmem. cbn [members]. rewrite Hcoll5.
        rewrite readArr_newArr_eq, app_nil_r. rewrite Hfilter. reflexivity.
      * rewrite readArr_newArr_eq. intros H. contradiction H. reflexivity.
      * rewrite readArr_newArr_eq. constructor.
    + (* the group stays open *)
      assert (forall a, a <> c -> is_Some (arrays st !! a) ->
                arrays st3 !! a = arrays st !! a /\ a <> c) as Hframe.
      { intros a Ha _. split; [apply Hother; exact Ha | exact Ha]. }
      destruct (units_frame st0 st st3 c c (g_combined g) Hframe HU) as [HU' Hmem].
      constructor; cbn [g_state g_collect g_combined].
      * exact HR3.
      * exact HF.
      * rewrite Harr3, lookup_insert_eq. eauto.
      * intros a Ha. rewrite Hother by (apply Hold; exact Ha). apply HH. exact Ha.
      * exact HD3.
      * exact HC3.
      * exact HU'.
      * rewrite Hmem, Hc3, Hfilter. reflexivity.
      * intros _. destruct (closesGroup_open editor st2 _ sc _ (head rest) Hcl)
          as (n & Hn & Htn & _).
        exists n. split; [exact Hn |].
        unfold combinable.
        assert (resolve editor st0 n = resolve editor st line) as ->.
        { rewrite <- Htn. rewrite (resolve_linesType editor st2 st1) by reflexivity.
          unfold st1. rewrite getLineType_resolve. symmetry. apply HR. }
        rewrite Hsc. reflexivity.
      * rewrite Hc3. exact Hall.
  - (* the line is a unit of its own, or is dropped *)
    assert (combinable editor st0 line = false) as Hcomb.
    { unfold combinable. rewrite <- Hty, Hsc. reflexivity. }
    assert (readArr st c = []) as Hempty.
    { destruct (readArr st c) as [| x xs] eqn:Hc; [reflexivity |].
      destruct HO as (n & Hn & Hcn); [discriminate |].
      cbn in Hn. inversion Hn; subst n. congruence. }
    rewrite (combineStep_single editor g line (head rest) Hsc). cbv zeta. fold st c.
    set (st1 := snd (getLineType editor st line)).
    assert (arrays st1 = arrays st) as Harr1 by apply getLineType_arrays.
    assert (forall a, a <> c -> is_Some (arrays st !! a) ->
              arrays st1 !! a = arrays st !! a /\ a <> c) as Hframe.
    { intros a Ha _. rewrite Harr1. split; [reflexivity | exact Ha]. }
    destruct (units_frame st0 st st1 c c (g_combined g) Hframe HU) as [HU' Hmem].
    assert (readArr st1 c = []) as Hempty1.
    { rewrite (readArr_arrays st1 st) by exact Harr1. exact Hempty. }
    assert (included editor st0 line
            = match lt_render (lineTypeAt editor (resolve editor st line)) with
              | Some _ => true | None => false end) as Hincl.
    { unfold included. rewrite <- Hty, Hsc. reflexivity. }
    rewrite Hempty, app_nil_r in HP.
    destruct (lt_render (lineTypeAt editor (resolve editor st line))) as [r |] eqn:Hr;
      constructor; cbn [g_state g_collect g_combined];
      try (intros l; unfold st1; rewrite getLineType_resolve; apply HR);
      try exact HF;
      try (rewrite Harr1; exact HA);
      try (intros a Ha; rewrite Harr1; apply HH; exact Ha);
      try (unfold st1; rewrite getLineType_datas; exact HD);
      try (unfold st1; rewrite getLineType_linesCombined; exact HC);
      try (rewrite Hempty1; intros H; contradiction H; reflexivity);
      try (rewrite Hempty1; constructor).
    + apply Forall_app. split; [exact HU' |]. constructor; [| constructor].
      cbn. split; [exact Hcomb | exact Hincl].
    + rewrite concat_map_snoc, Hmem, Hempty1, app_nil_r. cbn [members].
      rewrite filter_snoc, Hincl, HP. reflexivity.
    + exact HU'.
    + rewrite Hmem, Hempty1, app_nil_r, filter_snoc, Hincl, app_nil_r. exact HP.
Qed.

End InvFacts.

(** The [linesType] cache only grows. *)

Section TypeCacheFacts.
Variable editor : Editor.

Lemma typeCached_mono st st' l :
  linesType st ⊆ linesType st' -> typeCached editor st l -> typeCached editor st' l.
Proof. intros Hsub [t Ht]. exists t. exact (lookup_weaken _ _ _ _ Ht Hsub). Qed.

Lemma getLineType_types_mono st l : linesType st ⊆ linesType (snd (getLineType editor st l)).
Proof.
  unfold getLineType. destruct (linesType st !! _) eqn:Hc; cbn; [reflexivity |].
  apply insert_subseteq. exact Hc.
Qed.

Lemma getLineType_types_cached st l : typeCached editor (snd (getLineType editor st l)) l.
Proof.
  unfold typeCached, getLineType. destruct (linesType st !! _) eqn:Hc; cbn.
  - rewrite Hc. eauto.
  - rewrite lookup_insert_eq. eauto.
Qed.

Lemma closesGroup_types_mono st type sc c0 next :
  linesType st ⊆ linesType (snd (closesGroup editor st type sc c0 next)).
Proof.
  unfold closesGroup. destruct next as [n |]; [| reflexivity].
  pose proof (getLineType_types_mono st n) as H.
  destruct (getLineType editor st n) as [tn st1]. cbn [snd] in H.
  destruct (negb _); exact H.
Qed.

Lemma combineStep_types g line next :
  linesType (g_state g) ⊆ linesType (g_state (combineStep editor g line next))
  /\ typeCached editor (g_state (combineStep editor g line next)) line.
Proof.
  set (st1 := snd (getLineType editor (g_state g) line)).
  assert (linesType (g_state g) ⊆ linesType st1) as H1 by apply getLineType_types_mono.
  assert (typeCached editor st1 line) as Hc1 by apply getLineType_types_cached.
  destruct (shouldCombine (lineTypeAt editor (resolve editor (g_state g) line)))
    as [sc |] eqn:Hsc.
  - rewrite (combineStep_combinable editor g line next sc Hsc). cbv zeta. fold st1.
    set (st2 := pushArr st1 (g_collect g) line).
    set (cl := closesGroup editor st2 _ sc _ next).
    assert (linesType st1 ⊆ linesType (snd cl)) as H3.
    { unfold cl. apply (closesGroup_types_mono st2). }
    assert (linesType (g_state g) ⊆ linesType (snd cl)) as H13 by (etrans; eassumption).
    destruct (fst cl).
    + set (unit := match linesMultiples (snd cl) !! _ with Some _ => _ | None => _ end).
      assert (linesType (g_state (mkGrouping
                (snd (newArr (match unit with
                              | Some _ => snd cl
                              | None => set_linesMultiples (snd cl)
                                          (hd line (readArr st2 (g_collect g))) (g_collect g)
                              end)))
                (g_combined g ++ [EArr (match unit with Some last => last | None => g_collect g end)])
                (g_byKey g) 0)) = linesType (snd cl)) as Heq.
      { cbn. destruct unit; reflexivity. }
      cbn [g_state] in *. unfold typeCached. cbn [newArr snd linesType] in *.
      destruct unit; cbn [linesType set_linesMultiples];
        (split; [exact H13 | exact (typeCached_mono st1 (snd cl) line H3 Hc1)]).
    + cbn [g_state]. split; [exact H13 | exact (typeCached_mono st1 (snd cl) line H3 Hc1)].
  - rewrite (combineStep_single editor g line next Hsc). cbv zeta. fold st1.
    destruct (lt_render _); cbn [g_state]; split; assumption.
Qed.

Lemma combineLoop_types rest :
  forall g,
    linesType (g_state g) ⊆ linesType (g_state (combineLoop editor g rest))
    /\ Forall (typeCached editor (g_state (combineLoop editor g rest))) rest.
Proof.
  induction rest as [| line rest IH]; intros g; cbn [combineLoop].
  - split; [reflexivity | constructor].
  - destruct (combineStep_types g line (head rest)) as [Hsub Hline].
    destruct (IH (combineStep editor g line (head rest))) as [Hsub' Hrest].
    split; [etrans; eassumption |].
    constructor; [| exact Hrest].
    exact (typeCached_mono _ _ line Hsub' Hline).
Qed.

End TypeCacheFacts.

Section CombineFacts.
Variable editor : Editor.

Lemma combineLoop_inv st0 rest :
  forall done g,
    GroupInv editor st0 done rest g ->
    GroupInv editor st0 (done ++ rest) [] (combineLoop editor g rest).
Proof.
  induction rest as [| line rest IH]; intros done g Inv; cbn [combineLoop].
  - rewrite app_nil_r. exact Inv.
  - replace (done ++ line :: rest) with ((done ++ [line]) ++ rest)
      by (rewrite <- app_assoc; reflexivity).
    apply IH. apply combineStep_inv. exact Inv.
Qed.

Lemma readArr_after_newArr st lines : readArr (snd (newArr st)) lines = readArr st lines.
Proof.
  destruct (decide (lines = fst (newArr st))) as [-> | Hne].
  - rewrite readArr_newArr_eq. unfold readArr. rewrite newArr_fresh. reflexivity.
  - apply readArr_newArr_ne. exact Hne.
Qed.

(** What a call of [combineLines] that misses the cache computes. *)
Lemma combineLines_miss st lines :
  linesCombined st !! lines = None ->
  exists g d st',
    combineLines editor st lines = (d, st')
    /\ GroupInv editor st (readArr st lines) [] g
    /\ arrays st' = arrays (g_state g)
    /\ linesType st' = linesType (g_state g)
    /\ linesMultiples st' = linesMultiples (g_state g)
    /\ datas st !! d = None
    /\ datas st' = <[d := mkData (g_combined g) (g_byKey g)]> (datas st)
    /\ linesCombined st' = <[lines := d]> (linesCombined st)
    /\ linesType st ⊆ linesType (g_state g)
    /\ Forall (typeCached editor (g_state g)) (readArr st lines).
Proof.
  intros Hmiss. unfold combineLines. rewrite Hmiss.
  pose proof (newArr_fresh st) as Hfresh.
  set (c := fst (newArr st)) in *. set (st1 := snd (newArr st)).
  change (newArr st) with (c, st1). cbv iota beta.
  assert (GroupInv editor st [] (readArr st1 lines) (mkGrouping st1 [] ∅ c)) as Inv0.
  { constructor; cbn [g_state g_collect g_combined].
    - intros l. apply resolve_linesType. reflexivity.
    - exact Hfresh.
    - unfold st1. cbn. fold c. rewrite lookup_insert_eq. eauto.
    - intros a [x Hx]. unfold st1. cbn. fold c. rewrite lookup_insert_ne; [reflexivity |].
      intros Heq. assert (arrays st !! a = None) as Hn by (rewrite <- Heq; exact Hfresh).
      congruence.
    - reflexivity.
    - reflexivity.
    - constructor.
    - unfold st1, c. rewrite readArr_newArr_eq. reflexivity.
    - unfold st1, c. rewrite readArr_newArr_eq. intros H. contradiction H. reflexivity.
    - unfold st1, c. rewrite readArr_newArr_eq. constructor. }
  apply combineLoop_inv in Inv0. cbn [app] in Inv0.
  destruct (combineLoop_types editor (readArr st1 lines) (mkGrouping st1 [] ∅ c))
    as [Hmono Hcached].
  set (g := combineLoop editor (mkGrouping st1 [] ∅ c) (readArr st1 lines)) in *.
  assert (readArr st1 lines = readArr st lines) as Hitems.
  { apply readArr_after_newArr. }
  rewrite Hitems in Inv0, Hcached.
  exists g. unfold newData. cbn.
  eexists _, _. split; [reflexivity |].
  split; [exact Inv0 |]. cbn.
  rewrite (gi_datas _ _ _ _ _ Inv0), (gi_cache _ _ _ _ _ Inv0).
  repeat split; try reflexivity; try assumption.
  apply not_elem_of_dom. apply is_fresh.
Qed.

Lemma readData_insert_eq st' ds d data :
  datas st' = <[d := data]> ds -> readData st' d = data.
Proof. intros H. unfold readData. rewrite H, lookup_insert_eq. reflexivity. Qed.

Lemma groupInv_done st0 done g :
  GroupInv editor st0 done [] g -> readArr (g_state g) (g_collect g) = [].
Proof.
  intros Inv. destruct (readArr (g_state g) (g_collect g)) as [| x xs] eqn:Hc; [reflexivity |].
  destruct (gi_open _ _ _ _ _ Inv) as (m & Hm & _); [rewrite Hc; discriminate | discriminate].
Qed.

End CombineFacts.

(** The member lines of the units, in order, are the lines that are kept. *)
Lemma combineLines_parts (editor : Editor) (st st' : State) (lines : ArrRef) (d : DataRef) :
  linesCombined st !! lines = None ->
  combineLines editor st lines = (d, st') ->
  concat (map (members st') (combined (readData st' d)))
  = List.filter (included editor st) (readArr st lines).
Proof.
  intros Hmiss Hcall.
  destruct (combineLines_miss editor st lines Hmiss)
    as (g & d' & st'' & Hcall' & Inv & Harr & _ & _ & _ & Hdata & _).
  rewrite Hcall in Hcall'. inversion Hcall'; subst d' st''. clear Hcall'.
  rewrite (readData_insert_eq _ _ _ _ Hdata). cbn [combined].
  pose proof (gi_parts _ _ _ _ _ Inv) as HP.
  rewrite (groupInv_done editor _ _ _ Inv), app_nil_r in HP. rewrite <- HP.
  f_equal. apply map_ext. intros [l | a]; cbn; [reflexivity |].
  apply readArr_arrays. exact Harr.
Qed.

(** ** Memoization *)

Section MemoFacts.
Variable editor : Editor.

Lemma combineLines_hit st lines d :
  linesCombined st !! lines = Some d -> combineLines editor st lines = (d, st).
Proof. intros H. unfold combineLines. rewrite H. reflexivity. Qed.

(** After a call the result is in the cache. *)
Lemma combineLines_cached st lines :
  linesCombined (snd (combineLines editor st lines)) !! lines
  = Some (fst (combineLines editor st lines)).
Proof.
  destruct (linesCombined st !! lines) as [d |] eqn:Hc.
  - rewrite (combineLines_hit st lines d Hc). exact Hc.
  - destruct (combineLines_miss editor st lines Hc)
      as (g & d & st' & Hcall & _ & _ & _ & _ & _ & _ & Hcache & _).
    rewrite Hcall. cbn. rewrite Hcache, lookup_insert_eq. reflexivity.
Qed.

(** A call never replaces an entry of the cache. *)
Lemma combineLines_cache_mono st lines other d :
  linesCombined st !! other = Some d ->
  linesCombined (snd (combineLines editor st lines)) !! other = Some d.
Proof.
  intros Hother. destruct (linesCombined st !! lines) as [d' |] eqn:Hc.
  - rewrite (combineLines_hit st lines d' Hc). exact Hother.
  - destruct (combineLines_miss editor st lines Hc)
      as (g & d' & st' & Hcall & _ & _ & _ & _ & _ & _ & Hcache & _).
    rewrite Hcall. cbn. rewrite Hcache, lookup_insert_ne; [exact Hother |].
    intros ->. congruence.
Qed.

Lemma combineMany_cache_mono ls :
  forall st other d,
    linesCombined st !! other = Some d ->
    linesCombined (combineMany editor st ls) !! other = Some d.
Proof.
  induction ls as [| l ls IH]; intros st other d H; cbn; [exact H |].
  apply IH. apply combineLines_cache_mono. exact H.
Qed.

End MemoFacts.

(** C4: the second call of [combineLines] with the same array returns the
    address of the result of the first call and leaves every cache and the
    heap as they are (nothing is computed or allocated); this also holds
    after any further calls in between. *)
Theorem combineLines_memoized (editor : Editor) (st : State) (lines : ArrRef)
    (between : list ArrRef) :
  let d := fst (combineLines editor st lines) in
  let st1 := snd (combineLines editor st lines) in
  let st2 := combineMany editor st1 between in
  combineLines editor st1 lines = (d, st1)
  /\ combineLines editor st2 lines = (d, st2).
Proof.
  cbv zeta. split.
  - apply combineLines_hit. apply combineLines_cached.
  - apply combineLines_hit. apply combineMany_cache_mono. apply combineLines_cached.
Qed.

(** C5: when [combineLines] closes a group after pushing [line], with
    [coll] the lines collected and [c0] the first of them: if the memo of
    [c0] is an array of the same length whose elements are the same lines,
    the unit pushed is that array and the memo stays; otherwise the unit
    pushed is the array just built, and it becomes the memo of [c0]. *)
Theorem combineStep_group_identity (editor : Editor) (g : Grouping) (line : LineRef)
    (next : option LineRef) (sc : AttributeMap -> AttributeMap -> bool) :
  let type := resolve editor (g_state g) line in
  let st2 := pushArr (snd (getLineType editor (g_state g) line)) (g_collect g) line in
  let coll := readArr (g_state g) (g_collect g) ++ [line] in
  let c0 := hd line coll in
  let g' := combineStep editor g line next in
  shouldCombine (lineTypeAt editor type) = Some sc ->
  fst (closesGroup editor st2 type sc c0 next) = true ->
  (forall last,
      linesMultiples (g_state g) !! c0 = Some last ->
      length (readArr st2 last) = length coll ->
      (forall i v, coll !! i = Some v -> readArr st2 last !! i = Some v) ->
      g_combined g' = g_combined g ++ [EArr last]
      /\ linesMultiples (g_state g') = linesMultiples (g_state g))
  /\ ((forall last, linesMultiples (g_state g) !! c0 = Some last ->
                    readArr st2 last <> coll) ->
      g_combined g' = g_combined g ++ [EArr (g_collect g)]
      /\ linesMultiples (g_state g') !! c0 = Some (g_collect g)).
Proof.
  intros type st2 coll c0 g' Hsc Hcl.
  unfold g'. rewrite (combineStep_combinable editor g line next sc Hsc). cbv zeta.
  fold type. fold st2.
  assert (readArr st2 (g_collect g) = coll) as Hcoll.
  { unfold st2. rewrite readArr_pushArr_eq, readArr_getLineType. reflexivity. }
  rewrite Hcoll. fold c0. rewrite Hcl.
  set (st3 := snd (closesGroup editor st2 type sc c0 next)).
  assert (linesMultiples st3 = linesMultiples (g_state g)) as Hlm.
  { unfold st3. rewrite closesGroup_linesMultiples. cbn.
    apply getLineType_linesMultiples. }
  assert (forall a, readArr st3 a = readArr st2 a) as Hrd.
  { intros a. apply readArr_arrays. unfold st3. apply closesGroup_arrays. }
  rewrite Hlm. split.
  - intros last Hlast Hlen Hsame. rewrite Hlast, !Hrd, Hcoll.
    assert (readArr st2 last = coll) as Heq.
    { apply same_length_every_same. rewrite Hlen, Nat.eqb_refl. cbn.
      apply every_same_spec. exact Hsame. }
    rewrite decide_True by exact Heq. cbn. split; [reflexivity | exact Hlm].
  - intros Hno.
    assert (match linesMultiples (g_state g) !! c0 with
            | Some last => if decide (readArr st3 last = readArr st3 (g_collect g))
                           then Some last else None
            | None => None
            end = None) as ->.
    { destruct (linesMultiples (g_state g) !! c0) as [last |] eqn:Hl; [| reflexivity].
      rewrite !Hrd, Hcoll. rewrite decide_False by (apply Hno; reflexivity). reflexivity. }
    cbn. split; [reflexivity |]. rewrite lookup_insert_eq. reflexivity.
Qed.

(** ** Rendering of units *)

Section RenderFacts.
Variable editor : Editor.

Lemma renderSingleLine_eq st line :
  renderSingleLine editor st line
  = (match lt_render (lineTypeAt editor (resolve editor st line)) with
     | None => Throw "No render method defined for line"
     | Some r =>
         Ok (set_key (applyDecorations editor
                        (r (attrsOf editor line)
                           (renderInline editor (content (lineAt editor line))))
                        (attrsOf editor line))
               (id (lineAt editor line)))
     end, snd (getLineType editor st line)).
Proof.
  unfold renderSingleLine, resolve.
  destruct (getLineType editor st line) as [ty s1]. cbn [fst snd].
  destruct (lt_render (lineTypeAt editor ty)); reflexivity.
Qed.

Lemma renderMultiLine_eq st a :
  renderMultiLine editor st a
  = match readArr st a with
    | [] => (Throw "TypeError: Cannot read properties of undefined", st)
    | line0 :: _ =>
        (match renderMultiple (lineTypeAt editor (resolve editor st line0)) with
         | None => Throw "No render method defined for line"
         | Some r =>
             Ok (set_key
                   (r (map (fun line => (attrsOf editor line,
                                         renderInline editor (content (lineAt editor line)),
                                         id (lineAt editor line)))
                           (readArr st a)))
                   (id (lineAt editor line0)))
         end, snd (getLineType editor st line0))
    end.
Proof.
  unfold renderMultiLine, resolve. destruct (readArr st a) as [| line0 rest] eqn:Ha;
    [reflexivity |].
  pose proof (readArr_getLineType editor st line0 a) as Hrd.
  destruct (getLineType editor st line0) as [ty s1]. cbn [fst snd] in *.
  rewrite Hrd, Ha.
  destruct (renderMultiple (lineTypeAt editor ty)); reflexivity.
Qed.

(** Rendering a unit only fills the [linesType] cache. *)
Lemma renderLine_state st e :
  let st' := snd (renderLine editor st e) in
  arrays st' = arrays st /\ datas st' = datas st
  /\ linesMultiples st' = linesMultiples st /\ linesCombined st' = linesCombined st
  /\ forall l, resolve editor st' l = resolve editor st l.
Proof.
  destruct e as [l | a]; cbn [renderLine].
  - rewrite renderSingleLine_eq. cbn [snd].
    repeat split; [apply getLineType_arrays | apply getLineType_datas
                   | apply getLineType_linesMultiples | apply getLineType_linesCombined
                   | intros; apply getLineType_resolve].
  - rewrite renderMultiLine_eq. destruct (readArr st a) as [| line0 rest]; cbn [snd].
    + repeat split; reflexivity.
    + repeat split; [apply getLineType_arrays | apply getLineType_datas
                     | apply getLineType_linesMultiples | apply getLineType_linesCombined
                     | intros; apply getLineType_resolve].
Qed.

Lemma lacksRenderer_state st st' e :
  arrays st' = arrays st -> (forall l, resolve editor st' l = resolve editor st l) ->
  lacksRenderer editor st e -> lacksRenderer editor st' e.
Proof.
  intros Harr Hres. destruct e as [l | a]; cbn.
  - rewrite Hres. auto.
  - intros (line0 & Hh & Hr). exists line0.
    rewrite (readArr_arrays st' st) by exact Harr. rewrite Hres. auto.
Qed.

Lemma renderLine_lacks st e :
  lacksRenderer editor st e ->
  fst (renderLine editor st e) = Throw "No render method defined for line".
Proof.
  destruct e as [l | a]; cbn [renderLine lacksRenderer].
  - intros H. rewrite renderSingleLine_eq, H. reflexivity.
  - intros (line0 & Hh & Hr). rewrite renderMultiLine_eq.
    destruct (readArr st a) as [| x rest]; [discriminate |].
    cbn in Hh. inversion Hh; subst x. rewrite Hr. reflexivity.
Qed.

Lemma renderCombined_lacks units :
  forall st e,
    e ∈ units -> lacksRenderer editor st e ->
    exists msg, fst (renderCombined editor st units) = Throw msg.
Proof.
  induction units as [| u units IH]; intros st e Hin Hlacks; [inversion Hin |].
  cbn [renderCombined].
  destruct (renderLine_state st u) as (Harr & _ & _ & _ & Hres).
  destruct (renderLine editor st u) as [[node | msg] st1] eqn:Hu; cbn [snd] in *.
  - apply elem_of_cons in Hin as [-> | Hin].
    + pose proof (renderLine_lacks st u Hlacks) as Ht. rewrite Hu in Ht. discriminate.
    + destruct (IH st1 e Hin (lacksRenderer_state st st1 e Harr Hres Hlacks)) as [msg Hmsg].
      destruct (renderCombined editor st1 units) as [[nodes | msg'] st2]; cbn in *;
        [discriminate | eauto].
  - eauto.
Qed.

End RenderFacts.

(** C6: [renderSingleLine] throws when the type of the line has no
    [render] function, [renderMultiLine] throws when the type of the first
    line has no [renderMultiple] function, and [renderCombined] throws as
    soon as one of its units is such: no unit is skipped. *)
Theorem missing_render_function_throws (editor : Editor) :
  (forall st line,
      lt_render (lineTypeAt editor (resolve editor st line)) = None ->
      fst (renderSingleLine editor st line) = Throw "No render method defined for line")
  /\ (forall st a line0 rest,
         readArr st a = line0 :: rest ->
         renderMultiple (lineTypeAt editor (resolve editor st line0)) = None ->
         fst (renderMultiLine editor st a) = Throw "No render method defined for line")
  /\ (forall st units e,
         e ∈ units -> lacksRenderer editor st e ->
         exists msg, fst (renderCombined editor st units) = Throw msg).
Proof.
  split; [| split].
  - intros st line H. rewrite renderSingleLine_eq, H. reflexivity.
  - intros st a line0 rest Ha H. rewrite renderMultiLine_eq, Ha, H. reflexivity.
  - intros st units e. apply renderCombined_lacks.
Qed.

(** C10: when [combineLines] groups an array of lines (not grouped
    before), every line of a combinable type lies in an array unit; a
    single-line unit is never of a combinable type; an array unit is not
    empty and holds combinable lines only; a lone combinable line yields
    one array unit of one line; and an array unit is rendered by
    [renderMultiLine], whose node comes from [renderMultiple]: for an
    array that is not empty the outcome is decided by [renderMultiple] of
    the type of the first line alone, which gives the node when the type
    has it and else the throw, whatever the [render] function of the
    type; so it is for every array unit of the grouping. *)
Theorem combinable_lines_form_array_units (editor : Editor) (st st' : State)
    (lines : ArrRef) (d : DataRef) :
  linesCombined st !! lines = None ->
  combineLines editor st lines = (d, st') ->
  let units := combined (readData st' d) in
  (forall l, l ∈ readArr st lines -> combinable editor st l = true ->
             exists a, EArr a ∈ units /\ l ∈ readArr st' a)
  /\ (forall l, ELine l ∈ units -> combinable editor st l = false)
  /\ (forall a, EArr a ∈ units ->
                readArr st' a <> []
                /\ Forall (fun l => combinable editor st l = true) (readArr st' a))
  /\ (forall l, readArr st lines = [l] -> combinable editor st l = true ->
                exists a, units = [EArr a] /\ readArr st' a = [l])
  /\ (forall s a, renderLine editor s (EArr a) = renderMultiLine editor s a)
  /\ (forall s a node,
         fst (renderLine editor s (EArr a)) = Ok node ->
         exists line0 rm,
           head (readArr s a) = Some line0
           /\ renderMultiple (lineTypeAt editor (resolve editor s line0)) = Some rm
           /\ node = set_key
                       (rm (map (fun line =>
                                   (attrsOf editor line,
                                    renderInline editor (content (lineAt editor line)),
                                    id (lineAt editor line)))
                                (readArr s a)))
                       (id (lineAt editor line0)))
  /\ (forall s a line0,
         head (readArr s a) = Some line0 ->
         fst (renderLine editor s (EArr a))
         = match renderMultiple (lineTypeAt editor (resolve editor s line0)) with
           | Some rm =>
               Ok (set_key
                     (rm (map (fun line =>
                                 (attrsOf editor line,
                                  renderInline editor (content (lineAt editor line)),
                                  id (lineAt editor line)))
                              (readArr s a)))
                     (id (lineAt editor line0)))
           | None => Throw "No render method defined for line"
           end)
  /\ (forall a, EArr a ∈ units ->
         exists line0,
           head (readArr st' a) = Some line0
           /\ combinable editor st line0 = true
           /\ fst (renderLine editor st' (EArr a))
              = match renderMultiple (lineTypeAt editor (resolve editor st' line0)) with
                | Some rm =>
                    Ok (set_key
                          (rm (map (fun line =>
                                      (attrsOf editor line,
                                       renderInline editor (content (lineAt editor line)),
                                       id (lineAt editor line)))
                                   (readArr st' a)))
                          (id (lineAt editor line0)))
                | None => Throw "No render method defined for line"
                end).
Proof.
  intros Hmiss Hcall units.
  assert (forall s a line0,
            head (readArr s a) = Some line0 ->
            fst (renderLine editor s (EArr a))
            = match renderMultiple (lineTypeAt editor (resolve editor s line0)) with
              | Some rm =>
                  Ok (set_key
                        (rm (map (fun line =>
                                    (attrsOf editor line,
                                     renderInline editor (content (lineAt editor line)),
                                     id (lineAt editor line)))
                                 (readArr s a)))
                        (id (lineAt editor line0)))
              | None => Throw "No render method defined for line"
              end) as Hmultiple.
  { intros s a line0 Hh. cbn [renderLine]. rewrite renderMultiLine_eq.
    destruct (readArr s a) as [| x rest] eqn:Ha; [discriminate Hh |].
    cbn [head] in Hh. inversion Hh; subst x. cbn [fst].
    destruct (renderMultiple (lineTypeAt editor (resolve editor s line0))); reflexivity. }
  pose proof (combineLines_parts editor st st' lines d Hmiss Hcall) as Hparts.
  fold units in Hparts.
  destruct (combineLines_miss editor st lines Hmiss)
    as (g & d' & st'' & Hcall' & Inv & Harr & _ & _ & _ & Hdata & _).
  rewrite Hcall in Hcall'. inversion Hcall'; subst d' st''. clear Hcall'.
  assert (units = g_combined g) as Hunits.
  { unfold units. rewrite (readData_insert_eq _ _ _ _ Hdata). reflexivity. }
  assert (forall a, readArr st' a = readArr (g_state g) a) as Hrd.
  { intros a. apply readArr_arrays. exact Harr. }
  pose proof (gi_units _ _ _ _ _ Inv) as HU. rewrite <- Hunits in HU.
  rewrite Forall_forall in HU.
  assert (forall l, ELine l ∈ units -> combinable editor st l = false) as Hsingle.
  { intros l Hl. destruct (HU _ Hl) as [Hc _]. exact Hc. }
  assert (forall a, EArr a ∈ units ->
            readArr st' a <> []
            /\ Forall (fun l => combinable editor st l = true) (readArr st' a)) as Harrs.
  { intros a Ha. destruct (HU _ Ha) as (_ & Hne & Hall). rewrite Hrd. split; assumption. }
  split; [| split; [exact Hsingle | split; [exact Harrs | split; [| split; [| split;
    [| split; [exact Hmultiple |]]]]]]].
  - intros l Hl Hc.
    assert (l ∈ concat (map (members st') units)) as Hin.
    { rewrite Hparts. apply list_elem_of_In, List.filter_In. split.
      - apply list_elem_of_In. exact Hl.
      - apply combinable_included. exact Hc. }
    apply list_elem_of_In, List.in_concat in Hin as (ms & Hms & Hlms).
    apply List.in_map_iff in Hms as (e & <- & He).
    apply list_elem_of_In in He. apply list_elem_of_In in Hlms.
    destruct e as [l' | a].
    + cbn in Hlms. apply list_elem_of_singleton in Hlms. subst l'.
      rewrite (Hsingle l He) in Hc. discriminate.
    + exists a. split; assumption.
  - intros l Hone Hc. rewrite Hone in Hparts. cbn in Hparts.
    rewrite (combinable_included editor st l Hc) in Hparts.
    destruct units as [| e us] eqn:Hus; [discriminate |].
    assert (forall e', e' ∈ e :: us -> members st' e' <> []) as Hne.
    { intros [l' | a] He'; cbn; [discriminate |]. apply Harrs. exact He'. }
    cbn [map concat] in Hparts.
    assert (members st' e = [l] /\ us = []) as [Hme Hnil].
    { pose proof (Hne e ltac:(left)) as He.
      destruct (members st' e) as [| x xs] eqn:Hm; [contradiction He; reflexivity |].
      cbn in Hparts. injection Hparts as Hx Hrest. subst x.
      apply app_eq_nil in Hrest as [Hxs Hrest]. subst xs. split; [reflexivity |].
      destruct us as [| e2 us2]; [reflexivity |]. exfalso.
      pose proof (Hne e2 ltac:(right; left)) as He2. cbn in Hrest.
      apply app_eq_nil in Hrest as [Hrest _]. contradiction. }
    subst us. destruct e as [l' | a].
    + cbn in Hme. inversion Hme; subst l'.
      rewrite (Hsingle l ltac:(left)) in Hc. discriminate.
    + exists a. split; [reflexivity | exact Hme].
  - reflexivity.
  - intros s a node. cbn [renderLine]. rewrite renderMultiLine_eq.
    destruct (readArr s a) as [| line0 rest] eqn:Ha; [discriminate |]. cbn [fst].
    destruct (renderMultiple (lineTypeAt editor (resolve editor s line0))) as [rm |] eqn:Hrm;
      [| discriminate].
    intros Hok. inversion Hok. exists line0, rm.
    split; [reflexivity | split; [exact Hrm | reflexivity]].
  - intros a Ha. destruct (Harrs a Ha) as [Hne Hall].
    pose proof (Hmultiple st' a) as HM.
    destruct (readArr st' a) as [| line0 rest] eqn:Hrda; [contradiction Hne; reflexivity |].
    exists line0. split; [reflexivity |]. split.
    + inversion Hall; assumption.
    + exact (HM line0 eq_refl).
Qed.

(** ** The windows of the range diff *)

Lemma find_seq_Some (f : nat -> bool) (m : nat) :
  forall k i,
    find f (seq k m) = Some i ->
    k <= i < k + m /\ f i = true /\ forall j, k <= j < i -> f j = false.
Proof.
  induction m as [| m IH]; intros k i H; cbn in H; [discriminate |].
  destruct (f k) eqn:Hk.
  - inversion H; subst i. repeat split; [lia | lia | exact Hk | intros j Hj; lia].
  - destruct (IH (S k) i H) as (Hr & Hi & Hbefore).
    repeat split; [lia | lia | exact Hi |].
    intros j Hj. destruct (decide (j = k)) as [-> | Hne]; [exact Hk |].
    apply Hbefore. lia.
Qed.

Lemma find_seq_None (f : nat -> bool) (m k : nat) :
  find f (seq k m) = None -> forall j, k <= j < k + m -> f j = false.
Proof.
  intros H j Hj. apply (proj1 (find_none_iff f (seq k m)) H). apply elem_of_seq. lia.
Qed.

Lemma isSame_view st o n :
  isSame st o n = true <-> unitView st o = unitView st n.
Proof.
  rewrite isSame_spec. destruct o as [a | a], n as [b | b]; cbn; split;
    intros H; try contradiction; try discriminate; try congruence.
Qed.

Lemma sameAt_view st oldC newC i j :
  i < length oldC -> j < length newC ->
  sameAt st oldC newC i j = true
  <-> map (unitView st) oldC !! i = map (unitView st) newC !! j.
Proof.
  intros Hi Hj. unfold sameAt. rewrite !list_lookup_fmap.
  destruct (lookup_lt_is_Some_2 oldC i Hi) as [o Ho].
  destruct (lookup_lt_is_Some_2 newC j Hj) as [n Hn].
  rewrite Ho, Hn. cbn. rewrite isSame_view. split; [congruence | intros H; inversion H; auto].
Qed.

Lemma firstn_eq_lookup {A} (l1 l2 : list A) (s : nat) :
  s <= length l1 -> s <= length l2 ->
  (forall i, i < s -> l1 !! i = l2 !! i) -> firstn s l1 = firstn s l2.
Proof.
  intros H1 H2 H. apply list_eq. intros i.
  destruct (decide (i < s)) as [Hlt | Hge].
  - rewrite !lookup_take_lt by exact Hlt. apply H. exact Hlt.
  - rewrite !lookup_ge_None_2; [reflexivity | |]; rewrite length_take; lia.
Qed.

Lemma skipn_eq_lookup {A} (l1 l2 : list A) (t : nat) :
  t <= length l1 -> t <= length l2 ->
  (forall j, j < t -> l1 !! (length l1 - j - 1) = l2 !! (length l2 - j - 1)) ->
  skipn (length l1 - t) l1 = skipn (length l2 - t) l2.
Proof.
  intros H1 H2 H. apply list_eq. intros i. rewrite !lookup_drop.
  destruct (decide (i < t)) as [Hlt | Hge].
  - specialize (H (t - i - 1) ltac:(lia)).
    replace (length l1 - t + i) with (length l1 - (t - i - 1) - 1) by lia.
    replace (length l2 - t + i) with (length l2 - (t - i - 1) - 1) by lia.
    exact H.
  - rewrite !lookup_ge_None_2; [reflexivity | lia | lia].
Qed.

(** What [getChangedRanges] returns, on the views of the units: the units
    before the common start agree, and either both ends are 0 or the units
    from the ends on agree, [t] units from the back. *)
Lemma getChangedRanges_cases st oldC newC :
  let Vo := map (unitView st) oldC in
  let Vn := map (unitView st) newC in
  exists s oe ne : nat,
    getChangedRanges st oldC newC
    = ((Z.of_nat s, Z.of_nat oe), (Z.of_nat s, Z.of_nat ne))
    /\ s <= Nat.min (length oldC) (length newC)
    /\ firstn s Vo = firstn s Vn
    /\ ((oe = 0 /\ ne = 0)
        \/ exists t, t < Nat.min (length oldC) (length newC)
                     /\ oe = length oldC - t /\ ne = length newC - t
                     /\ skipn oe Vo = skipn ne Vn).
Proof.
  intros Vo Vn. unfold getChangedRanges.
  set (ol := length oldC). set (nl := length newC). set (m := Nat.min ol nl).
  set (front := find (fun i => negb (sameAt st oldC newC i i)) (seq 0 m)).
  set (back := find (fun i => negb (sameAt st oldC newC (ol - i - 1) (nl - i - 1)))
                 (seq 0 m)).
  assert (length Vo = ol) as HVo by apply length_map.
  assert (length Vn = nl) as HVn by apply length_map.
  assert (exists s, match front with Some i => i | None => 0 end = s
                    /\ s <= m /\ firstn s Vo = firstn s Vn) as (s & Hs & Hsm & Hpre).
  { destruct front as [i |] eqn:Hf.
    - apply find_seq_Some in Hf as (Hr & _ & Hbefore).
      exists i. split; [reflexivity |]. split; [lia |].
      apply firstn_eq_lookup; [lia | lia |].
      intros j Hj. specialize (Hbefore j ltac:(lia)). apply negb_false_iff in Hbefore.
      apply sameAt_view in Hbefore; [exact Hbefore | fold ol; lia | fold nl; lia].
    - exists 0. split; [reflexivity |]. split; [lia | reflexivity]. }
  rewrite Hs.
  destruct back as [t |] eqn:Hb.
  - apply find_seq_Some in Hb as (Hr & _ & Hbefore).
    exists s, (ol - t), (nl - t). split; [reflexivity |].
    split; [exact Hsm |]. split; [exact Hpre |]. right.
    exists t. split; [lia |]. split; [reflexivity |]. split; [reflexivity |].
    rewrite <- HVo at 1. rewrite <- HVn at 1.
    apply skipn_eq_lookup; [lia | lia |].
    intros j Hj. specialize (Hbefore j ltac:(lia)). apply negb_false_iff in Hbefore.
    rewrite HVo, HVn.
    apply sameAt_view in Hbefore; [exact Hbefore | fold ol; lia | fold nl; lia].
  - exists s, 0, 0. split; [reflexivity |].
    split; [exact Hsm |]. split; [exact Hpre |]. left. split; reflexivity.
Qed.

Lemma js_slice_nat {A} (l : list A) (a b : nat) :
  a <= length l -> b <= length l ->
  js_slice l (Z.of_nat a) (Z.of_nat b) = firstn (b - a) (skipn a l).
Proof.
  intros Ha Hb. unfold js_slice.
  destruct (Z.ltb_spec (Z.of_nat a) 0) as [Hneg | _]; [lia |].
  destruct (Z.ltb_spec (Z.of_nat b) 0) as [Hneg | _]; [lia |].
  rewrite !Z.min_l by lia. rewrite Nat2Z.id. f_equal. lia.
Qed.

Lemma skipn_seq (a n : nat) : skipn a (seq 0 n) = seq a (n - a).
Proof.
  revert n. induction a as [| a IH]; intros n; [rewrite Nat.sub_0_r; reflexivity |].
  destruct n as [| n]; [reflexivity |].
  cbn [seq skipn]. rewrite <- seq_shift, skipn_map, IH, seq_shift. reflexivity.
Qed.

Lemma firstn_seq (k a n : nat) : k <= n -> firstn k (seq a n) = seq a k.
Proof.
  revert a n. induction k as [| k IH]; intros a n Hk; [reflexivity |].
  destruct n as [| n]; [lia |]. cbn. f_equal. apply IH. lia.
Qed.

Lemma slice_seq (a b n : nat) :
  a <= n -> b <= n -> firstn (b - a) (skipn a (seq 0 n)) = seq a (b - a).
Proof. intros Ha Hb. rewrite skipn_seq. apply firstn_seq. lia. Qed.

(** Units of one snapshot are pairwise different: a matching prefix and a
    matching suffix of two unit sequences of different lengths cannot
    overlap. *)
Lemma prefix_suffix_disjoint {A} (Vo Vn : list A) (s t : nat) :
  NoDup Vo -> NoDup Vn ->
  length Vo <> length Vn ->
  s <= Nat.min (length Vo) (length Vn) ->
  t < Nat.min (length Vo) (length Vn) ->
  firstn s Vo = firstn s Vn ->
  skipn (length Vo - t) Vo = skipn (length Vn - t) Vn ->
  s + t <= Nat.min (length Vo) (length Vn).
Proof.
  intros Hdo Hdn Hlen Hs Ht Hpre Hsuf.
  destruct (decide (s + t <= Nat.min (length Vo) (length Vn))) as [| Hover]; [assumption |].
  exfalso.
  assert (forall i, i < s -> Vo !! i = Vn !! i) as Hp.
  { intros i Hi. rewrite <- (lookup_take_lt Vo s i Hi), <- (lookup_take_lt Vn s i Hi), Hpre.
    reflexivity. }
  assert (Vo !! (length Vo - t) = Vn !! (length Vn - t)) as Hq.
  { rewrite <- (Nat.add_0_r (length Vo - t)), <- (Nat.add_0_r (length Vn - t)).
    rewrite <- !lookup_drop, Hsuf. reflexivity. }
  destruct (decide (length Vo < length Vn)) as [Hlt | Hge].
  - destruct (lookup_lt_is_Some_2 Vo (length Vo - t)) as [x Hx]; [lia |].
    assert (Vn !! (length Vo - t) = Some x) as H1 by (rewrite <- Hp by lia; exact Hx).
    assert (Vn !! (length Vn - t) = Some x) as H2 by (rewrite <- Hq; exact Hx).
    pose proof (proj1 (NoDup_alt Vn) Hdn _ _ _ H1 H2). lia.
  - destruct (lookup_lt_is_Some_2 Vn (length Vn - t)) as [x Hx]; [lia |].
    assert (Vo !! (length Vn - t) = Some x) as H1 by (rewrite Hp by lia; exact Hx).
    assert (Vo !! (length Vo - t) = Some x) as H2 by (rewrite Hq; exact Hx).
    pose proof (proj1 (NoDup_alt Vo) Hdo _ _ _ H1 H2). lia.
Qed.

Lemma firstn_le_eq {A} (l1 l2 : list A) (a s : nat) :
  a <= s -> firstn s l1 = firstn s l2 -> firstn a l1 = firstn a l2.
Proof.
  intros Has H. rewrite <- (Nat.min_l a s) by exact Has.
  rewrite <- !take_take, H. reflexivity.
Qed.

(** The two slices that [renderChanges] takes, when the on-screen tree has
    one child for each old unit and the units of either snapshot are
    pairwise different: both are empty, or the old slice is a non-empty
    run of children [[a, b)], the new slice is the run of units [[a, c)],
    and the snapshots agree before [a] and from [b] and [c] on. *)
Lemma renderChanges_slices st oldC newC :
  let Vo := map (unitView st) oldC in
  let Vn := map (unitView st) newC in
  let ol := length oldC in
  let nl := length newC in
  let ranges :=
    expandRanges (Z.of_nat ol) (Z.of_nat ol) (Z.of_nat nl)
      (getChangedRanges st oldC newC) in
  let oldSlice := js_slice (seq 0 ol) (fst (fst ranges)) (snd (fst ranges)) in
  let newSlice := js_slice newC (fst (snd ranges)) (snd (snd ranges)) in
  NoDup Vo -> NoDup Vn ->
  (oldSlice = [] /\ newSlice = [])
  \/ exists a b c,
      a < b /\ b <= ol /\ a <= c /\ c <= nl
      /\ oldSlice = seq a (b - a)
      /\ newSlice = firstn (c - a) (skipn a newC)
      /\ firstn a Vo = firstn a Vn
      /\ skipn b Vo = skipn c Vn.
Proof.
  intros Vo Vn ol nl ranges oldSlice newSlice Hdo Hdn.
  destruct (getChangedRanges_cases st oldC newC)
    as (s & oe & ne & Hcr & Hsm & Hpre & Hends).
  fold Vo Vn ol nl in Hsm, Hpre, Hends.
  assert (length Vo = ol) as HVo by apply length_map.
  assert (length Vn = nl) as HVn by apply length_map.
  unfold oldSlice, newSlice, ranges. rewrite Hcr. unfold expandRanges.
  destruct (decide (oe = ne)) as [Heq | Hne].
  - (* the windows are equal *)
    subst ne. rewrite bool_decide_eq_true_2 by reflexivity. cbn [negb fst snd].
    destruct Hends as [[-> _] | (t & Ht & Hoe & Hne & Hsuf)].
    + left. unfold js_slice. split.
      * replace (Z.to_nat _) with 0; [reflexivity |].
        destruct (Z.ltb_spec (Z.of_nat s) 0); destruct (Z.ltb_spec (Z.of_nat 0) 0); lia.
      * replace (Z.to_nat _) with 0; [reflexivity |].
        destruct (Z.ltb_spec (Z.of_nat s) 0); destruct (Z.ltb_spec (Z.of_nat 0) 0); lia.
    + rewrite !js_slice_nat by (rewrite ?length_seq; lia).
      destruct (decide (s < oe)) as [Hlt | Hge].
      * right. exists s, oe, oe. repeat split; try lia.
        -- apply slice_seq; lia.
        -- exact Hpre.
        -- exact Hsuf.
      * left. replace (oe - s) with 0 by lia. split; reflexivity.
  - (* the windows differ: they are widened *)
    rewrite bool_decide_eq_false_2 by (intros H; inversion H; lia).
    rewrite (bool_decide_eq_true_2 (Z.of_nat ol = Z.of_nat ol)) by reflexivity.
    cbn [negb fst snd].
    destruct Hends as [[-> ->] | (t & Ht & Hoe & Hne' & Hsuf)]; [contradiction Hne; reflexivity |].
    assert (ol <> nl) as Hlen by lia.
    assert (s + t <= Nat.min ol nl) as Hdisj.
    { rewrite <- HVo, <- HVn.
      apply prefix_suffix_disjoint; rewrite ?HVo, ?HVn; try assumption; try lia.
      rewrite <- Hoe, <- Hne'. exact Hsuf. }
    replace (Z.max 0 (Z.of_nat s - 1)) with (Z.of_nat (s - 1)) by lia.
    replace (Z.min (Z.of_nat ol) (Z.of_nat oe + 1)) with (Z.of_nat (Nat.min ol (oe + 1))) by lia.
    replace (Z.min (Z.of_nat nl) (Z.of_nat ne + 1)) with (Z.of_nat (Nat.min nl (ne + 1))) by lia.
    rewrite !js_slice_nat by (rewrite ?length_seq; lia).
    right. exists (s - 1), (Nat.min ol (oe + 1)), (Nat.min nl (ne + 1)).
    repeat split; try lia.
    + apply slice_seq; lia.
    + apply (firstn_le_eq Vo Vn (s - 1) s); [lia | exact Hpre].
    + destruct t as [| t'].
      * rewrite !Nat.min_l by lia.
        rewrite !drop_ge by lia. reflexivity.
      * replace (Nat.min ol (oe + 1)) with (oe + 1) by lia.
        replace (Nat.min nl (ne + 1)) with (ne + 1) by lia.
        rewrite <- !drop_drop, Hsuf. reflexivity.
Qed.

(** ** Rendering a list of units *)

Section RenderAllFacts.
Variable editor : Editor.

(** The node of a unit depends on the state through the member lines of
    the unit and the types they resolve to only. *)
Lemma renderLine_fst_view st st' o n :
  unitView st o = unitView st' n ->
  (forall l, resolve editor st l = resolve editor st' l) ->
  fst (renderLine editor st o) = fst (renderLine editor st' n).
Proof.
  intros Hview Hres. destruct o as [l | a], n as [l' | b]; cbn in Hview;
    try discriminate; cbn [renderLine].
  - inversion Hview; subst l'. rewrite !renderSingleLine_eq. cbn [fst].
    rewrite Hres. reflexivity.
  - inversion Hview as [Hrd]. rewrite !renderMultiLine_eq, Hrd.
    destruct (readArr st' b) as [| line0 rest]; [reflexivity |]. cbn [fst].
    rewrite Hres. reflexivity.
Qed.

Lemma renderAll_view os :
  forall st st' ns,
    map (unitView st) os = map (unitView st') ns ->
    (forall l, resolve editor st l = resolve editor st' l) ->
    renderAll editor st os = renderAll editor st' ns.
Proof.
  induction os as [| o os IH]; intros st st' ns Hviews Hres;
    destruct ns as [| n ns]; try discriminate; [reflexivity |].
  cbn in Hviews. inversion Hviews as [[Hv Hvs]]. cbn [renderAll].
  rewrite (renderLine_fst_view st st' o n Hv Hres), (IH st st' ns Hvs Hres). reflexivity.
Qed.

Lemma unitView_arrays st st' e :
  arrays st = arrays st' -> unitView st e = unitView st' e.
Proof. intros H. destruct e; cbn; [reflexivity |]. rewrite (readArr_arrays st st' a H). reflexivity. Qed.

(** [renderCombined] yields the nodes of its units. *)
Lemma renderCombined_fst us :
  forall st, fst (renderCombined editor st us) = renderAll editor st us.
Proof.
  induction us as [| u us IH]; intros st; [reflexivity |].
  cbn [renderCombined renderAll].
  destruct (renderLine_state editor st u) as (Harr & _ & _ & _ & Hres).
  destruct (renderLine editor st u) as [[node | msg] st1]; cbn [fst snd] in *; [| reflexivity].
  specialize (IH st1).
  assert (renderAll editor st1 us = renderAll editor st us) as Heq.
  { apply renderAll_view; [| exact Hres].
    apply map_ext. intros e. apply unitView_arrays. exact Harr. }
  rewrite <- Heq, <- IH.
  destruct (renderCombined editor st1 us) as [[nodes | msg] st2]; reflexivity.
Qed.

Lemma renderAll_app st us1 us2 :
  renderAll editor st (us1 ++ us2)
  = match renderAll editor st us1 with
    | Throw msg => Throw msg
    | Ok nodes1 =>
        match renderAll editor st us2 with
        | Throw msg => Throw msg
        | Ok nodes2 => Ok (nodes1 ++ nodes2)
        end
    end.
Proof.
  induction us1 as [| u us1 IH]; cbn [app renderAll].
  - destruct (renderAll editor st us2); reflexivity.
  - destruct (fst (renderLine editor st u)) as [node | msg]; [| reflexivity].
    rewrite IH. destruct (renderAll editor st us1) as [nodes1 | msg]; [| reflexivity].
    destruct (renderAll editor st us2); reflexivity.
Qed.

Lemma renderAll_length st us nodes :
  renderAll editor st us = Ok nodes -> length nodes = length us.
Proof.
  revert nodes. induction us as [| u us IH]; intros nodes H; cbn in H.
  - inversion H. reflexivity.
  - destruct (fst (renderLine editor st u)) as [node | msg]; [| discriminate].
    destruct (renderAll editor st us) as [nodes' | msg]; [| discriminate].
    inversion H. cbn. rewrite (IH nodes' eq_refl). reflexivity.
Qed.

(** The nodes of a part of the units are that part of the nodes. *)
Lemma renderAll_firstn st us nodes k :
  renderAll editor st us = Ok nodes ->
  renderAll editor st (firstn k us) = Ok (firstn k nodes).
Proof.
  revert nodes k. induction us as [| u us IH]; intros nodes k H; cbn in H.
  - inversion H. destruct k; reflexivity.
  - destruct (fst (renderLine editor st u)) as [node | msg] eqn:Hu; [| discriminate].
    destruct (renderAll editor st us) as [nodes' | msg]; [| discriminate].
    inversion H. destruct k as [| k]; [reflexivity |].
    cbn [firstn renderAll]. rewrite Hu, (IH nodes' k eq_refl). reflexivity.
Qed.

Lemma renderAll_skipn st us nodes k :
  renderAll editor st us = Ok nodes ->
  renderAll editor st (skipn k us) = Ok (skipn k nodes).
Proof.
  revert nodes k. induction us as [| u us IH]; intros nodes k H; cbn in H.
  - inversion H. destruct k; reflexivity.
  - destruct (fst (renderLine editor st u)) as [node | msg] eqn:Hu; [| discriminate].
    destruct (renderAll editor st us) as [nodes' | msg] eqn:Hus; [| discriminate].
    inversion H. destruct k as [| k]; cbn [skipn renderAll].
    + rewrite Hu, Hus. reflexivity.
    + apply IH. reflexivity.
Qed.

Lemma getLineType_cached st l :
  typeCached editor st l -> snd (getLineType editor st l) = st.
Proof. intros [t Ht]. unfold getLineType. rewrite Ht. reflexivity. Qed.

Lemma renderLine_cached st e :
  Forall (typeCached editor st) (members st e) -> snd (renderLine editor st e) = st.
Proof.
  intros Hc. destruct e as [l | a]; cbn [renderLine members] in *.
  - rewrite renderSingleLine_eq. cbn [snd]. apply getLineType_cached.
    inversion Hc; assumption.
  - rewrite renderMultiLine_eq. destruct (readArr st a) as [| line0 rest]; [reflexivity |].
    cbn [snd]. apply getLineType_cached. inversion Hc; assumption.
Qed.

(** With the types of all member lines cached, rendering leaves the state
    as it is. *)
Lemma renderCombined_cached st us :
  Forall (fun e => Forall (typeCached editor st) (members st e)) us ->
  renderCombined editor st us = (renderAll editor st us, st).
Proof.
  intros Hc. induction Hc as [| u us Hu Hus IH]; [reflexivity |].
  cbn [renderCombined renderAll].
  pose proof (renderLine_cached st u Hu) as Hst.
  destruct (renderLine editor st u) as [[node | msg] st1]; cbn [fst snd] in *; subst st1;
    [| reflexivity].
  rewrite IH. destruct (renderAll editor st us); reflexivity.
Qed.

End RenderAllFacts.

(** ** Soundness of the caches *)

Section CacheFacts.
Variable editor : Editor.

(** What a call of [combineLines] keeps and adds. *)
Lemma combineLines_effect st lines :
  let st' := snd (combineLines editor st lines) in
  (forall a, is_Some (arrays st !! a) -> arrays st' !! a = arrays st !! a)
  /\ datas st ⊆ datas st'
  /\ linesType st ⊆ linesType st'
  /\ linesCombined st ⊆ linesCombined st'
  /\ (forall l, resolve editor st' l = resolve editor st l).
Proof.
  cbv zeta. destruct (linesCombined st !! lines) as [d |] eqn:Hc.
  - rewrite (combineLines_hit editor st lines d Hc). cbn [snd].
    repeat split; try reflexivity.
  - destruct (combineLines_miss editor st lines Hc)
      as (g & d & st' & Hcall & Inv & Harr & Hlt & _ & Hfresh & Hdata & Hcache & Hmono & _).
    rewrite Hcall. cbn [snd].
    split; [| split; [| split; [| split]]].
    + intros a Ha. rewrite Harr. apply (gi_heap _ _ _ _ _ Inv). exact Ha.
    + rewrite Hdata. apply insert_subseteq. exact Hfresh.
    + rewrite Hlt. exact Hmono.
    + rewrite Hcache. apply insert_subseteq. exact Hc.
    + intros l. rewrite (resolve_linesType editor st' (g_state g)) by exact Hlt.
      apply (gi_resolve _ _ _ _ _ Inv).
Qed.

Lemma members_allocated st st' e :
  (forall a, is_Some (arrays st !! a) -> arrays st' !! a = arrays st !! a) ->
  members st e <> [] -> members st' e = members st e.
Proof.
  intros Hheap Hne. destruct e as [l | a]; cbn in *; [reflexivity |].
  unfold readArr. rewrite (Hheap a (readArr_nonempty_allocated st a Hne)). reflexivity.
Qed.

Lemma included_resolve st st' l :
  resolve editor st' l = resolve editor st l -> included editor st' l = included editor st l.
Proof. intros H. unfold included. rewrite H. reflexivity. Qed.

(** A sound entry stays sound when the state grows. *)
Lemma entry_ok_mono st st' lines d :
  (forall a, is_Some (arrays st !! a) -> arrays st' !! a = arrays st !! a) ->
  datas st ⊆ datas st' ->
  linesType st ⊆ linesType st' ->
  (forall l, resolve editor st' l = resolve editor st l) ->
  entry_ok editor st lines d -> entry_ok editor st' lines d.
Proof.
  intros Hheap Hdatas Htypes Hres (Halloc & data & Hd & Hparts & Hne & Hcached).
  assert (readArr st' lines = readArr st lines) as Hrd.
  { unfold readArr. rewrite (Hheap lines Halloc). reflexivity. }
  assert (map (members st') (combined data) = map (members st) (combined data)) as Hmem.
  { apply Forall_fmap_ext_1. eapply Forall_impl; [exact Hne |].
    intros e He. apply members_allocated; assumption. }
  split; [rewrite (Hheap lines Halloc); exact Halloc |].
  exists data. split; [exact (lookup_weaken _ _ _ _ Hd Hdatas) |].
  split; [| split].
  - rewrite Hmem, Hrd, Hparts. apply List.filter_ext. intros l.
    symmetry. apply included_resolve, Hres.
  - rewrite Forall_forall in Hne |- *. intros e He.
    rewrite (members_allocated st st' e Hheap (Hne e He)). exact (Hne e He).
  - rewrite Hrd. eapply Forall_impl; [exact Hcached |].
    intros l. apply typeCached_mono. exact Htypes.
Qed.

(** [combineLines] on an array that exists keeps the caches sound. *)
Lemma caches_ok_combineLines st lines :
  caches_ok editor st ->
  is_Some (arrays st !! lines) ->
  caches_ok editor (snd (combineLines editor st lines)).
Proof.
  intros Hok Halloc.
  destruct (combineLines_effect st lines) as (Hheap & Hdatas & Htypes & _ & Hres).
  destruct (linesCombined st !! lines) as [d |] eqn:Hc.
  - rewrite (combineLines_hit editor st lines d Hc). exact Hok.
  - destruct (combineLines_miss editor st lines Hc)
      as (g & d & st' & Hcall & Inv & Harr & Hlt & _ & Hfresh & Hdata & Hcache & _ & Hcached).
    pose proof (combineLines_parts editor st st' lines d Hc Hcall) as Hparts.
    rewrite Hcall in *. cbn [snd] in *.
    intros L d0 HL. rewrite Hcache in HL.
    destruct (decide (L = lines)) as [-> | Hne].
    + rewrite lookup_insert_eq in HL. inversion HL; subst d0.
      assert (readArr st' lines = readArr st lines) as Hrd.
      { unfold readArr. rewrite (Hheap lines Halloc). reflexivity. }
      split; [rewrite (Hheap lines Halloc); exact Halloc |].
      exists (mkData (g_combined g) (g_byKey g)).
      split; [rewrite Hdata, lookup_insert_eq; reflexivity |].
      rewrite (readData_insert_eq _ _ _ _ Hdata) in Hparts. cbn [combined] in *.
      split; [| split].
      * rewrite Hparts, Hrd. apply List.filter_ext. intros l.
        symmetry. apply included_resolve, Hres.
      * pose proof (gi_units _ _ _ _ _ Inv) as HU.
        eapply Forall_impl; [exact HU |].
        intros [l | a]; cbn; [discriminate |].
        intros (_ & Hne & _). rewrite (readArr_arrays st' (g_state g)) by exact Harr.
        exact Hne.
      * rewrite Hrd. eapply Forall_impl; [exact Hcached |].
        intros l [t Ht]. exists t. rewrite Hlt. exact Ht.
    + rewrite lookup_insert_ne in HL by congruence.
      apply (entry_ok_mono st st' L d0 Hheap Hdatas Htypes Hres). apply Hok. exact HL.
Qed.

(** With nothing cached, the caches are sound. *)
Lemma caches_ok_empty (st : State) : linesCombined st = ∅ -> caches_ok editor st.
Proof. intros H L d HL. rewrite H, lookup_empty in HL. discriminate. Qed.

(** Rendering units keeps the caches sound. *)
Lemma caches_ok_renderCombined us :
  forall st, caches_ok editor st -> caches_ok editor (snd (renderCombined editor st us)).
Proof.
  induction us as [| u us IH]; intros st Hok; [exact Hok |].
  cbn [renderCombined].
  destruct (renderLine_state editor st u) as (Harr & Hd & _ & Hlc & Hres).
  assert (linesType st ⊆ linesType (snd (renderLine editor st u))) as Htypes.
  { destruct u as [l | a]; cbn [renderLine].
    - rewrite renderSingleLine_eq. apply getLineType_types_mono.
    - rewrite renderMultiLine_eq. destruct (readArr st a); [reflexivity |].
      apply getLineType_types_mono. }
  assert (caches_ok editor (snd (renderLine editor st u))) as Hok1.
  { intros L d HL. rewrite Hlc in HL.
    apply (entry_ok_mono st _ L d); try assumption.
    - intros a _. rewrite Harr. reflexivity.
    - rewrite Hd. reflexivity.
    - apply Hok. exact HL. }
  destruct (renderLine editor st u) as [[node | msg] st1]; cbn [snd] in *; [| exact Hok1].
  specialize (IH st1 Hok1).
  destruct (renderCombined editor st1 us) as [[nodes | msg] st2]; exact IH.
Qed.

Lemma NoDup_concat_parts {A B} (f : A -> list B) (us : list A) :
  NoDup (concat (map f us)) -> Forall (fun e => f e <> []) us -> NoDup (map f us).
Proof.
  induction us as [| e us IH]; intros Hnd Hne; cbn in *; [constructor |].
  apply NoDup_app in Hnd as (Hnde & Hdisj & Hrest).
  inversion Hne as [| ? ? He Hus]; subst.
  constructor; [| apply IH; assumption].
  intros Hin. apply list_elem_of_fmap in Hin as (e' & Heq & He').
  destruct (f e) as [| x xs] eqn:Hfe; [contradiction He; reflexivity |].
  apply (Hdisj x); [left |].
  apply list_elem_of_In, List.in_concat. exists (f e'). split.
  - apply List.in_map, list_elem_of_In. exact He'.
  - rewrite <- Heq. left. reflexivity.
Qed.

(** The units of a sound entry for an array of distinct lines are
    pairwise different, and the types of their member lines are cached. *)
Lemma entry_ok_units st lines d :
  entry_ok editor st lines d ->
  NoDup (readArr st lines) ->
  NoDup (map (unitView st) (combined (readData st d)))
  /\ Forall (fun e => Forall (typeCached editor st) (members st e)) (combined (readData st d)).
Proof.
  intros (Halloc & data & Hd & Hparts & Hne & Hcached) Hnd.
  assert (readData st d = data) as -> by (unfold readData; rewrite Hd; reflexivity).
  split.
  - assert (NoDup (map (members st) (combined data))) as Hm.
    { apply NoDup_concat_parts; [| exact Hne]. rewrite Hparts.
      apply NoDup_ListNoDup, List.NoDup_filter, NoDup_ListNoDup. exact Hnd. }
    apply (NoDup_fmap_1 snd). rewrite <- list_fmap_compose.
    erewrite list_fmap_ext; [exact Hm |]. intros i [l | a] _; reflexivity.
  - rewrite Forall_forall. intros e He. rewrite Forall_forall. intros l Hl.
    rewrite Forall_forall in Hcached. apply Hcached.
    assert (l ∈ concat (map (members st) (combined data))) as Hin.
    { apply list_elem_of_In, List.in_concat. exists (members st e). split.
      - apply List.in_map, list_elem_of_In. exact He.
      - apply list_elem_of_In. exact Hl. }
    rewrite Hparts in Hin. apply list_elem_of_In, List.filter_In in Hin as [Hin _].
    apply list_elem_of_In. exact Hin.
Qed.

End CacheFacts.

(** ** Incremental and full render *)

Lemma list_three_parts {A} (l : list A) (a c : nat) :
  a <= c -> l = firstn a l ++ firstn (c - a) (skipn a l) ++ skipn c l.
Proof.
  intros Hac. rewrite <- (take_drop a l) at 1. f_equal.
  rewrite <- (take_drop (c - a) (drop a l)) at 1. f_equal.
  rewrite drop_drop. f_equal. lia.
Qed.

Lemma patch_slice (editor : Editor) (root vnodes : list VNode) (a b : nat) :
  replaces_in_place editor ->
  a < b ->
  patch editor root vnodes (Some (seq a (b - a))) = firstn a root ++ vnodes ++ skipn b root.
Proof.
  intros Hp Hab. destruct (b - a) as [| k] eqn:Hk; [lia |].
  cbn [patch]. rewrite Hp. do 3 f_equal. lia.
Qed.

Lemma splice_patch_in_place (editor : Editor) :
  vdom_patch editor = splice_patch -> replaces_in_place editor.
Proof.
  intros Hp root vnodes a n. rewrite Hp. cbn [seq splice_patch].
  rewrite length_seq. reflexivity.
Qed.

Section ReconcileFacts.
Variable editor : Editor.

Lemma render_unfold st v d dNew sA res sB :
  combineLines editor st (doc_lines d) = (dNew, sA) ->
  renderCombined editor sA (combined (readData sA dNew)) = (res, sB) ->
  render editor st v d
  = match res with
    | Throw msg => (Throw msg, (sB, dispatchEvent "rendering" v))
    | Ok vnodes =>
        let v1 := mkView (doc v) vnodes (nodeRanges v) (events v ++ ["rendering"]) in
        (Ok tt, (fst (setLineNodesRanges editor sB v1),
                 dispatchEvent "rendered"
                   (dispatchEvent "render" (snd (setLineNodesRanges editor sB v1)))))
    end.
Proof.
  intros Hc Hr. unfold render, renderDoc. rewrite Hc, Hr.
  destruct res as [vnodes | msg]; [| reflexivity].
  cbn [dispatchEvent doc childNodes nodeRanges events patch].
  destruct (setLineNodesRanges editor sB _) as [s2 v2]. reflexivity.
Qed.

Lemma unitView_members st st' e :
  members st' e = members st e -> unitView st' e = unitView st e.
Proof. destruct e; cbn; [reflexivity | intros ->; reflexivity]. Qed.

Lemma renderChanges_unfold st v oldDoc newDoc dOld dNew sA :
  combineLines editor st (doc_lines oldDoc) = (dOld, st) ->
  combineLines editor st (doc_lines newDoc) = (dNew, sA) ->
  renderChanges editor st v oldDoc newDoc
  = let oldC := combined (readData st dOld) in
    let newC := combined (readData sA dNew) in
    let ranges :=
      expandRanges (Z.of_nat (length (childNodes v))) (Z.of_nat (length oldC))
        (Z.of_nat (length newC)) (getChangedRanges sA oldC newC) in
    let oldSlice :=
      js_slice (seq 0 (length (childNodes v))) (fst (fst ranges)) (snd (fst ranges)) in
    let newSlice := js_slice newC (fst (snd ranges)) (snd (snd ranges)) in
    if (length oldSlice =? 0) && (length newSlice =? 0) then render editor sA v newDoc
    else
      match renderCombined editor sA newSlice with
      | (Throw msg, sB) => (Throw msg, (sB, dispatchEvent "rendering" v))
      | (Ok vnodes, sB) =>
          let v1 := mkView (doc v) (patch editor (childNodes v) vnodes (Some oldSlice))
                      (nodeRanges v) (events v ++ ["rendering"]) in
          (Ok tt, (fst (setLineNodesRanges editor sB v1),
                   dispatchEvent "rendered"
                     (dispatchEvent "render" (snd (setLineNodesRanges editor sB v1)))))
      end.
Proof.
  intros Ho Hn. unfold renderChanges. rewrite Ho, Hn. cbv zeta.
  destruct (expandRanges _ _ _ _) as [oldRange newRange]. cbn [fst snd].
  destruct ((length _ =? 0) && (length _ =? 0)); [reflexivity |].
  destruct (renderCombined editor sA _) as [[vnodes | msg] sB]; [| reflexivity].
  cbn [dispatchEvent doc childNodes nodeRanges events].
  destruct (setLineNodesRanges editor sB _) as [s2 v2]. reflexivity.
Qed.

(** The reconciler keeps the caches sound. *)
Lemma caches_ok_setLineNodesRanges st v :
  caches_ok editor st ->
  is_Some (arrays st !! doc_lines (doc v)) ->
  caches_ok editor (fst (setLineNodesRanges editor st v)).
Proof.
  intros Hok Halloc. unfold setLineNodesRanges.
  pose proof (caches_ok_combineLines editor st _ Hok Halloc) as H.
  destruct (combineLines editor st (doc_lines (doc v))) as [d s1]. exact H.
Qed.

Lemma renderCombined_arrays us :
  forall st, arrays (snd (renderCombined editor st us)) = arrays st.
Proof.
  induction us as [| u us IH]; intros st; [reflexivity |]. cbn [renderCombined].
  destruct (renderLine_state editor st u) as (Harr & _).
  destruct (renderLine editor st u) as [[node | msg] st1]; cbn [snd] in *; [| exact Harr].
  specialize (IH st1).
  destruct (renderCombined editor st1 us) as [[nodes | msg] st2]; cbn [snd] in *; congruence.
Qed.

Lemma caches_ok_render st v d :
  caches_ok editor st ->
  is_Some (arrays st !! doc_lines d) ->
  is_Some (arrays st !! doc_lines (doc v)) ->
  caches_ok editor (fst (snd (render editor st v d))).
Proof.
  intros Hok Hd Hv.
  destruct (combineLines editor st (doc_lines d)) as [dNew sA] eqn:Hcall.
  destruct (renderCombined editor sA (combined (readData sA dNew))) as [res sB] eqn:Hr.
  rewrite (render_unfold st v d dNew sA res sB Hcall Hr).
  pose proof (caches_ok_combineLines editor st _ Hok Hd) as HokA.
  rewrite Hcall in HokA. cbn [snd] in HokA.
  pose proof (caches_ok_renderCombined editor (combined (readData sA dNew)) sA HokA) as HokB.
  rewrite Hr in HokB. cbn [snd] in HokB.
  destruct res as [vnodes | msg]; cbn [fst snd]; [| exact HokB].
  apply caches_ok_setLineNodesRanges; [exact HokB |]. cbn [doc].
  pose proof (renderCombined_arrays (combined (readData sA dNew)) sA) as HarrB.
  rewrite Hr in HarrB. cbn [snd] in HarrB. rewrite HarrB.
  destruct (combineLines_effect editor st (doc_lines d)) as (Hheap & _).
  rewrite Hcall in Hheap. cbn [snd] in Hheap. rewrite (Hheap _ Hv). exact Hv.
Qed.

(** Rendering units only fills the [linesType] cache. *)
Lemma renderCombined_effect us :
  forall st,
    let st' := snd (renderCombined editor st us) in
    arrays st' = arrays st /\ datas st' = datas st
    /\ linesCombined st' = linesCombined st
    /\ forall l, resolve editor st' l = resolve editor st l.
Proof.
  induction us as [| u us IH]; intros st; cbn [renderCombined].
  - repeat split; reflexivity.
  - destruct (renderLine_state editor st u) as (Harr & Hd & _ & Hlc & Hres).
    destruct (renderLine editor st u) as [[node | msg] st1]; cbn [snd] in *.
    + destruct (IH st1) as (Harr' & Hd' & Hlc' & Hres').
      destruct (renderCombined editor st1 us) as [[nodes | msg] st2]; cbn [snd] in *;
        (repeat split; [congruence | congruence | congruence |]);
        intros l; rewrite Hres'; apply Hres.
    + repeat split; assumption.
Qed.

(** After a full render that succeeds, the snapshot is in the cache and
    the on-screen tree is the render of its units: the starting point of
    an incremental render. *)
Lemma render_screen st v d :
  caches_ok editor st ->
  is_Some (arrays st !! doc_lines d) ->
  is_Some (arrays st !! doc_lines (doc v)) ->
  fst (render editor st v d) = Ok tt ->
  let st' := fst (snd (render editor st v d)) in
  let v' := snd (snd (render editor st v d)) in
  exists dd,
    linesCombined st' !! doc_lines d = Some dd
    /\ fst (renderCombined editor st' (combined (readData st' dd))) = Ok (childNodes v').
Proof.
  intros Hok Hd Hv.
  destruct (combineLines editor st (doc_lines d)) as [dd sA] eqn:Hcall.
  destruct (renderCombined editor sA (combined (readData sA dd))) as [res sB] eqn:Hr.
  rewrite (render_unfold st v d dd sA res sB Hcall Hr).
  destruct res as [vnodes | msg]; cbn [fst snd]; [intros _ | discriminate].
  pose proof (caches_ok_combineLines editor st _ Hok Hd) as HokA.
  rewrite Hcall in HokA. cbn [snd] in HokA.
  pose proof (combineLines_cached editor st (doc_lines d)) as HcA.
  rewrite Hcall in HcA. cbn [fst snd] in HcA.
  destruct (combineLines_effect editor st (doc_lines d)) as (HheapA & _).
  rewrite Hcall in HheapA. cbn [snd] in HheapA.
  destruct (renderCombined_effect (combined (readData sA dd)) sA)
    as (HarrB & HdB & HlcB & HresB).
  rewrite Hr in HarrB, HdB, HlcB, HresB. cbn [snd] in HarrB, HdB, HlcB, HresB.
  set (v1 := mkView (doc v) vnodes (nodeRanges v) (events v ++ ["rendering"])).
  unfold setLineNodesRanges.
  destruct (combineLines_effect editor sB (doc_lines (doc v1)))
    as (HheapC & HdC & _ & HlcC & HresC).
  destruct (combineLines editor sB (doc_lines (doc v1))) as [dv sC]. cbn [fst snd] in *.
  exists dd. split.
  - refine (lookup_weaken (linesCombined sB) _ _ _ _ HlcC).
    rewrite HlcB. exact HcA.
  - destruct (HokA _ _ HcA) as (_ & data & Hdata & _ & Hne & _).
    assert (readData sA dd = data) as HrA by (unfold readData; rewrite Hdata; reflexivity).
    assert (readData sC dd = data) as HrC.
    { assert (datas sB !! dd = Some data) as HB by (rewrite HdB; exact Hdata).
      unfold readData. rewrite (lookup_weaken _ _ _ _ HB HdC). reflexivity. }
    rewrite HrC, renderCombined_fst.
    assert (renderAll editor sC (combined data) = renderAll editor sA (combined data)) as ->.
    { apply renderAll_view.
      - apply Forall_fmap_ext_1. eapply Forall_impl; [exact Hne |].
        intros e He. apply unitView_members. apply members_allocated; [| exact He].
        intros a Ha. rewrite HheapC by (rewrite HarrB; exact Ha). rewrite HarrB. reflexivity.
      - intros l. rewrite HresC. apply HresB. }
    rewrite <- renderCombined_fst, <- HrA, Hr. reflexivity.
Qed.

(** The incremental render keeps the caches sound. *)
Lemma caches_ok_renderChanges st v oldDoc newDoc :
  caches_ok editor st ->
  is_Some (arrays st !! doc_lines oldDoc) ->
  is_Some (arrays st !! doc_lines newDoc) ->
  is_Some (arrays st !! doc_lines (doc v)) ->
  caches_ok editor (fst (snd (renderChanges editor st v oldDoc newDoc))).
Proof.
  intros Hok Ho Hn Hv. unfold renderChanges.
  pose proof (caches_ok_combineLines editor st _ Hok Ho) as Hok1.
  destruct (combineLines_effect editor st (doc_lines oldDoc)) as (Hheap1 & _).
  destruct (combineLines editor st (doc_lines oldDoc)) as [dOld s1]. cbn [snd] in *.
  assert (forall a, is_Some (arrays st !! a) -> is_Some (arrays s1 !! a)) as Hal1.
  { intros a Ha. rewrite (Hheap1 a Ha). exact Ha. }
  pose proof (caches_ok_combineLines editor s1 _ Hok1 (Hal1 _ Hn)) as Hok2.
  destruct (combineLines_effect editor s1 (doc_lines newDoc)) as (Hheap2 & _).
  destruct (combineLines editor s1 (doc_lines newDoc)) as [dNew s2]. cbn [snd] in *.
  assert (forall a, is_Some (arrays st !! a) -> is_Some (arrays s2 !! a)) as Hal2.
  { intros a Ha. rewrite (Hheap2 a (Hal1 a Ha)). exact (Hal1 a Ha). }
  destruct (expandRanges _ _ _ _) as [oldRange newRange].
  destruct ((length _ =? 0) && (length _ =? 0)).
  - apply caches_ok_render; auto.
  - set (newSlice := js_slice _ _ _).
    pose proof (caches_ok_renderCombined editor newSlice s2 Hok2) as Hok3.
    pose proof (renderCombined_arrays newSlice s2) as Harr3.
    destruct (renderCombined editor s2 newSlice) as [[vnodes | msg] s3]; cbn [snd] in *;
      [| exact Hok3].
    pose proof (caches_ok_setLineNodesRanges s3
                  (mkView (doc (dispatchEvent "rendering" v))
                     (patch editor (childNodes (dispatchEvent "rendering" v)) vnodes
                        (Some (js_slice (seq 0 (length (childNodes v)))
                                 (fst oldRange) (snd oldRange))))
                     (nodeRanges (dispatchEvent "rendering" v))
                     (events (dispatchEvent "rendering" v))) Hok3) as Hok4.
    cbn [doc dispatchEvent] in Hok4.
    specialize (Hok4 ltac:(rewrite Harr3; apply Hal2; exact Hv)).
    destruct (setLineNodesRanges editor s3 _) as [s4 v4]. exact Hok4.
Qed.

End ReconcileFacts.

(** When the primitive replaces a slice where it is: let the caches be
    sound, let the lines of either snapshot be pairwise distinct, and let
    the on-screen tree be the full render of the old snapshot (as
    [render] leaves it, see [render_screen]). Then [renderChanges] and
    [render] of the new snapshot, the latter starting from an empty tree,
    end alike: both succeed or both throw the same error, they leave the
    same state, and on success the same position-range index and the same
    on-screen tree (indeed the same view). *)
Lemma renderChanges_in_place (editor : Editor) (st : State) (v : View)
    (oldDoc newDoc : TextDocument) (dOld : DataRef) :
  replaces_in_place editor ->
  caches_ok editor st ->
  is_Some (arrays st !! doc_lines newDoc) ->
  NoDup (readArr st (doc_lines oldDoc)) ->
  NoDup (readArr st (doc_lines newDoc)) ->
  linesCombined st !! doc_lines oldDoc = Some dOld ->
  fst (renderCombined editor st (combined (readData st dOld))) = Ok (childNodes v) ->
  let incr := renderChanges editor st v oldDoc newDoc in
  let full := render editor st (mkView (doc v) [] (nodeRanges v) (events v)) newDoc in
  fst incr = fst full
  /\ fst (snd incr) = fst (snd full)
  /\ (fst full = Ok tt ->
      nodeRanges (snd (snd incr)) = nodeRanges (snd (snd full))
      /\ childNodes (snd (snd incr)) = childNodes (snd (snd full))
      /\ snd (snd incr) = snd (snd full)).
Proof.
  intros Hplace Hok Hnew_alloc Hnd_old Hnd_new Hold Hscreen incr full.
  assert (fst incr = fst full /\ fst (snd incr) = fst (snd full)
          /\ (fst full = Ok tt -> snd (snd incr) = snd (snd full))) as Hgoal;
    [| destruct Hgoal as (H1 & H2 & H3); split; [exact H1 | split; [exact H2 |]];
       intros Hfull; rewrite (H3 Hfull); repeat split].
  unfold incr, full. clear incr full.
  set (Lo := doc_lines oldDoc) in *. set (Ln := doc_lines newDoc) in *.
  set (v0 := mkView (doc v) [] (nodeRanges v) (events v)).
  destruct (combineLines editor st Ln) as [dNew sA] eqn:Hcall.
  pose proof (combineLines_effect editor st Ln) as Heff.
  rewrite Hcall in Heff. cbn [snd] in Heff.
  destruct Heff as (Hheap & Hdatas & Htypes & Hlc & Hres).
  pose proof (caches_ok_combineLines editor st Ln Hok Hnew_alloc) as HokA.
  rewrite Hcall in HokA. cbn [snd] in HokA.
  pose proof (combineLines_cached editor st Ln) as HnewA.
  rewrite Hcall in HnewA. cbn [fst snd] in HnewA.
  pose proof (lookup_weaken _ _ _ _ Hold Hlc) as HoldA.
  pose proof (Hok _ _ Hold) as HentO.
  pose proof (HokA _ _ HoldA) as HentOA.
  pose proof (HokA _ _ HnewA) as HentNA.
  (* the old units are the same object in both states *)
  assert (readData sA dOld = readData st dOld) as HdataO.
  { destruct HentO as (_ & data & Hd & _). unfold readData.
    rewrite Hd, (lookup_weaken _ _ _ _ Hd Hdatas). reflexivity. }
  set (oldC := combined (readData st dOld)) in *.
  set (newC := combined (readData sA dNew)) in *.
  assert (readArr sA Lo = readArr st Lo) as HrdO.
  { unfold readArr. rewrite (Hheap Lo (proj1 HentO)). reflexivity. }
  assert (readArr sA Ln = readArr st Ln) as HrdN.
  { unfold readArr. rewrite (Hheap Ln Hnew_alloc). reflexivity. }
  destruct (entry_ok_units editor sA Lo dOld HentOA) as [HndVo HcachedO];
    [rewrite HrdO; exact Hnd_old |].
  destruct (entry_ok_units editor sA Ln dNew HentNA) as [HndVn HcachedN];
    [rewrite HrdN; exact Hnd_new |].
  rewrite HdataO in HndVo, HcachedO. fold oldC in HndVo, HcachedO. fold newC in HndVn, HcachedN.
  (* the on-screen tree is the render of the old units, also in the new state *)
  assert (renderAll editor sA oldC = Ok (childNodes v)) as Hroot.
  { rewrite <- Hscreen, renderCombined_fst. fold oldC.
    apply renderAll_view; [| exact Hres].
    destruct HentO as (_ & data & Hd & _ & Hne & _).
    assert (readData st dOld = data) as Hdata by (unfold readData; rewrite Hd; reflexivity).
    unfold oldC. rewrite Hdata.
    apply Forall_fmap_ext_1. eapply Forall_impl; [exact Hne |].
    intros e He. apply unitView_members. apply members_allocated; assumption. }
  pose proof (renderAll_length editor sA oldC _ Hroot) as Hlen.
  (* rendering in the new state changes nothing *)
  assert (forall us, Forall (fun e => Forall (typeCached editor sA) (members sA e)) us ->
                     renderCombined editor sA us = (renderAll editor sA us, sA)) as Hrender
    by (intros us; apply renderCombined_cached).
  (* the full render *)
  rewrite (render_unfold editor st v0 newDoc dNew sA _ sA Hcall (Hrender newC HcachedN)).
  (* the incremental render *)
  rewrite (renderChanges_unfold editor st v oldDoc newDoc dOld dNew sA
             (combineLines_hit editor st Lo dOld Hold) Hcall).
  cbv zeta. fold oldC newC. rewrite Hlen.
  destruct (renderChanges_slices sA oldC newC HndVo HndVn)
    as [[HoE HnE] | (a & b & c & Hab & Hb & Hac & Hc & HoS & HnS & Hpre & Hsuf)].
  - (* both slices are empty: the code falls back to the full render *)
    rewrite HoE, HnE. cbn [length Nat.eqb andb].
    rewrite (render_unfold editor sA v newDoc dNew sA _ sA
               (combineLines_hit editor sA Ln dNew HnewA) (Hrender newC HcachedN)).
    destruct (renderAll editor sA newC) as [vnodes | msg]; cbn [fst snd];
      [| split; [reflexivity | split; [reflexivity | intros H; discriminate H]]].
    repeat split; reflexivity.
  - (* a slice of the tree is patched *)
    rewrite HoS, HnS, length_seq.
    replace (b - a =? 0) with false by (symmetry; apply Nat.eqb_neq; lia).
    cbn [andb].
    set (newSlice := firstn (c - a) (skipn a newC)).
    assert (Forall (fun e => Forall (typeCached editor sA) (members sA e)) newSlice) as HcS.
    { unfold newSlice. apply Forall_take, Forall_drop. exact HcachedN. }
    rewrite (Hrender newSlice HcS).
    assert (renderAll editor sA (firstn a newC) = Ok (firstn a (childNodes v))) as Hp.
    { rewrite <- (renderAll_firstn editor sA oldC _ a Hroot).
      apply renderAll_view; [| intros; reflexivity].
      rewrite <- !firstn_map. symmetry. exact Hpre. }
    assert (renderAll editor sA (skipn c newC) = Ok (skipn b (childNodes v))) as Hs.
    { rewrite <- (renderAll_skipn editor sA oldC _ b Hroot).
      apply renderAll_view; [| intros; reflexivity].
      rewrite <- !skipn_map. symmetry. exact Hsuf. }
    assert (renderAll editor sA newC
            = match renderAll editor sA newSlice with
              | Ok mid => Ok (firstn a (childNodes v) ++ mid ++ skipn b (childNodes v))
              | Throw msg => Throw msg
              end) as Hall.
    { rewrite (list_three_parts newC a c Hac) at 1. fold newSlice.
      rewrite !renderAll_app, Hp, Hs.
      destruct (renderAll editor sA newSlice); reflexivity. }
    rewrite Hall.
    destruct (renderAll editor sA newSlice) as [vnodes | msg]; cbn [fst snd];
      [| split; [reflexivity | split; [reflexivity | intros H; discriminate H]]].
    rewrite (patch_slice editor _ _ a b Hplace Hab).
    repeat split; reflexivity.
Qed.


(** The two ways, at primitives that take them: one that replaces the
    slice where it is, and one that goes by the keys and puts what it
    cannot anchor at the end. *)
Lemma renderChanges_unanchored_examples :
  let a := ex_par "a" "A" in
  let b := ex_par "b" "B" in
  let d := ex_par "d" "D" in
  let f := ex_par "f" "F" in
  splice_patch [a; b; f] [b; d] [0; 1] = [b; d; f]
  /\ keyed_patch [a; b; f] [b; d] [0; 1] = [b; f; d]
  /\ childNodes (snd (snd (renderChanges (ex_pars keyed_patch)
                             (fst (ex_pars_rendered keyed_patch))
                             (snd (ex_pars_rendered keyed_patch))
                             ex_pars_old ex_pars_new))) = [b; f; d].
Proof. cbv zeta. repeat split; vm_compute; reflexivity. Qed.

Lemma renderChanges_in_place_example :
  nodeRanges (snd (snd (renderChanges ex_editor ex_rendered ex_view ex_doc_old ex_doc_new)))
  = nodeRanges (snd (snd (render ex_editor ex_rendered
                            (mkView (doc ex_view) [] (nodeRanges ex_view) (events ex_view))
                            ex_doc_new))).
Proof.
  refine (proj1 (proj2 (proj2
            (renderChanges_in_place ex_editor ex_rendered ex_view
               ex_doc_old ex_doc_new 0 _ _ _ _ _ _ _)) _)).
  - apply splice_patch_in_place. reflexivity.
  - apply caches_ok_render.
    + apply caches_ok_empty. reflexivity.
    + exists [0; 1; 2]. reflexivity.
    + exists [0; 1; 2; 3]. reflexivity.
  - exists [0; 1; 2; 3]. vm_compute. reflexivity.
  - apply NoDup_ListNoDup. vm_compute.
    repeat (constructor; [cbn; intuition discriminate |]). constructor.
  - apply NoDup_ListNoDup. vm_compute.
    repeat (constructor; [cbn; intuition discriminate |]). constructor.
  - vm_compute. reflexivity.
  - vm_compute. reflexivity.
  - vm_compute. reflexivity.
Defined.

(** ** The grouping is a partition *)

(** C3: the member lines of the units that [combineLines] returns,
    concatenated in order, are the lines of the array in their order, less
    the lines whose type neither combines nor has a render function; so
    every line that is kept lies in one unit, and distinct lines stay
    distinct. This holds when the array is grouped for the first time, and
    for a result taken from the cache when the caches are sound. *)
Theorem combineLines_partition (editor : Editor) (st st' : State) (lines : ArrRef)
    (d : DataRef) :
  linesCombined st !! lines = None \/ caches_ok editor st ->
  combineLines editor st lines = (d, st') ->
  concat (map (members st') (combined (readData st' d)))
  = List.filter (included editor st) (readArr st lines)
  /\ (NoDup (readArr st lines) ->
      NoDup (concat (map (members st') (combined (readData st' d))))).
Proof.
  intros Hcase Hcall.
  assert (concat (map (members st') (combined (readData st' d)))
          = List.filter (included editor st) (readArr st lines)) as Heq.
  { destruct (linesCombined st !! lines) as [d0 |] eqn:Hc.
    - destruct Hcase as [Hmiss | Hok]; [discriminate |].
      rewrite (combineLines_hit editor st lines d0 Hc) in Hcall.
      inversion Hcall; subst d0 st'.
      destruct (Hok lines d Hc) as (_ & data & Hd & Hparts & _).
      unfold readData. rewrite Hd. exact Hparts.
    - exact (combineLines_parts editor st st' lines d Hc Hcall). }
  split; [exact Heq |].
  intros Hnd. rewrite Heq. apply NoDup_ListNoDup, List.NoDup_filter, NoDup_ListNoDup.
  exact Hnd.
Qed.

(** ** The theorems at the example typeset *)

Lemma combineLines_partition_witness :
  concat (map (members (snd (combineLines ex_editor ex_state 0)))
            (combined (readData (snd (combineLines ex_editor ex_state 0))
                         (fst (combineLines ex_editor ex_state 0)))))
  = [0; 1; 2].
Proof.
  apply (eq_trans
           (proj1 (combineLines_partition ex_editor ex_state
                     (snd (combineLines ex_editor ex_state 0)) 0
                     (fst (combineLines ex_editor ex_state 0))
                     (or_introl eq_refl) (surjective_pairing _)))).
  reflexivity.
Defined.

Lemma combineStep_group_identity_witness :
  g_combined (combineStep ex_editor ex_grouping 0 (Some 2)) = [EArr 1]
  /\ linesMultiples (g_state (combineStep ex_editor ex_grouping 0 (Some 2)))
     = linesMultiples (g_state ex_grouping).
Proof.
  refine (proj1 (combineStep_group_identity ex_editor ex_grouping 0 (Some 2)
                   (fun a b => bool_decide (attr_get a "list" = attr_get b "list"))
                   eq_refl eq_refl) 1 eq_refl eq_refl _).
  intros i v Hv. destruct i as [| i]; [exact Hv | discriminate Hv].
Defined.

Lemma missing_render_function_throws_witness :
  exists msg, fst (renderCombined ex_editor ex_state [ELine 2; ELine 0]) = Throw msg.
Proof.
  apply (proj2 (proj2 (missing_render_function_throws ex_editor))
           ex_state [ELine 2; ELine 0] (ELine 0)).
  - apply list_elem_of_further, list_elem_of_here.
  - reflexivity.
Defined.

Lemma combinable_lines_form_array_units_witness :
  exists a,
    combined (readData (snd (combineLines ex_editor ex_state 1))
                (fst (combineLines ex_editor ex_state 1))) = [EArr a]
    /\ readArr (snd (combineLines ex_editor ex_state 1)) a = [0]
    /\ fst (renderLine ex_editor (snd (combineLines ex_editor ex_state 1)) (EArr a))
       = Ok (mkVNode "ul" ∅ [VElem (mkVNode "li" ∅ [VText "A"] (Some "a"))] (Some "a")).
Proof.
  pose proof (combinable_lines_form_array_units ex_editor ex_state
                (snd (combineLines ex_editor ex_state 1)) 1
                (fst (combineLines ex_editor ex_state 1))
                eq_refl (surjective_pairing _)) as H.
  cbv zeta in H. destruct H as (_ & _ & _ & H4 & _ & _ & H7 & _).
  destruct (H4 0 eq_refl eq_refl) as (a & Hu & Hr).
  exists a. split; [exact Hu |]. split; [exact Hr |].
  rewrite (H7 _ a 0) by (rewrite Hr; reflexivity).
  rewrite Hr. vm_compute. reflexivity.
Defined.

Lemma children_merge_on_combine_example :
  exists top rest,
    renderOps ex_editor None
      [mkOp (InsText "a") (Some [("bold", VBool true)]);
       mkOp (InsText "b") (Some [("bold", VBool true)])]
      (mkComposer [] true [])
    = mkComposer [] false
        (mkItem top [("bold", VBool true)] (Some [VText "ab"])
         :: map (fun ty => mkItem ty [("bold", VBool true)] None) rest).
Proof.
  apply (proj2 (proj2 (proj2 (proj2 (proj2 (proj2 (proj2 (children_merge_on_combine ex_editor)))))))
           [("bold", VBool true)] "a" "b" "bold" 0 (ex_wrap "strong")).
  - apply list_elem_of_here.
  - reflexivity.
  - reflexivity.
Defined.

(** * Further properties of the code *)

(** ** The range diff, in general *)

Lemma find_seq_first (f : nat -> bool) (m : nat) :
  forall k i,
    k <= i < k + m -> f i = true -> (forall j, k <= j < i -> f j = false) ->
    find f (seq k m) = Some i.
Proof.
  induction m as [| m IH]; intros k i Hr Hi Hbefore; [lia |]. cbn.
  destruct (decide (i = k)) as [-> | Hne].
  - rewrite Hi. reflexivity.
  - rewrite (Hbefore k) by lia. apply IH; [lia | exact Hi |].
    intros j Hj. apply Hbefore. lia.
Qed.

Lemma sameAt_Forall2 st oldC newC i :
  Forall2 (fun o n => isSame st o n = true) oldC newC ->
  sameAt st oldC newC i i = true.
Proof.
  intros H. unfold sameAt.
  destruct (oldC !! i) as [o |] eqn:Ho.
  - destruct (Forall2_lookup_l _ _ _ _ _ H Ho) as (n & Hn & Hsame).
    rewrite Hn. exact Hsame.
  - apply lookup_ge_None in Ho. rewrite (Forall2_length _ _ _ H) in Ho.
    apply lookup_ge_None in Ho. rewrite Ho. reflexivity.
Qed.

Lemma getChangedRanges_all_same (st : State) (oldC newC : list CombinedEntry) :
  Forall2 (fun o n => isSame st o n = true) oldC newC ->
  getChangedRanges st oldC newC = ((0, 0), (0, 0))%Z.
Proof.
  intros H. unfold getChangedRanges.
  pose proof (Forall2_length _ _ _ H) as Hlen. rewrite <- Hlen.
  assert (find (fun i => negb (sameAt st oldC newC i i))
            (seq 0 (Nat.min (length oldC) (length oldC))) = None) as ->.
  { apply find_none_iff. intros i _. rewrite (sameAt_Forall2 st oldC newC i H). reflexivity. }
  assert (find (fun i => negb (sameAt st oldC newC (length oldC - i - 1) (length oldC - i - 1)))
            (seq 0 (Nat.min (length oldC) (length oldC))) = None) as ->.
  { apply find_none_iff. intros i _. rewrite (sameAt_Forall2 st oldC newC _ H). reflexivity. }
  reflexivity.
Qed.

Lemma Forall2_isSame_refl (st : State) (units : list CombinedEntry) :
  Forall2 (fun o n => isSame st o n = true) units units.
Proof. induction units; constructor; [apply isSame_refl | assumption]. Qed.

(** X1: when the old and the new units are the same one by one (equal
    entries, or arrays of the same lines), [getChangedRanges] returns the
    empty window [[0, 0)] for both sides; in particular when the two
    sequences are one and the same. *)
Theorem getChangedRanges_same_units (st : State) (oldC newC : list CombinedEntry) :
  Forall2 (fun o n => isSame st o n = true) oldC newC ->
  getChangedRanges st oldC newC = ((0, 0), (0, 0))%Z
  /\ getChangedRanges st oldC oldC = ((0, 0), (0, 0))%Z.
Proof.
  intros H. split; [apply getChangedRanges_all_same; exact H |].
  apply getChangedRanges_all_same, Forall2_isSame_refl.
Qed.

Lemma find_seq_Some_iff (f : nat -> bool) (m t : nat) :
  find f (seq 0 m) = Some t
  <-> t < m /\ f t = true /\ forall j, j < t -> f j = false.
Proof.
  split.
  - intros H. apply find_seq_Some in H as (Hr & Hf & Hb).
    split; [lia |]. split; [exact Hf |]. intros j Hj. apply Hb. lia.
  - intros (Hr & Hf & Hb). apply find_seq_first; [lia | exact Hf |].
    intros j Hj. apply Hb. lia.
Qed.

Lemma find_seq_None_iff (f : nat -> bool) (m : nat) :
  find f (seq 0 m) = None <-> forall j, j < m -> f j = false.
Proof.
  split.
  - intros H j Hj. apply (find_seq_None _ _ _ H). lia.
  - intros H. destruct (find f (seq 0 m)) as [t |] eqn:Hf; [| reflexivity].
    apply find_seq_Some_iff in Hf as (Hr & Hf & _). rewrite (H t Hr) in Hf. discriminate Hf.
Qed.

(** X2: what [getChangedRanges] returns, in full. The result is a pair of
    windows of natural numbers that start at the same index, and it is the
    one and only such pair for which the following holds. The start is
    the first index below the shorter length at which the two units
    differ, or 0 when there is none (the units at every index below the
    shorter length are then the same). Counting from the back, with [t]
    the first count below the shorter length at which the two units
    differ, the ends are the two lengths less [t]; when there is no such
    count both ends are 0. *)
Theorem getChangedRanges_sound (st : State) (oldC newC : list CombinedEntry) :
  let ol := length oldC in
  let nl := length newC in
  let m := Nat.min ol nl in
  (exists s oe ne : nat,
     getChangedRanges st oldC newC
     = ((Z.of_nat s, Z.of_nat oe), (Z.of_nat s, Z.of_nat ne)))
  /\ forall s oe ne : nat,
       getChangedRanges st oldC newC
       = ((Z.of_nat s, Z.of_nat oe), (Z.of_nat s, Z.of_nat ne))
       <-> ((s < m /\ sameAt st oldC newC s s = false
             /\ (forall i, i < s -> sameAt st oldC newC i i = true))
            \/ (s = 0 /\ forall i, i < m -> sameAt st oldC newC i i = true))
           /\ ((exists t, t < m /\ oe = ol - t /\ ne = nl - t
                  /\ sameAt st oldC newC (ol - t - 1) (nl - t - 1) = false
                  /\ forall j, j < t ->
                        sameAt st oldC newC (ol - j - 1) (nl - j - 1) = true)
               \/ (oe = 0 /\ ne = 0
                   /\ forall j, j < m ->
                         sameAt st oldC newC (ol - j - 1) (nl - j - 1) = true)).
Proof.
  intros ol nl m. unfold getChangedRanges. fold ol nl m.
  set (f := fun i => negb (sameAt st oldC newC i i)).
  set (b := fun i => negb (sameAt st oldC newC (ol - i - 1) (nl - i - 1))).
  assert (forall i, f i = true <-> sameAt st oldC newC i i = false) as Hft
    by (intros i; unfold f; apply negb_true_iff).
  assert (forall i, f i = false <-> sameAt st oldC newC i i = true) as Hff
    by (intros i; unfold f; apply negb_false_iff).
  assert (forall i, b i = true
                    <-> sameAt st oldC newC (ol - i - 1) (nl - i - 1) = false) as Hbt
    by (intros i; unfold b; apply negb_true_iff).
  assert (forall i, b i = false
                    <-> sameAt st oldC newC (ol - i - 1) (nl - i - 1) = true) as Hbf
    by (intros i; unfold b; apply negb_false_iff).
  (* the front scan *)
  assert (forall s,
            match find f (seq 0 m) with Some i => i | None => 0 end = s
            <-> (s < m /\ sameAt st oldC newC s s = false
                 /\ (forall i, i < s -> sameAt st oldC newC i i = true))
                \/ (s = 0 /\ forall i, i < m -> sameAt st oldC newC i i = true)) as Hfront.
  { intros s. destruct (find f (seq 0 m)) as [s0 |] eqn:Hf.
    - apply find_seq_Some_iff in Hf as (Hr & Hs0 & Hb0). split.
      + intros <-. left. split; [exact Hr |]. split; [apply Hft; exact Hs0 |].
        intros i Hi. apply Hff, Hb0. exact Hi.
      + intros [(Hr' & Hs & Hb') | (_ & Hall)].
        * destruct (Nat.lt_trichotomy s0 s) as [Hlt | [Heq | Hgt]]; [| exact Heq |].
          -- apply Hft in Hs0. rewrite (Hb' s0 Hlt) in Hs0. discriminate Hs0.
          -- pose proof (Hb0 s Hgt) as Hsame. apply Hff in Hsame.
             rewrite Hsame in Hs. discriminate Hs.
        * apply Hft in Hs0. rewrite (Hall s0 Hr) in Hs0. discriminate Hs0.
    - pose proof (proj1 (find_seq_None_iff f m) Hf) as Hnone. split.
      + intros <-. right. split; [reflexivity |]. intros i Hi. apply Hff, Hnone. exact Hi.
      + intros [(Hr' & Hs & _) | (-> & _)]; [| reflexivity].
        apply Hft in Hs. rewrite (Hnone s Hr') in Hs. discriminate Hs. }
  (* the back scan *)
  assert (forall oe ne,
            match find b (seq 0 m) with Some i => (ol - i, nl - i) | None => (0, 0) end
            = (oe, ne)
            <-> (exists t, t < m /\ oe = ol - t /\ ne = nl - t
                   /\ sameAt st oldC newC (ol - t - 1) (nl - t - 1) = false
                   /\ forall j, j < t ->
                         sameAt st oldC newC (ol - j - 1) (nl - j - 1) = true)
                \/ (oe = 0 /\ ne = 0
                    /\ forall j, j < m ->
                          sameAt st oldC newC (ol - j - 1) (nl - j - 1) = true)) as Hback.
  { intros oe ne. destruct (find b (seq 0 m)) as [t0 |] eqn:Hb.
    - apply find_seq_Some_iff in Hb as (Hr & Ht0 & Hb0). split.
      + intros Heq. inversion Heq; subst oe ne. left. exists t0.
        split; [exact Hr |]. split; [reflexivity |]. split; [reflexivity |].
        split; [apply Hbt; exact Ht0 |]. intros j Hj. apply Hbf, Hb0. exact Hj.
      + intros [(t & Hr' & -> & -> & Ht & Hb') | (_ & _ & Hall)].
        * assert (t = t0) as ->; [| reflexivity].
          destruct (Nat.lt_trichotomy t0 t) as [Hlt | [Heq | Hgt]]; [| symmetry; exact Heq |].
          -- apply Hbt in Ht0. rewrite (Hb' t0 Hlt) in Ht0. discriminate Ht0.
          -- pose proof (Hb0 t Hgt) as Hsame. apply Hbf in Hsame.
             rewrite Hsame in Ht. discriminate Ht.
        * apply Hbt in Ht0. rewrite (Hall t0 Hr) in Ht0. discriminate Ht0.
    - pose proof (proj1 (find_seq_None_iff b m) Hb) as Hnone. split.
      + intros Heq. inversion Heq; subst oe ne. right.
        split; [reflexivity |]. split; [reflexivity |].
        intros j Hj. apply Hbf, Hnone. exact Hj.
      + intros [(t & Hr' & _ & _ & Ht & _) | (-> & -> & _)]; [| reflexivity].
        pose proof (Hnone t Hr') as Hsame. apply Hbf in Hsame.
        rewrite Hsame in Ht. discriminate Ht. }
  split.
  - destruct (find f (seq 0 m)) as [s0 |]; destruct (find b (seq 0 m)) as [t0 |];
      eexists _, _, _; reflexivity.
  - intros s oe ne. rewrite <- Hfront, <- Hback.
    destruct (find f (seq 0 m)) as [s0 |]; destruct (find b (seq 0 m)) as [t0 |];
      (split;
       [intros Heq; injection Heq; intros;
        repeat match goal with
               | H : Z.of_nat _ = Z.of_nat _ |- _ => apply Nat2Z.inj in H
               end;
        subst; split; reflexivity
       | intros [Hs Heq]; inversion Heq; subst; reflexivity]).
Qed.

Lemma lookup_mid {A} (pre m suf : list A) (k : nat) :
  k < length m -> (pre ++ m ++ suf) !! (length pre + k) = m !! k.
Proof.
  intros Hk. rewrite lookup_app_r by lia.
  replace (length pre + k - length pre) with k by lia.
  apply lookup_app_l. exact Hk.
Qed.

Lemma lookup_after {A} (pre m suf : list A) (k : nat) :
  (pre ++ m ++ suf) !! (length pre + length m + k) = suf !! k.
Proof.
  rewrite lookup_app_r by lia. rewrite lookup_app_r by lia. f_equal. lia.
Qed.

(** X3: a run of units replaced by another run, between a common prefix
    and a common suffix, when the first units of the two runs are not the
    same and neither are their last units: the windows are exactly the
    two runs. *)
Theorem getChangedRanges_replaced_run (st : State)
    (pre mo mn suf : list CombinedEntry) (o n o' n' : CombinedEntry) :
  head mo = Some o -> head mn = Some n -> isSame st o n = false ->
  last mo = Some o' -> last mn = Some n' -> isSame st o' n' = false ->
  getChangedRanges st (pre ++ mo ++ suf) (pre ++ mn ++ suf)
  = ((Z.of_nat (length pre), Z.of_nat (length pre + length mo)),
     (Z.of_nat (length pre), Z.of_nat (length pre + length mn))).
Proof.
  intros Ho Hn Hon Ho' Hn' Hon'. unfold getChangedRanges.
  set (oldC := pre ++ mo ++ suf). set (newC := pre ++ mn ++ suf).
  assert (length oldC = length pre + length mo + length suf) as Hol.
  { unfold oldC. rewrite !length_app. lia. }
  assert (length newC = length pre + length mn + length suf) as Hnl.
  { unfold newC. rewrite !length_app. lia. }
  assert (0 < length mo) as Hmo by (destruct mo; [discriminate | cbn; lia]).
  assert (0 < length mn) as Hmn by (destruct mn; [discriminate | cbn; lia]).
  assert (find (fun i => negb (sameAt st oldC newC i i))
            (seq 0 (Nat.min (length oldC) (length newC))) = Some (length pre)) as ->.
  { apply find_seq_first; [lia | |].
    - unfold sameAt, oldC, newC.
      rewrite <- (Nat.add_0_r (length pre)).
      rewrite !lookup_mid by lia.
      rewrite <- !head_lookup, Ho, Hn, Hon. reflexivity.
    - intros j Hj. unfold sameAt, oldC, newC.
      rewrite (lookup_app_l pre (mo ++ suf)), (lookup_app_l pre (mn ++ suf)) by lia.
      destruct (lookup_lt_is_Some_2 pre j) as [e He]; [lia |].
      rewrite He, isSame_refl. reflexivity. }
  assert (find (fun i => negb (sameAt st oldC newC (length oldC - i - 1) (length newC - i - 1)))
            (seq 0 (Nat.min (length oldC) (length newC))) = Some (length suf)) as ->.
  { apply find_seq_first; [lia | |].
    - unfold sameAt.
      replace (length oldC - length suf - 1) with (length pre + pred (length mo)) by lia.
      replace (length newC - length suf - 1) with (length pre + pred (length mn)) by lia.
      unfold oldC, newC. rewrite !lookup_mid by lia.
      rewrite last_lookup in Ho', Hn'.
      rewrite Ho', Hn', Hon'. reflexivity.
    - intros j Hj. unfold sameAt.
      replace (length oldC - j - 1) with (length pre + length mo + (length suf - j - 1)) by lia.
      replace (length newC - j - 1) with (length pre + length mn + (length suf - j - 1)) by lia.
      unfold oldC, newC. rewrite !lookup_after.
      destruct (lookup_lt_is_Some_2 suf (length suf - j - 1)) as [e He]; [lia |].
      rewrite He, isSame_refl. reflexivity. }
  f_equal; f_equal; lia.
Qed.

(** X4: [isSame] is an equivalence on units: reflexive, symmetric and
    transitive; a single line and an array are never the same, and two
    arrays are the same exactly when they hold the same lines. *)
Theorem isSame_equivalence (st : State) :
  (forall e, isSame st e e = true)
  /\ (forall a b, isSame st a b = isSame st b a)
  /\ (forall a b c, isSame st a b = true -> isSame st b c = true -> isSame st a c = true)
  /\ (forall l a, isSame st (ELine l) (EArr a) = false /\ isSame st (EArr a) (ELine l) = false)
  /\ (forall a b, isSame st (EArr a) (EArr b) = true <-> readArr st a = readArr st b).
Proof.
  split; [apply isSame_refl |].
  split.
  { intros a b. destruct (isSame st a b) eqn:Hab; symmetry.
    - apply isSame_view. symmetry. apply isSame_view. exact Hab.
    - destruct (isSame st b a) eqn:Hba; [| reflexivity].
      apply isSame_view in Hba. symmetry in Hba. apply isSame_view in Hba. congruence. }
  split.
  { intros a b c Hab Hbc. apply isSame_view. apply isSame_view in Hab, Hbc. congruence. }
  split.
  { intros l a. split.
    - destruct (isSame st (ELine l) (EArr a)) eqn:H; [| reflexivity].
      apply isSame_view in H. discriminate H.
    - destruct (isSame st (EArr a) (ELine l)) eqn:H; [| reflexivity].
      apply isSame_view in H. discriminate H. }
  intros a b. apply (isSame_spec st (EArr a) (EArr b)).
Qed.

Lemma sameAt_sym (st : State) (a b : list CombinedEntry) (i j : nat) :
  sameAt st a b i j = sameAt st b a j i.
Proof.
  unfold sameAt. destruct (a !! i) as [x |], (b !! j) as [y |]; try reflexivity.
  destruct (isSame st x y) eqn:Hxy; symmetry.
  - apply isSame_view. symmetry. apply isSame_view. exact Hxy.
  - destruct (isSame st y x) eqn:Hyx; [| reflexivity].
    apply isSame_view in Hyx. symmetry in Hyx. apply isSame_view in Hyx. congruence.
Qed.

Lemma find_ext {A} (f g : A -> bool) (l : list A) :
  (forall x, f x = g x) -> find f l = find g l.
Proof.
  intros H. induction l as [| x l IH]; [reflexivity |]. cbn. rewrite (H x), IH. reflexivity.
Qed.

(** X28: a run of units inserted between a prefix and a suffix, when the
    first inserted unit is not the same as the first unit of the suffix
    and the last inserted unit is not the same as the last unit of the
    prefix. In the middle the windows are exact: the old window is empty
    at the place of the insertion and the new window is the run. At the
    end of the sequence (no suffix) the front scan meets no mismatch and
    the start stays 0; at the front (no prefix) the back scan meets none
    and both ends stay 0. *)
Theorem getChangedRanges_inserted_run (st : State) (pre ins suf : list CombinedEntry) :
  ins <> [] ->
  (forall x y, head suf = Some x -> head ins = Some y -> isSame st x y = false) ->
  (forall x y, last pre = Some x -> last ins = Some y -> isSame st x y = false) ->
  getChangedRanges st (pre ++ suf) (pre ++ ins ++ suf)
  = let start := match suf with [] => 0 | _ :: _ => length pre end in
    let oldEnd := match pre with [] => 0 | _ :: _ => length pre end in
    let newEnd := match pre with [] => 0 | _ :: _ => length pre + length ins end in
    ((Z.of_nat start, Z.of_nat oldEnd), (Z.of_nat start, Z.of_nat newEnd)).
Proof.
  intros Hins Hfront Hback. cbv zeta. unfold getChangedRanges.
  set (oldC := pre ++ suf). set (newC := pre ++ ins ++ suf).
  assert (length oldC = length pre + length suf) as Hol
    by (unfold oldC; rewrite length_app; lia).
  assert (length newC = length pre + length ins + length suf) as Hnl
    by (unfold newC; rewrite !length_app; lia).
  assert (0 < length ins) as Hlen by (destruct ins; [contradiction | cbn; lia]).
  replace (Nat.min (length oldC) (length newC)) with (length pre + length suf) by lia.
  assert (forall j, j < length pre -> sameAt st oldC newC j j = true) as Hpre.
  { intros j Hj. unfold sameAt, oldC, newC.
    rewrite (lookup_app_l pre suf), (lookup_app_l pre (ins ++ suf)) by lia.
    destruct (lookup_lt_is_Some_2 pre j) as [e He]; [lia |].
    rewrite He, isSame_refl. reflexivity. }
  assert (forall j, j < length suf ->
            sameAt st oldC newC (length oldC - j - 1) (length newC - j - 1) = true) as Hsuf.
  { intros j Hj. unfold sameAt.
    replace (length oldC - j - 1) with (length pre + (length suf - j - 1)) by lia.
    replace (length newC - j - 1)
      with (length pre + length ins + (length suf - j - 1)) by lia.
    unfold oldC, newC. rewrite lookup_after.
    rewrite lookup_app_r by lia.
    replace (length pre + (length suf - j - 1) - length pre) with (length suf - j - 1) by lia.
    destruct (lookup_lt_is_Some_2 suf (length suf - j - 1)) as [e He]; [lia |].
    rewrite He, isSame_refl. reflexivity. }
  assert (suf = [] ->
          find (fun i => negb (sameAt st oldC newC i i)) (seq 0 (length pre + length suf))
          = None) as Hfront0.
  { intros Hs. apply find_none_iff. intros i Hi. apply elem_of_seq in Hi.
    rewrite Hs in Hi. cbn in Hi. rewrite Hpre by lia. reflexivity. }
  assert (forall x, head suf = Some x ->
          find (fun i => negb (sameAt st oldC newC i i)) (seq 0 (length pre + length suf))
          = Some (length pre)) as Hfront1.
  { intros x Hx.
    assert (0 < length suf) as Hslen by (destruct suf; [discriminate | cbn; lia]).
    apply find_seq_first; [lia | |].
    - unfold sameAt, oldC, newC.
      rewrite (lookup_app_r pre suf), (lookup_app_r pre (ins ++ suf)) by lia.
      rewrite Nat.sub_diag. rewrite (lookup_app_l ins suf) by lia.
      rewrite <- !head_lookup, Hx.
      destruct (head ins) as [y |] eqn:Hy; [| reflexivity].
      rewrite (Hfront x y Hx eq_refl). reflexivity.
    - intros j Hj. rewrite Hpre by lia. reflexivity. }
  assert (pre = [] ->
          find (fun i => negb (sameAt st oldC newC (length oldC - i - 1) (length newC - i - 1)))
            (seq 0 (length pre + length suf)) = None) as Hback0.
  { intros Hp. apply find_none_iff. intros i Hi. apply elem_of_seq in Hi.
    rewrite Hp in Hi. cbn in Hi. rewrite Hsuf by lia. reflexivity. }
  assert (forall x, last pre = Some x ->
          find (fun i => negb (sameAt st oldC newC (length oldC - i - 1) (length newC - i - 1)))
            (seq 0 (length pre + length suf)) = Some (length suf)) as Hback1.
  { intros x Hx.
    assert (0 < length pre) as Hplen by (destruct pre; [discriminate | cbn; lia]).
    apply find_seq_first; [lia | |].
    - unfold sameAt.
      replace (length oldC - length suf - 1) with (pred (length pre)) by lia.
      replace (length newC - length suf - 1) with (length pre + pred (length ins)) by lia.
      unfold oldC, newC. rewrite (lookup_app_l pre suf) by lia.
      rewrite lookup_mid by lia. rewrite <- !last_lookup, Hx.
      destruct (last ins) as [y |] eqn:Hy; [| reflexivity].
      rewrite (Hback x y Hx eq_refl). reflexivity.
    - intros j Hj. rewrite Hsuf by lia. reflexivity. }
  assert (find (fun i => negb (sameAt st oldC newC i i)) (seq 0 (length pre + length suf))
          = match suf with [] => None | _ :: _ => Some (length pre) end) as ->.
  { destruct suf as [| x suf']; [apply Hfront0 | apply (Hfront1 x)]; reflexivity. }
  assert (find (fun i => negb (sameAt st oldC newC (length oldC - i - 1) (length newC - i - 1)))
            (seq 0 (length pre + length suf))
          = match pre with [] => None | _ :: _ => Some (length suf) end) as ->.
  { destruct pre as [| p pre']; [apply Hback0; reflexivity |].
    destruct (last (p :: pre')) as [y |] eqn:Hl; [apply (Hback1 y); reflexivity |].
    apply last_None in Hl. discriminate Hl. }
  destruct suf as [| x suf'], pre as [| y pre']; cbn [length] in *; f_equal; f_equal; lia.
Qed.

(** X29: [getChangedRanges] treats the two sequences alike: with the old
    and the new units exchanged it returns the two windows exchanged. So
    what holds of an insertion holds of a removal, with the windows
    exchanged. *)
Theorem getChangedRanges_swap (st : State) (oldC newC : list CombinedEntry) :
  getChangedRanges st newC oldC
  = (snd (getChangedRanges st oldC newC), fst (getChangedRanges st oldC newC)).
Proof.
  unfold getChangedRanges. rewrite (Nat.min_comm (length newC) (length oldC)).
  rewrite (find_ext (fun i => negb (sameAt st newC oldC i i))
             (fun i => negb (sameAt st oldC newC i i)))
    by (intros i; rewrite sameAt_sym; reflexivity).
  rewrite (find_ext
             (fun i => negb (sameAt st newC oldC (length newC - i - 1) (length oldC - i - 1)))
             (fun i => negb (sameAt st oldC newC (length oldC - i - 1) (length newC - i - 1))))
    by (intros i; rewrite sameAt_sym; reflexivity).
  destruct (find (fun i => negb (sameAt st oldC newC i i))
              (seq 0 (Nat.min (length oldC) (length newC)))) as [s |];
    destruct (find (fun i => negb (sameAt st oldC newC (length oldC - i - 1)
                                     (length newC - i - 1)))
                (seq 0 (Nat.min (length oldC) (length newC)))) as [t |];
    reflexivity.
Qed.

(** ** The text of an operation *)

Lemma string_pair_ind (P : string -> Prop) :
  P EmptyString ->
  (forall c, P (String c EmptyString)) ->
  (forall c d r, P r -> P (String d r) -> P (String c (String d r))) ->
  forall s, P s.
Proof.
  intros H0 H1 H2 s.
  assert (P s /\ forall c, P (String c s)) as [H _]; [| exact H].
  induction s as [| d r [IHr IHc]].
  - split; [exact H0 | exact H1].
  - split; [apply IHc |]. intros c. apply H2; [exact IHr | apply IHc].
Qed.

Lemma replace_pairs_cons2 (a b c d : ascii) (r : string) :
  replace_pairs a b (String c (String d r))
  = if bool_decide (c = space) && bool_decide (d = space)
    then String a (String b (replace_pairs a b r))
    else String c (replace_pairs a b (String d r)).
Proof. reflexivity. Qed.

Lemma spaces_to_nbsp_cons (c d : ascii) (s t : string) :
  spaces_to_nbsp (String c s) (String d t)
  = (bool_decide (c = d) || (bool_decide (c = space) && bool_decide (d = nbsp)))
    && spaces_to_nbsp s t.
Proof. reflexivity. Qed.

Lemma spaces_to_nbsp_refl (s : string) : spaces_to_nbsp s s = true.
Proof.
  induction s as [| c s IH]; cbn; [reflexivity |].
  rewrite bool_decide_eq_true_2 by reflexivity. exact IH.
Qed.

Lemma spaces_to_nbsp_trans (s t u : string) :
  spaces_to_nbsp s t = true -> spaces_to_nbsp t u = true -> spaces_to_nbsp s u = true.
Proof.
  revert t u. induction s as [| c s IH]; intros [| d t] [| e u]; cbn; try discriminate;
    try reflexivity.
  intros H1 H2. apply andb_true_iff in H1 as [Hcd Hst]. apply andb_true_iff in H2 as [Hde Htu].
  apply andb_true_iff. split; [| exact (IH t u Hst Htu)].
  apply orb_true_iff in Hcd, Hde. apply orb_true_iff.
  destruct Hcd as [Hcd | Hcd].
  - apply bool_decide_eq_true in Hcd as ->. exact Hde.
  - apply andb_true_iff in Hcd as [Hc Hd]. apply bool_decide_eq_true in Hc, Hd. subst c d.
    destruct Hde as [Hde | Hde].
    + apply bool_decide_eq_true in Hde as <-. right. reflexivity.
    + apply andb_true_iff in Hde as [Hd _]. apply bool_decide_eq_true in Hd. discriminate Hd.
Qed.

(** Each replacement turns spaces into no-break spaces only. *)
Lemma replace_pairs_spaces (a b : ascii) (s : string) :
  (a = space \/ a = nbsp) -> (b = space \/ b = nbsp) ->
  spaces_to_nbsp s (replace_pairs a b s) = true.
Proof.
  intros Ha Hb. induction s as [| c | c d r IHr IHd] using string_pair_ind.
  - reflexivity.
  - apply spaces_to_nbsp_refl.
  - rewrite replace_pairs_cons2.
    destruct (bool_decide (c = space)) eqn:Hc; cbn [andb].
    + destruct (bool_decide (d = space)) eqn:Hd.
      * apply bool_decide_eq_true in Hc, Hd. subst c d.
        rewrite !spaces_to_nbsp_cons, IHr, andb_true_r.
        destruct Ha as [-> | ->], Hb as [-> | ->]; reflexivity.
      * rewrite spaces_to_nbsp_cons, IHd.
        rewrite (bool_decide_eq_true_2 (c = c)) by reflexivity. reflexivity.
    + rewrite spaces_to_nbsp_cons, IHd.
      rewrite (bool_decide_eq_true_2 (c = c)) by reflexivity. reflexivity.
Qed.

Lemma spaces_to_nbsp_space (s : string) :
  spaces_to_nbsp (String space s) (String nbsp s) = true.
Proof. rewrite spaces_to_nbsp_cons, spaces_to_nbsp_refl. reflexivity. Qed.

Lemma replace_leading_spaces (s : string) : spaces_to_nbsp s (replace_leading s) = true.
Proof.
  destruct s as [| c r]; [reflexivity |]. unfold replace_leading.
  destruct (bool_decide (c = space)) eqn:Hc; [| apply spaces_to_nbsp_refl].
  apply bool_decide_eq_true in Hc. subst c. apply spaces_to_nbsp_space.
Qed.

Lemma replace_trailing_cons1 (c : ascii) :
  replace_trailing (String c EmptyString)
  = if bool_decide (c = space) then String nbsp EmptyString else String c EmptyString.
Proof. reflexivity. Qed.

Lemma replace_trailing_cons2 (c d : ascii) (r : string) :
  replace_trailing (String c (String d r)) = String c (replace_trailing (String d r)).
Proof. reflexivity. Qed.

Lemma replace_trailing_spaces (s : string) : spaces_to_nbsp s (replace_trailing s) = true.
Proof.
  induction s as [| c r IH]; [reflexivity |].
  destruct r as [| d r].
  - rewrite replace_trailing_cons1.
    destruct (bool_decide (c = space)) eqn:Hc; [| apply spaces_to_nbsp_refl].
    apply bool_decide_eq_true in Hc. subst c. apply spaces_to_nbsp_space.
  - rewrite replace_trailing_cons2, spaces_to_nbsp_cons, IH.
    rewrite (bool_decide_eq_true_2 (c = c)) by reflexivity. reflexivity.
Qed.

(** Turning spaces into no-break spaces creates no pair of spaces. *)
Lemma no_double_space_mono (s t : string) :
  spaces_to_nbsp s t = true -> no_double_space s = true -> no_double_space t = true.
Proof.
  revert t. induction s as [| c s IH]; intros [| d t]; cbn [spaces_to_nbsp]; try discriminate;
    [reflexivity |].
  intros Hst Hs. apply andb_true_iff in Hst as [Hcd Hst].
  cbn [no_double_space] in Hs |- *. apply andb_true_iff in Hs as [Hpair Hs].
  apply andb_true_iff. split; [| exact (IH t Hst Hs)].
  destruct s as [| c' s'], t as [| d' t']; cbn [spaces_to_nbsp] in Hst; try discriminate;
    [reflexivity |].
  apply andb_true_iff in Hst as [Hcd' _].
  apply negb_true_iff, andb_false_iff in Hpair. apply negb_true_iff, andb_false_iff.
  assert (forall x y, bool_decide (x = y) || (bool_decide (x = space) && bool_decide (y = nbsp))
                      = true -> y = space -> x = space) as Hsp.
  { intros x y H Hy. apply orb_true_iff in H as [H | H].
    - apply bool_decide_eq_true in H. congruence.
    - apply andb_true_iff in H as [_ H]. apply bool_decide_eq_true in H.
      rewrite H in Hy. discriminate Hy. }
  destruct (decide (d = space)) as [Hd | Hd]; [| left; apply bool_decide_eq_false; exact Hd].
  destruct (decide (d' = space)) as [Hd' | Hd']; [| right; apply bool_decide_eq_false; exact Hd'].
  exfalso. pose proof (Hsp c d Hcd Hd) as Hc. pose proof (Hsp c' d' Hcd' Hd') as Hc'.
  destruct Hpair as [H | H]; apply bool_decide_eq_false in H; contradiction.
Qed.

Lemma first_char_replace_pairs (a b : ascii) (s : string) :
  a = space ->
  first_char (replace_pairs a b s) = first_char s.
Proof.
  intros ->. destruct s as [| c [| d r]]; try reflexivity.
  rewrite replace_pairs_cons2.
  destruct (bool_decide (c = space)) eqn:Hc; [| reflexivity].
  destruct (bool_decide (d = space)); [| reflexivity].
  apply bool_decide_eq_true in Hc. subst c. reflexivity.
Qed.

(** The second replacement leaves no pair of spaces. *)
Lemma replace_pairs_no_double (s : string) :
  no_double_space (replace_pairs space nbsp s) = true.
Proof.
  induction s as [| c | c d r IHr IHd] using string_pair_ind.
  - reflexivity.
  - reflexivity.
  - rewrite replace_pairs_cons2.
    destruct (bool_decide (c = space) && bool_decide (d = space)) eqn:Hcd.
    + cbn [no_double_space]. rewrite IHr.
      destruct (replace_pairs space nbsp r); reflexivity.
    + pose proof (first_char_replace_pairs space nbsp (String d r) eq_refl) as Hfirst.
      cbn [no_double_space]. rewrite IHd, andb_true_r.
      destruct (replace_pairs space nbsp (String d r)) as [| d' r']; [reflexivity |].
      cbn in Hfirst. inversion Hfirst; subst d'. rewrite Hcd. reflexivity.
Qed.

Lemma first_char_replace_leading (s : string) :
  first_char (replace_leading s) <> Some space.
Proof.
  destruct s as [| c r]; [discriminate |]. unfold replace_leading.
  destruct (bool_decide (c = space)) eqn:Hc; cbn; [discriminate |].
  apply bool_decide_eq_false in Hc. congruence.
Qed.

Lemma first_char_replace_trailing (s : string) :
  first_char s <> Some space -> first_char (replace_trailing s) <> Some space.
Proof.
  destruct s as [| c [| d r]]; [auto | | auto].
  cbn. destruct (bool_decide (c = space)); [discriminate | auto].
Qed.

Lemma last_char_replace_trailing (s : string) :
  last_char (replace_trailing s) <> Some space.
Proof.
  induction s as [| c r IH]; [discriminate |].
  destruct r as [| d r].
  - cbn. destruct (bool_decide (c = space)) eqn:Hc; cbn; [discriminate |].
    apply bool_decide_eq_false in Hc. congruence.
  - rewrite replace_trailing_cons2.
    destruct (replace_trailing (String d r)) as [| d' r'] eqn:Hr.
    + destruct r; cbn in Hr; [destruct (bool_decide (d = space)) |]; discriminate.
    + exact IH.
Qed.

(** X5: the string pushed for a text operation is the inserted string
    with some spaces turned into no-break spaces and nothing else changed
    (so the length is kept); it holds no two adjacent spaces; it does not
    start with a space at the start of the line or after an embed, and it
    does not end with a space at the end of the line, before an embed or
    before a text that starts with a space. *)
Theorem opText_spacing (prev : option Op) (s : string) (next : option Op) :
  spaces_to_nbsp s (opText prev s next) = true
  /\ String.length (opText prev s next) = String.length s
  /\ no_double_space (opText prev s next) = true
  /\ (match prev with Some p => insert_is_object p | None => true end = true ->
      first_char (opText prev s next) <> Some space)
  /\ (match next with Some n => insert_is_object n || startsWithSpace n | None => true end
      = true ->
      last_char (opText prev s next) <> Some space).
Proof.
  set (s1 := replace_pairs space nbsp (replace_pairs nbsp space s)).
  set (s2 := match prev with
             | None => replace_leading s1
             | Some p => if insert_is_object p then replace_leading s1 else s1
             end).
  assert (opText prev s next
          = match next with
            | None => replace_trailing s2
            | Some n => if insert_is_object n || startsWithSpace n
                        then replace_trailing s2 else s2
            end) as Hop by reflexivity.
  assert (spaces_to_nbsp s s1 = true) as H1.
  { apply (spaces_to_nbsp_trans _ (replace_pairs nbsp space s)); apply replace_pairs_spaces; auto. }
  assert (spaces_to_nbsp s1 s2 = true) as H12.
  { unfold s2. destruct prev as [p |]; [destruct (insert_is_object p) |];
      try apply replace_leading_spaces; apply spaces_to_nbsp_refl. }
  assert (spaces_to_nbsp s2 (opText prev s next) = true) as H23.
  { rewrite Hop. destruct next as [n |]; [destruct (insert_is_object n || startsWithSpace n) |];
      try apply replace_trailing_spaces; apply spaces_to_nbsp_refl. }
  assert (spaces_to_nbsp s (opText prev s next) = true) as Hall.
  { exact (spaces_to_nbsp_trans _ _ _ H1 (spaces_to_nbsp_trans _ _ _ H12 H23)). }
  assert (forall a b, spaces_to_nbsp a b = true -> String.length b = String.length a) as Hlen.
  { induction a as [| c a IH]; intros [| d b]; cbn; try discriminate; [reflexivity |].
    intros H. apply andb_true_iff in H as [_ H]. rewrite (IH b H). reflexivity. }
  split; [exact Hall |]. split; [apply Hlen; exact Hall |]. split.
  { apply (no_double_space_mono s1); [exact (spaces_to_nbsp_trans _ _ _ H12 H23) |].
    apply replace_pairs_no_double. }
  split.
  - intros Hprev.
    assert (first_char s2 <> Some space) as Hs2.
    { unfold s2. destruct prev as [p |]; [rewrite Hprev |]; apply first_char_replace_leading. }
    rewrite Hop. destruct next as [n |]; [destruct (insert_is_object n || startsWithSpace n) |];
      try exact Hs2; apply first_char_replace_trailing; exact Hs2.
  - intros Hnext. rewrite Hop. destruct next as [n |]; [rewrite Hnext |];
      apply last_char_replace_trailing.
Qed.

(** ** Child lists stay merged *)

Lemma merged_snoc (l : list VChild) (x : VChild) :
  merged (l ++ [x])
  = merged l && match last l with Some y => negb (mergeable y x) | None => true end.
Proof.
  induction l as [| a l IH]; [reflexivity |].
  destruct l as [| b l].
  - cbn. rewrite !andb_true_r. reflexivity.
  - change (merged ((a :: b :: l) ++ [x]))
      with (negb (mergeable a b) && merged ((b :: l) ++ [x])).
    rewrite IH.
    change (merged (a :: b :: l)) with (negb (mergeable a b) && merged (b :: l)).
    change (last (a :: b :: l)) with (last (b :: l)).
    rewrite andb_assoc. reflexivity.
Qed.

Lemma mergeable_last_text (y : VChild) (a b : string) :
  mergeable y (VText a) = mergeable y (VText b).
Proof. destruct y; reflexivity. Qed.

Lemma mergeable_last_node (y : VChild) t p c1 k1 c2 k2 :
  mergeable y (VElem (mkVNode t p c1 k1)) = mergeable y (VElem (mkVNode t p c2 k2)).
Proof. destruct y; reflexivity. Qed.

(** What [addOrMergeChild] does to a list that is not empty. *)
Lemma addOrMergeChild_snoc (l : list VChild) (x c : VChild) :
  exists x',
    addOrMergeChild (l ++ [x]) c
    = (if mergeable x c then l ++ [x'] else l ++ [x; c])
    /\ forall y, mergeable y x' = mergeable y x.
Proof.
  destruct (mergeable x c) eqn:Hm.
  - destruct x as [a | [t p c1 k1]], c as [b | [t' p' c2 k2]]; cbn in Hm; try discriminate.
    + exists (VText (String.append a b)). split; [apply addOrMergeChild_text |].
      intros y. apply mergeable_last_text.
    + apply andb_true_iff in Hm as [Ht Hp]. apply bool_decide_eq_true in Ht, Hp. subst t' p'.
      exists (VElem (mkVNode t p (c1 ++ c2) k1)). split; [apply addOrMergeChild_node |].
      intros y. apply mergeable_last_node.
  - exists x. split; [apply addOrMergeChild_other; exact Hm | reflexivity].
Qed.

Lemma addOrMergeChild_merged (l : list VChild) (c : VChild) :
  merged l = true -> merged (addOrMergeChild l c) = true.
Proof.
  intros Hl. destruct l as [| a l0] using rev_ind; [reflexivity |]. clear IHl0.
  rename l0 into l, a into x.
  destruct (addOrMergeChild_snoc l x c) as (x' & -> & Hx').
  rewrite merged_snoc in Hl. apply andb_true_iff in Hl as [Hl Hlast].
  destruct (mergeable x c) eqn:Hm.
  - rewrite merged_snoc, Hl. cbn [andb].
    destruct (last l) as [y |]; [| reflexivity]. rewrite Hx'. exact Hlast.
  - change (l ++ [x; c]) with (l ++ [x] ++ [c]). rewrite app_assoc.
    rewrite merged_snoc, merged_snoc, Hl, last_snoc, Hm. cbn [andb negb].
    rewrite andb_true_r. exact Hlast.
Qed.

(** X6: [addOrMergeChild] keeps a child list free of adjacent mergeable
    siblings (two strings, or two nodes of the same type and equal props),
    and so does [combineChildren] for its first list, whatever the second
    list holds; [addOrMergeChild] lengthens the list by one exactly when
    the new child does not merge with the last one. *)
Theorem merging_keeps_siblings_merged :
  (forall l c, merged l = true -> merged (addOrMergeChild l c) = true)
  /\ (forall a b, merged a = true -> merged (combineChildren (Some a) (Some b)) = true)
  /\ (forall l c,
        length (addOrMergeChild l c)
        = if match last l with Some y => mergeable y c | None => false end
          then length l else S (length l)).
Proof.
  split; [exact addOrMergeChild_merged |]. split.
  - intros a b. cbn [combineChildren]. revert a.
    induction b as [| c b IH]; intros a Ha; [exact Ha |].
    cbn [fold_left]. apply IH. apply addOrMergeChild_merged. exact Ha.
  - intros l c. destruct l as [| x l0] using rev_ind; [reflexivity |]. clear IHl0.
    destruct (addOrMergeChild_snoc l0 x c) as (x' & -> & _).
    rewrite last_snoc. destruct (mergeable x c); rewrite !length_app; cbn; lia.
Qed.

(** ** The inline composer: plain text, the trailing break, the stack *)

Lemma append_empty_r (s : string) : String.append s EmptyString = s.
Proof.
  induction s as [| c s IH]; [reflexivity |].
  change (String c (String.append s EmptyString) = String c s). rewrite IH. reflexivity.
Qed.

Lemma append_assoc (a b c : string) :
  String.append (String.append a b) c = String.append a (String.append b c).
Proof.
  induction a as [| x a IH]; [reflexivity |].
  change (String x (String.append (String.append a b) c)
          = String x (String.append a (String.append b c))).
  rewrite IH. reflexivity.
Qed.

Section InlineMore.
Variable editor : Editor.

(** A text operation without attributes, met with an empty stack. *)
Lemma renderOp_plain prev op next ic tb s :
  attributes op = None -> insert op = InsText s ->
  renderOp editor prev op next (mkComposer ic tb [])
  = mkComposer (addOrMergeChild ic (VText (opText prev s next))) false [].
Proof.
  intros Ha Hs. unfold renderOp, opChildren. rewrite Ha, Hs. reflexivity.
Qed.

Lemma renderOps_plain ops :
  forall prev acc,
    Forall (fun op => attributes op = None /\ exists s, insert op = InsText s) ops ->
    renderOps editor prev ops (mkComposer [VText acc] false [])
    = mkComposer [VText (String.append acc (plainText prev ops))] false [].
Proof.
  induction ops as [| op rest IH]; intros prev acc Hall.
  - cbn. rewrite append_empty_r. reflexivity.
  - inversion Hall as [| ? ? (Ha & s & Hs) Hrest]; subst.
    cbn [renderOps plainText]. rewrite (renderOp_plain _ _ _ _ _ s Ha Hs), Hs.
    rewrite (addOrMergeChild_text [] acc). cbn [app].
    rewrite (IH _ _ Hrest), append_assoc. reflexivity.
Qed.

(** X7: a line that consists of text operations without attributes (one
    at least) renders to a single text child, the strings of the
    operations joined, and gets no trailing break. *)
Theorem renderInline_plain_text_run (ops : list Op) :
  ops <> [] ->
  Forall (fun op => attributes op = None /\ exists s, insert op = InsText s) ops ->
  renderInline editor ops = [VText (plainText None ops)].
Proof.
  intros Hne Hall. destruct ops as [| op rest]; [contradiction Hne; reflexivity |].
  inversion Hall as [| ? ? (Ha & s & Hs) Hrest]; subst.
  unfold renderInline. cbn [renderOps plainText].
  rewrite (renderOp_plain _ _ _ _ _ s Ha Hs), Hs. cbn [addOrMergeChild length lookup].
  change (addOrMergeChild [] (VText (opText None s (head rest))))
    with [VText (opText None s (head rest))].
  rewrite (renderOps_plain _ _ _ Hrest). reflexivity.
Qed.

(** *** The trailing break *)

Lemma collapseStack_trailingBreak from c :
  trailingBreak (collapseStack editor from c) = trailingBreak c.
Proof.
  unfold collapseStack. destruct (collapseLoop editor from (activeStack c) None) as [stack chn].
  destruct chn as [chn |]; [destruct stack |]; reflexivity.
Qed.

Lemma insertStackItem_trailingBreak i ty attrs c :
  trailingBreak (insertStackItem editor i ty attrs c) = trailingBreak c.
Proof.
  unfold insertStackItem. destruct (rev (activeStack c) !! i) as [active |]; [| reflexivity].
  destruct (_ && _); [reflexivity |]. cbn. apply collapseStack_trailingBreak.
Qed.

Lemma insertKey_trailingBreak attrs c i name :
  trailingBreak (fst (insertKey editor attrs (c, i) name)) = trailingBreak c.
Proof.
  unfold insertKey. destruct (formats_get editor name) as [ty |]; [| reflexivity].
  destruct (fmt_render (formatAt editor ty)); [| reflexivity].
  apply insertStackItem_trailingBreak.
Qed.

Lemma insertKeys_trailingBreak attrs keys :
  forall c i,
    trailingBreak (fst (fold_left (insertKey editor attrs) keys (c, i))) = trailingBreak c.
Proof.
  induction keys as [| name keys IH]; intros c i; [reflexivity |].
  cbn [fold_left]. destruct (insertKey editor attrs (c, i) name) as [c' i'] eqn:E.
  rewrite IH. change c' with (fst (c', i')). rewrite <- E. apply insertKey_trailingBreak.
Qed.

Lemma opChildren_flag prev op next tb :
  snd (opChildren editor prev op next tb) = snd (opChildren editor None op None tb).
Proof.
  unfold opChildren. destruct (insert op) as [s | o |]; reflexivity.
Qed.

Lemma renderOp_trailingBreak prev op next c :
  trailingBreak (renderOp editor prev op next c)
  = snd (opChildren editor None op None (trailingBreak c)).
Proof.
  rewrite <- (opChildren_flag prev op next). unfold renderOp.
  destruct (opChildren editor prev op next (trailingBreak c)) as [chn tb]. cbn [snd].
  destruct (attributes op) as [attrs |].
  - pose proof (insertKeys_trailingBreak attrs
                  (sort_by_priority (formats_priority editor) (attr_keys attrs))
                  (mkComposer (inlineChildren c) tb (activeStack c)) 0) as H.
    destruct (fold_left _ _ _) as [c' i']. cbn [fst] in H.
    destruct (activeStack c'); exact H.
  - cbn. apply collapseStack_trailingBreak.
Qed.

Lemma renderOps_trailingBreak ops :
  forall prev c,
    trailingBreak (renderOps editor prev ops c)
    = fold_left (fun tb op => snd (opChildren editor None op None tb)) ops (trailingBreak c).
Proof.
  induction ops as [| op rest IH]; intros prev c; [reflexivity |].
  cbn [renderOps fold_left]. rewrite IH, renderOp_trailingBreak. reflexivity.
Qed.

Lemma appendsBreak_fold delta :
  appendsBreak editor delta
  = fold_left (fun tb op => snd (opChildren editor None op None tb)) delta true.
Proof.
  unfold appendsBreak, finalComposer.
  destruct (0 <? _); [rewrite collapseStack_trailingBreak |];
    apply (renderOps_trailingBreak delta None (mkComposer [] true [])).
Qed.

Lemma appendsBreak_snoc ops op :
  appendsBreak editor (ops ++ [op])
  = snd (opChildren editor None op None (appendsBreak editor ops)).
Proof. rewrite !appendsBreak_fold, fold_left_app. reflexivity. Qed.

(** X8: whether [renderInline] appends the trailing break [BR] depends on
    the insertions only, not on the formats or on the stack: an empty line
    renders to the break alone; after a last operation that inserts text
    no break is appended; after a last operation that inserts a rendered
    embed the break is appended when the embed is named [br], is not
    appended when the embed fills its line, and is decided by the
    operations before a [noFill] embed; an operation that pushes no child
    never changes the decision. *)
Theorem renderInline_trailing_break :
  (forall delta,
     renderInline editor delta
     = inlineBody editor delta ++ if appendsBreak editor delta then [VElem BR] else [])
  /\ renderInline editor [] = [VElem BR]
  /\ (forall ops s a, appendsBreak editor (ops ++ [mkOp (InsText s) a]) = false)
  /\ (forall ops o a embed r,
        embeds_findByAttributes editor o = Some embed ->
        embed_render embed = Some r ->
        appendsBreak editor (ops ++ [mkOp (InsEmbed o) a])
        = if bool_decide (embed_name embed = "br") then true
          else if noFill embed then appendsBreak editor ops else false)
  /\ (forall ops op,
        fst (opChildren editor None op None true) = [] ->
        appendsBreak editor (ops ++ [op]) = appendsBreak editor ops).
Proof.
  split.
  { intros delta. unfold renderInline, inlineBody, appendsBreak, finalComposer.
    destruct (trailingBreak _); [reflexivity | rewrite app_nil_r; reflexivity]. }
  split; [reflexivity |].
  split.
  { intros ops s a. rewrite appendsBreak_snoc. reflexivity. }
  split.
  { intros ops o a embed r He Hr. rewrite appendsBreak_snoc. unfold opChildren.
    cbn [insert]. rewrite He, Hr. cbn [snd].
    destruct (bool_decide (embed_name embed = "br")); [reflexivity |].
    destruct (noFill embed); reflexivity. }
  intros ops op Hnone. rewrite appendsBreak_snoc. revert Hnone. unfold opChildren.
  destruct (insert op) as [s | o |]; [discriminate | | reflexivity].
  destruct (embeds_findByAttributes editor o) as [embed |]; [| reflexivity].
  destruct (embed_render embed); [discriminate | reflexivity].
Qed.

(** *** The stack *)

Lemma collapseLoop_suffix from stack :
  forall chn, exists k, fst (collapseLoop editor from stack chn) = drop k stack.
Proof.
  induction stack as [| item rest IH]; intros chn.
  - exists 0. reflexivity.
  - cbn [collapseLoop]. destruct (from <? length (item :: rest)); [| exists 0; reflexivity].
    destruct (fmt_render (formatAt editor (item_type item))) as [r |];
      [| exists 1; reflexivity].
    destruct (r (item_attributes item) (combineChildren (item_content item) chn)) as [node |].
    + destruct (IH (Some [VElem node])) as [k Hk]. exists (S k). exact Hk.
    + destruct (IH (Some (combineChildren (item_content item) chn))) as [k Hk].
      exists (S k). exact Hk.
Qed.

Lemma collapseStack_renderable from c :
  stack_renderable editor (activeStack c) ->
  stack_renderable editor (activeStack (collapseStack editor from c)).
Proof.
  intros Hc. unfold collapseStack.
  destruct (collapseLoop_suffix from (activeStack c) None) as [k Hk].
  destruct (collapseLoop editor from (activeStack c) None) as [stack chn]. cbn [fst] in Hk.
  assert (stack_renderable editor stack) as Hs by (rewrite Hk; apply Forall_drop; exact Hc).
  destruct chn as [chn |]; [| exact Hs].
  destruct stack as [| last rest]; [constructor |].
  inversion Hs; subst. constructor; assumption.
Qed.

Lemma insertStackItem_renderable i ty attrs c :
  is_Some (fmt_render (formatAt editor ty)) ->
  stack_renderable editor (activeStack c) ->
  stack_renderable editor (activeStack (insertStackItem editor i ty attrs c)).
Proof.
  intros Hty Hc. unfold insertStackItem.
  destruct (rev (activeStack c) !! i) as [active |].
  - destruct (_ && _); [exact Hc |]. constructor; [exact Hty |].
    apply collapseStack_renderable. exact Hc.
  - constructor; [exact Hty | exact Hc].
Qed.

Lemma insertKeys_renderable attrs keys :
  forall c i,
    stack_renderable editor (activeStack c) ->
    stack_renderable editor (activeStack (fst (fold_left (insertKey editor attrs) keys (c, i)))).
Proof.
  induction keys as [| name keys IH]; intros c i Hc; [exact Hc |].
  cbn [fold_left]. unfold insertKey at 2.
  destruct (formats_get editor name) as [ty |]; [| apply IH; exact Hc].
  destruct (fmt_render (formatAt editor ty)) as [r |] eqn:Hr; [| apply IH; exact Hc].
  apply IH. apply insertStackItem_renderable; [rewrite Hr; eauto | exact Hc].
Qed.

Lemma renderOp_renderable prev op next c :
  stack_renderable editor (activeStack c) ->
  stack_renderable editor (activeStack (renderOp editor prev op next c)).
Proof.
  intros Hc. unfold renderOp.
  destruct (opChildren editor prev op next (trailingBreak c)) as [chn tb].
  destruct (attributes op) as [attrs |].
  - pose proof (insertKeys_renderable attrs
                  (sort_by_priority (formats_priority editor) (attr_keys attrs))
                  (mkComposer (inlineChildren c) tb (activeStack c)) 0 Hc) as H.
    destruct (fold_left _ _ _) as [c' i']. cbn [fst] in H.
    destruct (activeStack c') as [| last rest] eqn:E; [rewrite E; constructor |].
    inversion H; subst. constructor; assumption.
  - cbn [activeStack]. apply collapseStack_renderable. exact Hc.
Qed.

Lemma renderOps_renderable ops :
  forall prev c,
    stack_renderable editor (activeStack c) ->
    stack_renderable editor (activeStack (renderOps editor prev ops c)).
Proof.
  induction ops as [| op rest IH]; intros prev c Hc; [exact Hc |].
  cbn [renderOps]. apply IH. apply renderOp_renderable. exact Hc.
Qed.

Lemma collapseLoop_all stack :
  stack_renderable editor stack ->
  forall chn, fst (collapseLoop editor 0 stack chn) = [].
Proof.
  induction 1 as [| item rest [r Hr] Hrest IH]; intros chn; [reflexivity |].
  cbn [collapseLoop length Nat.ltb Nat.leb]. rewrite Hr.
  destruct (r (item_attributes item) (combineChildren (item_content item) chn)); apply IH.
Qed.

Lemma collapseStack_all c :
  stack_renderable editor (activeStack c) ->
  activeStack (collapseStack editor 0 c) = [].
Proof.
  intros Hc. unfold collapseStack.
  pose proof (collapseLoop_all _ Hc None) as H.
  destruct (collapseLoop editor 0 (activeStack c) None) as [stack chn]. cbn [fst] in H.
  subst stack. destruct chn; reflexivity.
Qed.

(** X9: while a line is composed, every frame on the stack is of a format
    that has a render function (no other is ever pushed), so that
    [collapseStack()] always empties the stack: an operation without
    attributes leaves no frame open, and none is left at the end. *)
Theorem stack_frames_render (prev : option Op) (ops : list Op) :
  let c := renderOps editor prev ops (mkComposer [] true []) in
  stack_renderable editor (activeStack c)
  /\ activeStack (collapseStack editor 0 c) = []
  /\ (forall op next, attributes op = None ->
                      activeStack (renderOp editor (last ops) op next c) = [])
  /\ activeStack (finalComposer editor ops) = [].
Proof.
  cbv zeta.
  assert (forall p, stack_renderable editor
                      (activeStack (renderOps editor p ops (mkComposer [] true [])))) as Hc.
  { intros p. apply renderOps_renderable. constructor. }
  split; [apply Hc |]. split; [apply collapseStack_all, Hc |]. split.
  - intros op next Ha. unfold renderOp.
    destruct (opChildren editor (last ops) op next _) as [chn tb]. rewrite Ha.
    cbn [activeStack]. apply collapseStack_all. cbn [activeStack]. apply Hc.
  - unfold finalComposer.
    destruct (0 <? length (activeStack (renderOps editor None ops (mkComposer [] true []))))
      eqn:Hlen.
    + apply collapseStack_all, Hc.
    + apply Nat.ltb_ge in Hlen.
      destruct (activeStack (renderOps editor None ops (mkComposer [] true [])));
        [reflexivity | cbn in Hlen; lia].
Qed.

End InlineMore.

(** ** The type cache, the nodes of units, and the life cycle of a render *)

Section RenderMore.
Variable editor : Editor.

(** X10: [getLineType] caches by the attributes object of the line. After
    a call, the same line and every line that shares its attributes
    object get the same type without any further change of the state; no
    call changes the type that any line resolves to, or anything but the
    type cache, which only grows; when the cache holds nothing for the
    attributes object the type is the one the typeset finds. *)
Theorem getLineType_caches (st : State) (line : LineRef) :
  let t := fst (getLineType editor st line) in
  let st' := snd (getLineType editor st line) in
  (forall l', line_attributes (lineAt editor l') = line_attributes (lineAt editor line) ->
              getLineType editor st' l' = (t, st'))
  /\ (forall l', resolve editor st' l' = resolve editor st l')
  /\ linesType st ⊆ linesType st'
  /\ (linesType st !! line_attributes (lineAt editor line) = None ->
      t = lines_findByAttributes editor (attrsOf editor line))
  /\ arrays st' = arrays st /\ datas st' = datas st
  /\ linesMultiples st' = linesMultiples st /\ linesCombined st' = linesCombined st.
Proof.
  cbv zeta. split.
  { intros l' Hl'. unfold getLineType. rewrite Hl'.
    destruct (linesType st !! line_attributes (lineAt editor line)) as [t |] eqn:Hc;
      cbn [fst snd].
    - rewrite Hc. reflexivity.
    - cbn [set_linesType linesType]. rewrite lookup_insert_eq. reflexivity. }
  split; [intros l'; apply getLineType_resolve |].
  split; [apply getLineType_types_mono |].
  split.
  { intros Hc. unfold getLineType. rewrite Hc. reflexivity. }
  split; [apply getLineType_arrays |]. split; [apply getLineType_datas |].
  split; [apply getLineType_linesMultiples | apply getLineType_linesCombined].
Qed.

(** *** The nodes of the units *)

Lemma renderLine_key st e n :
  fst (renderLine editor st e) = Ok n ->
  exists line0, head (members st e) = Some line0
                /\ key n = Some (id (lineAt editor line0)).
Proof.
  destruct e as [l | a]; cbn [renderLine members].
  - rewrite renderSingleLine_eq. cbn [fst].
    destruct (lt_render _) as [r |]; [| discriminate].
    intros H. inversion H. exists l. split; reflexivity.
  - rewrite renderMultiLine_eq. destruct (readArr st a) as [| line0 rest]; [discriminate |].
    cbn [fst]. destruct (renderMultiple _) as [r |]; [| discriminate].
    intros H. inversion H. exists line0. split; reflexivity.
Qed.

Lemma renderAll_lookup st us :
  forall nodes i e,
    renderAll editor st us = Ok nodes -> us !! i = Some e ->
    exists n, nodes !! i = Some n /\ fst (renderLine editor st e) = Ok n.
Proof.
  induction us as [| u us IH]; intros nodes i e H Hi; [discriminate |].
  cbn [renderAll] in H.
  destruct (fst (renderLine editor st u)) as [node | msg] eqn:Hu; [| discriminate].
  destruct (renderAll editor st us) as [nodes' | msg]; [| discriminate].
  inversion H; subst nodes. destruct i as [| i]; cbn in Hi |- *.
  - inversion Hi; subst e. exists node. split; [reflexivity | exact Hu].
  - apply (IH nodes' i e eq_refl Hi).
Qed.

(** X11: when [renderCombined] succeeds there is one node for each unit,
    in order; the node of a unit is the one [renderLine] gives for it in
    the state before the call, and its key is the id of the first line of
    the unit; the heap and the caches other than the type cache are left
    as they are. *)
Theorem renderCombined_nodes (st st' : State) (units : list CombinedEntry)
    (nodes : list VNode) :
  renderCombined editor st units = (Ok nodes, st') ->
  length nodes = length units
  /\ (forall i e, units !! i = Some e ->
        exists n line0,
          nodes !! i = Some n
          /\ fst (renderLine editor st e) = Ok n
          /\ head (members st e) = Some line0
          /\ key n = Some (id (lineAt editor line0)))
  /\ arrays st' = arrays st /\ datas st' = datas st
  /\ linesCombined st' = linesCombined st.
Proof.
  intros H.
  pose proof (renderCombined_fst editor units st) as Hfst. rewrite H in Hfst. cbn [fst] in Hfst.
  symmetry in Hfst.
  destruct (renderCombined_effect editor units st) as (Harr & Hd & Hlc & _).
  rewrite H in Harr, Hd, Hlc. cbn [snd] in Harr, Hd, Hlc.
  split; [apply (renderAll_length editor st); exact Hfst |].
  split; [| repeat split; assumption].
  intros i e Hi. destruct (renderAll_lookup st units nodes i e Hfst Hi) as (n & Hn & Hr).
  destruct (renderLine_key st e n Hr) as (line0 & Hhead & Hkey).
  exists n, line0. repeat split; assumption.
Qed.

(** *** The life cycle *)

Lemma setLineNodesRanges_view st v :
  let v' := snd (setLineNodesRanges editor st v) in
  doc v' = doc v /\ childNodes v' = childNodes v /\ events v' = events v.
Proof.
  unfold setLineNodesRanges. destruct (combineLines editor st (doc_lines (doc v))) as [d s1].
  repeat split.
Qed.

(** What [render] leaves, by its outcome. *)
Lemma render_outcome (st : State) (v : View) (d : TextDocument) :
  let v' := snd (snd (render editor st v d)) in
  match fst (render editor st v d) with
  | Throw msg =>
      fst (renderDoc editor st d) = Throw msg
      /\ v' = mkView (doc v) (childNodes v) (nodeRanges v) (events v ++ ["rendering"])
  | Ok _ =>
      fst (renderDoc editor st d) = Ok (childNodes v')
      /\ doc v' = doc v
      /\ events v' = events v ++ ["rendering"; "render"; "rendered"]
  end.
Proof.
  cbv zeta. unfold render.
  destruct (renderDoc editor st d) as [[vnodes | msg] s1]; cbn [fst snd].
  - cbn [patch dispatchEvent doc childNodes nodeRanges events].
    set (v1 := mkView (doc v) vnodes (nodeRanges v) (events v ++ ["rendering"])).
    destruct (setLineNodesRanges_view s1 v1) as (Hd & Hc & He).
    destruct (setLineNodesRanges editor s1 v1) as [s2 v2].
    cbn [fst snd dispatchEvent doc childNodes nodeRanges events] in *.
    rewrite Hc, Hd, He. unfold v1. cbn. rewrite <- !app_assoc. repeat split.
  - split; reflexivity.
Qed.

(** A [render] that succeeds, step by step. *)
Lemma render_steps (st : State) (v : View) (d : TextDocument) vnodes s1 :
  renderDoc editor st d = (Ok vnodes, s1) ->
  let v1 := mkView (doc v) vnodes (nodeRanges v) (events v ++ ["rendering"]) in
  render editor st v d
  = (Ok tt, (fst (setLineNodesRanges editor s1 v1),
             dispatchEvent "rendered"
               (dispatchEvent "render" (snd (setLineNodesRanges editor s1 v1))))).
Proof.
  intros Hd. cbv zeta. unfold render. rewrite Hd.
  cbn [patch dispatchEvent doc childNodes nodeRanges events].
  destruct (setLineNodesRanges editor s1 _) as [s2 v2]. reflexivity.
Qed.

(** X12: [render] dispatches [rendering] first. When a unit cannot be
    rendered the error of [renderDoc] is the outcome, the tree and the
    ranges are left as they were, and nothing more is dispatched.
    Otherwise the tree is replaced by the nodes of [renderDoc], the
    ranges are replaced by those that [setLineNodesRanges] computes for
    the new tree, in the state that [renderDoc] leaves, and [render] and
    [rendered] are dispatched after [rendering], in this order. *)
Theorem render_life_cycle (st : State) (v : View) (d : TextDocument) :
  let v' := snd (snd (render editor st v d)) in
  (forall msg, fst (render editor st v d) = Throw msg ->
               fst (renderDoc editor st d) = Throw msg
               /\ childNodes v' = childNodes v /\ nodeRanges v' = nodeRanges v
               /\ events v' = events v ++ ["rendering"])
  /\ (fst (render editor st v d) = Ok tt ->
      let shown := mkView (doc v) (childNodes v') (nodeRanges v)
                     (events v ++ ["rendering"]) in
      let indexed := setLineNodesRanges editor (snd (renderDoc editor st d)) shown in
      fst (renderDoc editor st d) = Ok (childNodes v')
      /\ doc v' = doc v
      /\ events v' = events v ++ ["rendering"; "render"; "rendered"]
      /\ nodeRanges v' = nodeRanges (snd indexed)
      /\ fst (snd (render editor st v d)) = fst indexed).
Proof.
  cbv zeta. pose proof (render_outcome st v d) as H. cbv zeta in H. split.
  - intros msg Hm. rewrite Hm in H. destruct H as [Hd ->]. repeat split. exact Hd.
  - intros Hok. rewrite Hok in H. destruct H as (Hd & Hdoc & Hev).
    split; [exact Hd |]. split; [exact Hdoc |]. split; [exact Hev |].
    clear Hdoc Hev Hok.
    destruct (renderDoc editor st d) as [[vnodes | msg] s1] eqn:Hrd; cbn [fst snd] in *;
      [| discriminate Hd].
    inversion Hd as [Hc]. rewrite <- Hc.
    rewrite (render_steps st v d vnodes s1 Hrd). cbn [fst snd].
    split; reflexivity.
Qed.

Lemma js_slice_0_0 {A} (l : list A) : js_slice l 0 0 = [].
Proof.
  unfold js_slice. change (0 <? 0)%Z with false. cbv iota zeta.
  rewrite Z.sub_diag. reflexivity.
Qed.

(** X13: when the old and the new document hold the same array of lines,
    nothing has changed and both windows are empty: [renderChanges] does
    what the full [render] of the new document does. *)
Theorem renderChanges_same_lines (st : State) (v : View) (oldDoc newDoc : TextDocument) :
  doc_lines oldDoc = doc_lines newDoc ->
  renderChanges editor st v oldDoc newDoc = render editor st v newDoc.
Proof.
  intros Hlines. unfold renderChanges. rewrite Hlines.
  pose proof (combineLines_cached editor st (doc_lines newDoc)) as Hc.
  destruct (combineLines editor st (doc_lines newDoc)) as [d1 s1] eqn:E1. cbn [fst snd] in Hc.
  rewrite (combineLines_hit editor s1 _ d1 Hc).
  rewrite (getChangedRanges_all_same s1 _ _ (Forall2_isSame_refl s1 _)).
  cbn [expandRanges]. rewrite bool_decide_eq_true_2 by reflexivity. cbn [negb fst snd].
  rewrite !js_slice_0_0. cbn [length Nat.eqb andb].
  unfold render, renderDoc. rewrite E1, (combineLines_hit editor s1 _ d1 Hc). reflexivity.
Qed.

(** In [renderChanges], whichever way it takes. *)
Lemma renderChanges_events st v oldDoc newDoc :
  let v' := snd (snd (renderChanges editor st v oldDoc newDoc)) in
  match fst (renderChanges editor st v oldDoc newDoc) with
  | Throw _ => v' = mkView (doc v) (childNodes v) (nodeRanges v) (events v ++ ["rendering"])
  | Ok _ => doc v' = doc v /\ events v' = events v ++ ["rendering"; "render"; "rendered"]
  end.
Proof.
  cbv zeta. unfold renderChanges.
  destruct (combineLines editor st (doc_lines oldDoc)) as [dOld s1].
  destruct (combineLines editor s1 (doc_lines newDoc)) as [dNew s2].
  destruct (expandRanges _ _ _ _) as [oldRange newRange].
  destruct ((length _ =? 0) && (length _ =? 0)).
  - pose proof (render_outcome s2 v newDoc) as H. cbv zeta in H.
    destruct (fst (render editor s2 v newDoc)); tauto.
  - destruct (renderCombined editor s2 _) as [[vnodes | msg] s3]; cbn [fst snd];
      [| reflexivity].
    cbn [dispatchEvent doc childNodes nodeRanges events].
    set (v1 := mkView (doc v) _ (nodeRanges v) (events v ++ ["rendering"])).
    destruct (setLineNodesRanges_view s3 v1) as (Hd & Hc & He).
    destruct (setLineNodesRanges editor s3 v1) as [s4 v4].
    cbn [fst snd dispatchEvent doc childNodes nodeRanges events] in *.
    rewrite Hd, He. unfold v1. cbn. rewrite <- !app_assoc. repeat split.
Qed.

(** X14: [renderChanges] dispatches [rendering], [render] and [rendered],
    once each and in this order, whether it patches a window or falls
    back to the full render; when a unit cannot be rendered only
    [rendering] has been dispatched, and the tree and the ranges are as
    they were. *)
Theorem renderChanges_life_cycle (st : State) (v : View) (oldDoc newDoc : TextDocument) :
  let v' := snd (snd (renderChanges editor st v oldDoc newDoc)) in
  (forall msg, fst (renderChanges editor st v oldDoc newDoc) = Throw msg ->
               childNodes v' = childNodes v /\ nodeRanges v' = nodeRanges v
               /\ events v' = events v ++ ["rendering"])
  /\ (fst (renderChanges editor st v oldDoc newDoc) = Ok tt ->
      doc v' = doc v /\ events v' = events v ++ ["rendering"; "render"; "rendered"]).
Proof.
  cbv zeta. pose proof (renderChanges_events st v oldDoc newDoc) as H. cbv zeta in H.
  split.
  - intros msg Hm. rewrite Hm in H. rewrite H. repeat split.
  - intros Hok. rewrite Hok in H. exact H.
Qed.

(** X15: grouping and rendering write to no array that exists: a call of
    [combineLines] leaves every allocated array as it is, never replaces
    an entry of the type cache, of the result cache or a result object,
    and does not change the type any line resolves to; [renderCombined]
    leaves the heap, the results and the result cache untouched. *)
Theorem grouping_keeps_the_heap (st : State) (lines : ArrRef) (units : list CombinedEntry) :
  let st' := snd (combineLines editor st lines) in
  let st'' := snd (renderCombined editor st units) in
  (forall a, is_Some (arrays st !! a) -> arrays st' !! a = arrays st !! a)
  /\ datas st ⊆ datas st'
  /\ linesType st ⊆ linesType st'
  /\ linesCombined st ⊆ linesCombined st'
  /\ (forall l, resolve editor st' l = resolve editor st l)
  /\ arrays st'' = arrays st /\ datas st'' = datas st
  /\ linesCombined st'' = linesCombined st
  /\ (forall l, resolve editor st'' l = resolve editor st l).
Proof.
  cbv zeta.
  destruct (combineLines_effect editor st lines) as (H1 & H2 & H3 & H4 & H5).
  destruct (renderCombined_effect editor units st) as (H6 & H7 & H8 & H9).
  repeat split; assumption.
Qed.

(** X16: the soundness of the result cache (every cached result groups
    the kept lines of its array, in order, into units that are not empty,
    and the types of the lines are cached) holds when nothing is cached
    and is kept by [combineLines], [renderCombined], [render] and
    [renderChanges] on arrays that exist. *)
Theorem caches_stay_sound (st : State) (v : View) (oldDoc newDoc : TextDocument)
    (units : list CombinedEntry) :
  caches_ok editor st ->
  is_Some (arrays st !! doc_lines oldDoc) ->
  is_Some (arrays st !! doc_lines newDoc) ->
  is_Some (arrays st !! doc_lines (doc v)) ->
  caches_ok editor (snd (combineLines editor st (doc_lines newDoc)))
  /\ caches_ok editor (snd (renderCombined editor st units))
  /\ caches_ok editor (fst (snd (render editor st v newDoc)))
  /\ caches_ok editor (fst (snd (renderChanges editor st v oldDoc newDoc))).
Proof.
  intros Hok Ho Hn Hv.
  split; [apply caches_ok_combineLines; assumption |].
  split; [apply caches_ok_renderCombined; assumption |].
  split; [apply caches_ok_render; assumption |].
  apply caches_ok_renderChanges; assumption.
Qed.

(** X17: after a [render] that succeeds, from sound caches, the result
    for the lines of the document is cached and the tree shows exactly
    the nodes of its units: the state in which an incremental render may
    follow. *)
Theorem render_shows_cached_units (st : State) (v : View) (d : TextDocument) :
  caches_ok editor st ->
  is_Some (arrays st !! doc_lines d) ->
  is_Some (arrays st !! doc_lines (doc v)) ->
  fst (render editor st v d) = Ok tt ->
  let st' := fst (snd (render editor st v d)) in
  let v' := snd (snd (render editor st v d)) in
  exists dd,
    linesCombined st' !! doc_lines d = Some dd
    /\ fst (renderCombined editor st' (combined (readData st' dd))) = Ok (childNodes v')
    /\ caches_ok editor st'.
Proof.
  intros Hok Hd Hv Hr. cbv zeta.
  destruct (render_screen editor st v d Hok Hd Hv Hr) as (dd & Hc & Hn).
  exists dd. split; [exact Hc |]. split; [exact Hn |].
  apply caches_ok_render; assumption.
Qed.

End RenderMore.

(** ** The line grouper, step by step *)

Section StepMore.
Variable editor : Editor.

Lemma closesGroup_fst st type sc c0 next :
  fst (closesGroup editor st type sc c0 next)
  = closesAfter editor (resolve editor st) type sc c0 next.
Proof.
  unfold closesGroup, closesAfter. destruct next as [n |]; [| reflexivity].
  unfold resolve. destruct (getLineType editor st n) as [tn st1]. cbn [fst].
  destruct (bool_decide (tn = type)); reflexivity.
Qed.

Lemma closesAfter_ext R R' type sc c0 next :
  (forall l, R l = R' l) ->
  closesAfter editor R type sc c0 next = closesAfter editor R' type sc c0 next.
Proof. intros H. unfold closesAfter. destruct next; [rewrite H |]; reflexivity. Qed.

(** What one step of the loop does, under the invariant. *)
Lemma combineStep_shape st0 done line rest g :
  GroupInv editor st0 done (line :: rest) g ->
  let st := g_state g in
  let c := g_collect g in
  let g' := combineStep editor g line (head rest) in
  let st' := g_state g' in
  let coll := readArr st c ++ [line] in
  let c0 := hd line coll in
  (forall e, e ∈ g_combined g -> members st' e = members st e)
  /\ match shouldCombine (lineTypeAt editor (resolve editor st0 line)) with
     | Some sc =>
         if closesAfter editor (resolve editor st0) (resolve editor st0 line) sc c0 (head rest)
         then exists r,
             g_combined g' = g_combined g ++ [EArr r]
             /\ readArr st' r = coll
             /\ readArr st' (g_collect g') = []
             /\ g_byKey g' = <[id (lineAt editor c0) := EArr r]> (g_byKey g)
             /\ ((linesMultiples st !! c0 = Some r
                  /\ linesMultiples st' = linesMultiples st)
                 \/ (r = c
                     /\ linesMultiples st' = <[c0 := c]> (linesMultiples st)
                     /\ forall last, linesMultiples st !! c0 = Some last ->
                                     last <> c -> readArr st last <> coll))
         else g_combined g' = g_combined g /\ g_byKey g' = g_byKey g
              /\ g_collect g' = c /\ readArr st' c = coll
              /\ linesMultiples st' = linesMultiples st
     | None =>
         readArr st c = [] /\ g_collect g' = c /\ readArr st' c = []
         /\ linesMultiples st' = linesMultiples st
         /\ match lt_render (lineTypeAt editor (resolve editor st0 line)) with
            | Some _ =>
                g_combined g' = g_combined g ++ [ELine line]
                /\ g_byKey g' = <[id (lineAt editor line) := ELine line]> (g_byKey g)
            | None => g_combined g' = g_combined g /\ g_byKey g' = g_byKey g
            end
     end.
Proof.
  intros Inv. cbv zeta. destruct Inv as [HR HF HA HH HD HC HU HP HO HCo].
  set (c := g_collect g) in *. set (st := g_state g) in *.
  assert (resolve editor st line = resolve editor st0 line) as Hty by apply HR.
  rewrite <- Hty.
  assert (forall st' c', (forall a, a <> c -> is_Some (arrays st !! a) ->
                            arrays st' !! a = arrays st !! a /\ a <> c') ->
            forall e, e ∈ g_combined g -> members st' e = members st e) as Hmembers.
  { intros st' c' Hframe e He.
    destruct (units_frame editor st0 st st' c c' (g_combined g) Hframe HU) as [_ Hmem].
    apply list_elem_of_lookup in He as [i Hi].
    assert (map (members st') (g_combined g) !! i = map (members st) (g_combined g) !! i) as Hm
      by (rewrite Hmem; reflexivity).
    rewrite !list_lookup_fmap, Hi in Hm. cbn in Hm. inversion Hm. reflexivity. }
  destruct (shouldCombine (lineTypeAt editor (resolve editor st line))) as [sc |] eqn:Hsc.
  - rewrite (combineStep_combinable editor g line (head rest) sc Hsc). cbv zeta.
    fold st c.
    set (st1 := snd (getLineType editor st line)).
    set (st2 := pushArr st1 c line).
    assert (readArr st2 c = readArr st c ++ [line]) as Hc2.
    { unfold st2. rewrite readArr_pushArr_eq. unfold st1. rewrite readArr_getLineType.
      reflexivity. }
    rewrite Hc2.
    set (coll := readArr st c ++ [line]) in *. set (c0 := hd line coll).
    set (cl := closesGroup editor st2 (resolve editor st line) sc c0 (head rest)).
    set (st3 := snd cl).
    assert (fst cl = closesAfter editor (resolve editor st0) (resolve editor st line) sc c0
                       (head rest)) as Hcl.
    { unfold cl. rewrite closesGroup_fst. apply closesAfter_ext. intros l.
      rewrite (resolve_linesType editor st2 st1) by reflexivity.
      unfold st1. rewrite getLineType_resolve. apply HR. }
    rewrite <- Hcl.
    assert (arrays st3 = <[c := coll]> (arrays st)) as Harr3.
    { unfold st3, cl. rewrite closesGroup_arrays. unfold st2, pushArr. cbn [arrays].
      unfold st1. rewrite readArr_getLineType, getLineType_arrays. reflexivity. }
    assert (linesMultiples st3 = linesMultiples st) as Hlm3.
    { unfold st3, cl. rewrite closesGroup_linesMultiples. cbn. unfold st1.
      apply getLineType_linesMultiples. }
    assert (readArr st3 c = coll) as Hc3.
    { unfold readArr at 1. rewrite Harr3, lookup_insert_eq. reflexivity. }
    assert (forall a, a <> c -> arrays st3 !! a = arrays st !! a) as Hother.
    { intros a Ha. rewrite Harr3, lookup_insert_ne by congruence. reflexivity. }
    assert (coll <> []) as Hcne by (unfold coll; destruct (readArr st c); discriminate).
    destruct (fst cl) eqn:Hclosed.
    + set (unit := match linesMultiples st3 !! c0 with
                   | Some last => if decide (readArr st3 last = readArr st3 c)
                                  then Some last else None
                   | None => None
                   end).
      set (collect' := match unit with Some last => last | None => c end).
      set (st4 := match unit with
                  | Some _ => st3
                  | None => set_linesMultiples st3 c0 c
                  end).
      assert (arrays st4 = arrays st3) as Harr4 by (unfold st4; destruct unit; reflexivity).
      assert (readArr st4 collect' = coll) as Hcoll.
      { rewrite (readArr_arrays st4 st3) by exact Harr4. unfold collect', unit.
        destruct (linesMultiples st3 !! c0) as [last |]; [| exact Hc3].
        destruct (decide _) as [Heq | _]; [rewrite Heq |]; exact Hc3. }
      assert (is_Some (arrays st4 !! collect')) as Hcalloc.
      { apply readArr_nonempty_allocated. rewrite Hcoll. exact Hcne. }
      pose proof (newArr_fresh st4) as Hfresh.
      set (c' := fst (newArr st4)) in *.
      assert (arrays (snd (newArr st4)) = <[c' := []]> (arrays st4)) as Harr5 by reflexivity.
      assert (forall a, is_Some (arrays st4 !! a) -> a <> c') as Hne'.
      { intros a [x Hx] ->. rewrite Hfresh in Hx. discriminate. }
      assert (forall a, a <> c -> is_Some (arrays st !! a) ->
                arrays (snd (newArr st4)) !! a = arrays st !! a /\ a <> c') as Hframe.
      { intros a Ha Hsome.
        assert (a <> c') as Hac'.
        { apply Hne'. rewrite Harr4, Hother by exact Ha. exact Hsome. }
        split; [| exact Hac'].
        rewrite Harr5, lookup_insert_ne by congruence.
        rewrite Harr4. apply Hother. exact Ha. }
      assert (readArr (snd (newArr st4)) collect' = coll) as Hcoll5.
      { rewrite <- Hcoll. unfold readArr. rewrite Harr5.
        rewrite lookup_insert_ne by (symmetry; apply Hne'; exact Hcalloc). reflexivity. }
      cbn [g_state g_combined g_byKey g_collect].
      split; [apply (Hmembers _ c'); exact Hframe |].
      exists collect'. split; [reflexivity |]. split; [exact Hcoll5 |].
      split; [apply readArr_newArr_eq |].
      split; [rewrite Hcoll; reflexivity |].
      assert (linesMultiples (snd (newArr st4)) = linesMultiples st4) as Hlm5 by reflexivity.
      rewrite Hlm5. unfold collect', st4, unit. rewrite Hlm3.
      destruct (linesMultiples st !! c0) as [last |] eqn:Hmemo.
      * destruct (decide (readArr st3 last = readArr st3 c)) as [Heq | Hneq].
        -- left. split; [reflexivity | exact Hlm3].
        -- right. split; [reflexivity |]. cbn [set_linesMultiples linesMultiples].
           rewrite Hlm3. split; [reflexivity |].
           intros last' Hlast' Hlc. inversion Hlast'; subst last'.
           intros Heq. apply Hneq. rewrite Hc3, <- Heq. unfold readArr.
           rewrite Hother by exact Hlc. reflexivity.
      * right. split; [reflexivity |]. cbn [set_linesMultiples linesMultiples].
        rewrite Hlm3. split; [reflexivity |]. intros last' Hlast'. discriminate Hlast'.
    + cbn [g_state g_combined g_byKey g_collect].
      split.
      { apply (Hmembers _ c). intros a Ha _. split; [apply Hother; exact Ha | exact Ha]. }
      repeat split; [exact Hc3 | exact Hlm3].
  - assert (readArr st c = []) as Hempty.
    { destruct (readArr st c) as [| x xs] eqn:Hc; [reflexivity |].
      destruct HO as (n & Hn & Hcn); [discriminate |].
      cbn in Hn. inversion Hn; subst n.
      unfold combinable in Hcn. rewrite <- Hty, Hsc in Hcn. discriminate Hcn. }
    rewrite (combineStep_single editor g line (head rest) Hsc). cbv zeta. fold st c.
    set (st1 := snd (getLineType editor st line)).
    assert (arrays st1 = arrays st) as Harr1 by apply getLineType_arrays.
    assert (linesMultiples st1 = linesMultiples st) as Hlm1 by apply getLineType_linesMultiples.
    assert (forall a, a <> c -> is_Some (arrays st !! a) ->
              arrays st1 !! a = arrays st !! a /\ a <> c) as Hframe.
    { intros a Ha _. rewrite Harr1. split; [reflexivity | exact Ha]. }
    assert (readArr st1 c = []) as Hempty1.
    { rewrite (readArr_arrays st1 st) by exact Harr1. exact Hempty. }
    destruct (lt_render (lineTypeAt editor (resolve editor st line))) as [r |];
      cbn [g_state g_combined g_byKey g_collect];
      (split; [apply (Hmembers _ c); exact Hframe |]); repeat split; assumption.
Qed.

(** Induction along the loop, with the invariant at hand. *)
Lemma combineLoop_induction st0 (P : list LineRef -> list LineRef -> Grouping -> Prop) :
  (forall done line rest g,
      GroupInv editor st0 done (line :: rest) g ->
      P done (line :: rest) g ->
      P (done ++ [line]) rest (combineStep editor g line (head rest))) ->
  forall rest done g,
    GroupInv editor st0 done rest g -> P done rest g ->
    P (done ++ rest) [] (combineLoop editor g rest).
Proof.
  intros Hstep. induction rest as [| line rest IH]; intros done g Inv HP; cbn [combineLoop].
  - rewrite app_nil_r. exact HP.
  - replace (done ++ line :: rest) with ((done ++ [line]) ++ rest)
      by (rewrite <- app_assoc; reflexivity).
    apply IH; [apply combineStep_inv; exact Inv | apply Hstep; assumption].
Qed.

(** A call of [combineLines] that misses the cache, as a run of the loop. *)
Lemma combineLines_run st lines :
  linesCombined st !! lines = None ->
  let g0 := mkGrouping (snd (newArr st)) [] ∅ (fst (newArr st)) in
  let g := combineLoop editor g0 (readArr st lines) in
  GroupInv editor st [] (readArr st lines) g0
  /\ GroupInv editor st (readArr st lines) [] g
  /\ exists d st',
      combineLines editor st lines = (d, st')
      /\ arrays st' = arrays (g_state g)
      /\ linesMultiples st' = linesMultiples (g_state g)
      /\ readData st' d = mkData (g_combined g) (g_byKey g).
Proof.
  intros Hmiss. cbv zeta.
  pose proof (newArr_fresh st) as Hfresh.
  set (c := fst (newArr st)) in *. set (st1 := snd (newArr st)).
  assert (readArr st1 lines = readArr st lines) as Hitems by apply readArr_after_newArr.
  assert (GroupInv editor st [] (readArr st lines) (mkGrouping st1 [] ∅ c)) as Inv0.
  { constructor; cbn [g_state g_collect g_combined].
    - intros l. apply resolve_linesType. reflexivity.
    - exact Hfresh.
    - unfold st1. cbn. fold c. rewrite lookup_insert_eq. eauto.
    - intros a [x Hx]. unfold st1. cbn. fold c. rewrite lookup_insert_ne; [reflexivity |].
      intros Heq. assert (arrays st !! a = None) as Hn by (rewrite <- Heq; exact Hfresh).
      congruence.
    - reflexivity.
    - reflexivity.
    - constructor.
    - unfold st1, c. rewrite readArr_newArr_eq. reflexivity.
    - unfold st1, c. rewrite readArr_newArr_eq. intros H. contradiction H. reflexivity.
    - unfold st1, c. rewrite readArr_newArr_eq. constructor. }
  split; [exact Inv0 |].
  pose proof (combineLoop_inv editor st (readArr st lines) [] _ Inv0) as Inv. cbn [app] in Inv.
  split; [exact Inv |].
  unfold combineLines. rewrite Hmiss. change (newArr st) with (c, st1). cbv iota beta.
  rewrite Hitems.
  set (g := combineLoop editor (mkGrouping st1 [] ∅ c) (readArr st lines)) in *.
  unfold newData. eexists _, _. split; [reflexivity |]. cbn.
  split; [reflexivity |]. split; [reflexivity |].
  unfold readData. cbn. rewrite lookup_insert_eq. reflexivity.
Qed.

End StepMore.

(** ** The grouping that [combineLines] computes *)

Lemma map_ext_elem {A B} (f g : A -> B) (l : list A) :
  (forall x, x ∈ l -> f x = g x) -> map f l = map g l.
Proof.
  induction l as [| a l IH]; intros H; [reflexivity |]. cbn.
  rewrite (H a) by left. rewrite IH; [reflexivity |]. intros x Hx. apply H. right. exact Hx.
Qed.

Section GroupMore.
Variable editor : Editor.

(** *** The units are a function of the lines and of their types *)

Lemma combineLoop_views st0 rest :
  forall done g,
    GroupInv editor st0 done rest g ->
    map (unitView (g_state (combineLoop editor g rest))) (g_combined (combineLoop editor g rest))
    = map (unitView (g_state g)) (g_combined g)
      ++ groupFrom editor (resolve editor st0) (readArr (g_state g) (g_collect g)) rest.
Proof.
  induction rest as [| line rest IH]; intros done g Inv.
  - cbn. rewrite app_nil_r. reflexivity.
  - cbn [combineLoop]. rewrite (IH (done ++ [line]) _ (combineStep_inv editor _ _ _ _ _ Inv)).
    destruct (combineStep_shape editor st0 done line rest g Inv) as [Hmem Hshape].
    cbv zeta in Hmem, Hshape.
    set (g' := combineStep editor g line (head rest)) in *.
    assert (map (unitView (g_state g')) (g_combined g)
            = map (unitView (g_state g)) (g_combined g)) as Hviews.
    { apply map_ext_elem. intros e He. apply unitView_members. apply Hmem. exact He. }
    cbn [groupFrom].
    destruct (shouldCombine (lineTypeAt editor (resolve editor st0 line))) as [sc |].
    + destruct (closesAfter _ _ _ _ _ _).
      * destruct Hshape as (r & Hc & Hr & He & _).
        rewrite Hc, map_app, Hviews, He, <- app_assoc. cbn [map unitView app].
        rewrite Hr. reflexivity.
      * destruct Hshape as (Hc & _ & Hcol & Hr & _).
        rewrite Hc, Hviews, Hcol, Hr. reflexivity.
    + destruct Hshape as (Hempty & Hcol & He & _ & Hshape).
      destruct (lt_render (lineTypeAt editor (resolve editor st0 line))).
      * destruct Hshape as [Hc _].
        rewrite Hc, map_app, Hviews, Hcol, He, Hempty, <- app_assoc. reflexivity.
      * destruct Hshape as [Hc _]. rewrite Hc, Hviews, Hcol, He, Hempty. reflexivity.
Qed.

Lemma combineLines_views st st' lines d :
  linesCombined st !! lines = None ->
  combineLines editor st lines = (d, st') ->
  map (unitView st') (combined (readData st' d))
  = groupFrom editor (resolve editor st) [] (readArr st lines).
Proof.
  intros Hmiss Hcall.
  destruct (combineLines_run editor st lines Hmiss) as (Inv0 & _ & d' & st'' & Hcall' & Harr & _ & Hdata).
  rewrite Hcall in Hcall'. inversion Hcall'; subst d' st''. clear Hcall'.
  rewrite Hdata. cbn [combined].
  rewrite (map_ext _ _ (fun e => unitView_arrays _ _ e Harr)).
  rewrite (combineLoop_views st _ [] _ Inv0). cbn [g_state g_combined g_collect map app].
  rewrite readArr_newArr_eq. reflexivity.
Qed.

Lemma groupFrom_ext (R R' : LineRef -> TypeRef) lines :
  (forall l, R l = R' l) ->
  forall opened, groupFrom editor R opened lines = groupFrom editor R' opened lines.
Proof.
  intros H. induction lines as [| line rest IH]; intros opened; [reflexivity |].
  cbn [groupFrom]. rewrite <- (H line).
  destruct (shouldCombine (lineTypeAt editor (R line))) as [sc |].
  - rewrite (closesAfter_ext editor R R' _ _ _ _ H), !IH. reflexivity.
  - rewrite IH. reflexivity.
Qed.

(** X18: the units that [combineLines] computes are a function of the
    lines of the array and of the types they resolve to: the memo of
    arrays, the heap and the other caches have no influence on which
    lines a unit holds or on the order of the units. So two calls, in any
    two states in which the lines resolve to the same types, on arrays
    that hold the same lines, give units with the same lines. *)
Theorem combineLines_groups_by_type (st st' : State) (lines : ArrRef) (d : DataRef) :
  linesCombined st !! lines = None ->
  combineLines editor st lines = (d, st') ->
  map (unitView st') (combined (readData st' d))
  = groupFrom editor (resolve editor st) [] (readArr st lines)
  /\ forall s s' lines2 d2,
       linesCombined s !! lines2 = None ->
       combineLines editor s lines2 = (d2, s') ->
       readArr s lines2 = readArr st lines ->
       (forall l, resolve editor s l = resolve editor st l) ->
       map (unitView s') (combined (readData s' d2))
       = map (unitView st') (combined (readData st' d)).
Proof.
  intros Hmiss Hcall. split; [exact (combineLines_views st st' lines d Hmiss Hcall) |].
  intros s s' lines2 d2 Hmiss2 Hcall2 Hlines Hres.
  rewrite (combineLines_views st st' lines d Hmiss Hcall).
  rewrite (combineLines_views s s' lines2 d2 Hmiss2 Hcall2), Hlines.
  apply groupFrom_ext. exact Hres.
Qed.

(** *** Array units are uniform *)

Lemma groupFrom_uniform (R : LineRef -> TypeRef) lines :
  forall opened,
    (opened <> [] ->
     exists c0 n sc,
       head opened = Some c0 /\ head lines = Some n
       /\ shouldCombine (lineTypeAt editor (R c0)) = Some sc
       /\ Forall (fun l => R l = R c0) opened /\ R n = R c0
       /\ Forall (fun l => sc (attrsOf editor c0) (attrsOf editor l) = true) (tail opened)
       /\ sc (attrsOf editor c0) (attrsOf editor n) = true) ->
    Forall (uniform editor R) (groupFrom editor R opened lines).
Proof.
  induction lines as [| line rest IH]; intros opened Hopen; [constructor |].
  cbn [groupFrom].
  destruct (shouldCombine (lineTypeAt editor (R line))) as [sc |] eqn:Hsc.
  - set (coll := opened ++ [line]). set (c0 := hd line coll).
    assert (head coll = Some c0
            /\ shouldCombine (lineTypeAt editor (R c0)) = Some sc
            /\ R line = R c0
            /\ Forall (fun l => R l = R c0) coll
            /\ Forall (fun l => sc (attrsOf editor c0) (attrsOf editor l) = true) (tail coll))
      as (Hhead & Hsc0 & Hline & Hty & Hacc).
    { unfold c0, coll. destruct opened as [| o opened'].
      - cbn. repeat split; try assumption; repeat constructor.
      - destruct Hopen as (c0' & n & sc' & Hc0 & Hn & Hsc' & Hall & Hnty & Htl & Hnsc);
          [discriminate |].
        cbn in Hc0, Hn. inversion Hc0; subst c0'. inversion Hn; subst n.
        cbn [app hd head tail]. rewrite Hnty in Hsc. rewrite Hsc in Hsc'.
        inversion Hsc'; subst sc'.
        repeat split; try assumption.
        + rewrite app_comm_cons. apply Forall_app. split; [exact Hall |].
          constructor; [exact Hnty | constructor].
        + cbn [tail] in Htl. apply Forall_app. split; [exact Htl |].
          constructor; [exact Hnsc | constructor]. }
    destruct (closesAfter editor R (R line) sc c0 (head rest)) eqn:Hcl.
    + constructor.
      * unfold uniform. cbn [fst snd]. exists c0, sc. repeat split; assumption.
      * apply IH. intros H. contradiction H. reflexivity.
    + apply IH. intros _. unfold closesAfter in Hcl.
      destruct (head rest) as [n |] eqn:Hn; [| discriminate].
      apply orb_false_iff in Hcl as [Hty' Hsc'].
      apply negb_false_iff, bool_decide_eq_true in Hty'. apply negb_false_iff in Hsc'.
      exists c0, n, sc. repeat split; try assumption. congruence.
  - assert (opened = []) as ->.
    { destruct opened as [| o opened']; [reflexivity |].
      destruct Hopen as (c0' & n & sc' & Hc0 & Hn & Hsc' & _ & Hnty & _); [discriminate |].
      cbn in Hn. inversion Hn; subst n. rewrite Hnty, Hsc' in Hsc. discriminate Hsc. }
    destruct (lt_render (lineTypeAt editor (R line))) as [r |] eqn:Hr.
    + constructor.
      * unfold uniform. cbn [fst snd]. exists line. repeat split; [exact Hsc |].
        rewrite Hr. eauto.
      * apply IH. intros H. contradiction H. reflexivity.
    + apply IH. intros H. contradiction H. reflexivity.
Qed.

(** X19: in the result of [combineLines] the lines of an array unit are
    all of one type, the type of the first line, which declares
    [shouldCombine], and every line after the first was accepted by
    [shouldCombine] against the attributes of the first line; a unit
    that is a single line is of a type that renders and does not declare
    [shouldCombine]. *)
Theorem units_are_uniform (st st' : State) (lines : ArrRef) (d : DataRef) :
  linesCombined st !! lines = None ->
  combineLines editor st lines = (d, st') ->
  (forall a, EArr a ∈ combined (readData st' d) ->
     exists c0 sc,
       head (readArr st' a) = Some c0
       /\ shouldCombine (lineTypeAt editor (resolve editor st c0)) = Some sc
       /\ Forall (fun l => resolve editor st l = resolve editor st c0) (readArr st' a)
       /\ Forall (fun l => sc (attrsOf editor c0) (attrsOf editor l) = true)
                 (tail (readArr st' a)))
  /\ (forall l, ELine l ∈ combined (readData st' d) ->
        shouldCombine (lineTypeAt editor (resolve editor st l)) = None
        /\ is_Some (lt_render (lineTypeAt editor (resolve editor st l)))).
Proof.
  intros Hmiss Hcall.
  pose proof (combineLines_views st st' lines d Hmiss Hcall) as Hviews.
  assert (Forall (uniform editor (resolve editor st))
            (map (unitView st') (combined (readData st' d)))) as Hall.
  { rewrite Hviews. apply groupFrom_uniform. intros H. contradiction H. reflexivity. }
  rewrite Forall_forall in Hall. split.
  - intros a Ha. apply (Hall (unitView st' (EArr a))).
    apply list_elem_of_fmap. exists (EArr a). split; [reflexivity | exact Ha].
  - intros l Hl.
    destruct (Hall (unitView st' (ELine l))) as (l' & Heq & Hsc & Hr).
    { apply list_elem_of_fmap. exists (ELine l). split; [reflexivity | exact Hl]. }
    cbn in Heq. inversion Heq; subst l'. split; assumption.
Qed.

End GroupMore.

(** ** The index by key and the memo of arrays *)

Lemma elem_concat_map {A B} (f : A -> list B) (l : list A) (x : A) (y : B) :
  x ∈ l -> y ∈ f x -> y ∈ concat (map f l).
Proof.
  induction l as [| a l IH]; intros Hx Hy; [inversion Hx |]. cbn.
  apply elem_of_app. apply elem_of_cons in Hx as [<- | Hx]; [left; exact Hy | right; auto].
Qed.

Lemma NoDup_map_parts {A B} (f : A -> B) (l1 l2 : list A) (x y : A) :
  NoDup (map f (l1 ++ l2)) -> x ∈ l1 -> y ∈ l2 -> f x <> f y.
Proof.
  rewrite map_app. intros Hnd Hx Hy Heq. apply NoDup_app in Hnd as (_ & Hdis & _).
  apply (Hdis (f x)).
  - apply list_elem_of_fmap. exists x. split; [reflexivity | exact Hx].
  - rewrite Heq. apply list_elem_of_fmap. exists y. split; [reflexivity | exact Hy].
Qed.

Lemma NoDup_parts {A} (l1 l2 : list A) (x : A) :
  NoDup (l1 ++ l2) -> x ∈ l2 -> x ∉ l1.
Proof.
  intros Hnd Hx Hx1. apply NoDup_app in Hnd as (_ & Hdis & _). exact (Hdis x Hx1 Hx).
Qed.

Lemma head_elem {A} (l : list A) (x : A) : head l = Some x -> x ∈ l.
Proof. destruct l; [discriminate |]. intros H. inversion H. left. Qed.

Lemma hd_snoc {A} (l : list A) (x : A) : head (l ++ [x]) = Some (hd x (l ++ [x])).
Proof. destruct l; reflexivity. Qed.

Section MemoMore.
Variable editor : Editor.

Lemma unitKey_members st st' e :
  members st' e = members st e -> unitKey editor st' e = unitKey editor st e.
Proof. intros H. unfold unitKey. rewrite H. reflexivity. Qed.

(** The lines that are kept, after one more line that is kept. *)
Lemma kept_lines_step st0 done line rest g :
  GroupInv editor st0 done (line :: rest) g ->
  included editor st0 line = true ->
  List.filter (included editor st0) (done ++ [line])
  = concat (map (members (g_state g)) (g_combined g))
    ++ (readArr (g_state g) (g_collect g) ++ [line]).
Proof.
  intros Inv Hincl. rewrite filter_snoc, Hincl, <- (gi_parts _ _ _ _ _ Inv).
  rewrite <- app_assoc. reflexivity.
Qed.

(** *** The index by key *)

Lemma byKey_ok_push st st' units bk e0 k0 :
  (forall e, e ∈ units -> members st' e = members st e) ->
  unitKey editor st' e0 = Some k0 ->
  byKey_ok editor st units bk ->
  byKey_ok editor st' (units ++ [e0]) (<[k0 := e0]> bk).
Proof.
  intros Hmem Hk0 Hok k e Hk. destruct (decide (k = k0)) as [-> | Hne].
  - rewrite lookup_insert_eq in Hk. inversion Hk; subst e.
    split; [apply elem_of_app; right; left | exact Hk0].
  - rewrite lookup_insert_ne in Hk by congruence. destruct (Hok k e Hk) as [He Hkey].
    split; [apply elem_of_app; left; exact He |].
    rewrite (unitKey_members st st' e (Hmem e He)). exact Hkey.
Qed.

Lemma byKey_full_push st st' units bk e0 k0 :
  (forall e, e ∈ units -> members st' e = members st e) ->
  unitKey editor st' e0 = Some k0 ->
  (forall e, e ∈ units -> unitKey editor st e <> Some k0) ->
  byKey_full editor st units bk ->
  byKey_full editor st' (units ++ [e0]) (<[k0 := e0]> bk).
Proof.
  intros Hmem Hk0 Hnew Hfull e He. apply elem_of_app in He as [He | He].
  - destruct (Hfull e He) as (k & Hkey & Hk). exists k.
    rewrite (unitKey_members st st' e (Hmem e He)). split; [exact Hkey |].
    rewrite lookup_insert_ne; [exact Hk |]. intros <-. exact (Hnew e He Hkey).
  - apply list_elem_of_singleton in He. subst e. exists k0.
    split; [exact Hk0 | apply lookup_insert_eq].
Qed.

Lemma byKey_ok_frame st st' units bk :
  (forall e, e ∈ units -> members st' e = members st e) ->
  byKey_ok editor st units bk -> byKey_ok editor st' units bk.
Proof.
  intros Hmem Hok k e Hk. destruct (Hok k e Hk) as [He Hkey]. split; [exact He |].
  rewrite (unitKey_members st st' e (Hmem e He)). exact Hkey.
Qed.

Lemma byKey_full_frame st st' units bk :
  (forall e, e ∈ units -> members st' e = members st e) ->
  byKey_full editor st units bk -> byKey_full editor st' units bk.
Proof.
  intros Hmem Hfull e He. destruct (Hfull e He) as (k & Hkey & Hk). exists k.
  rewrite (unitKey_members st st' e (Hmem e He)). split; assumption.
Qed.

(** The key of a unit that was pushed is the id of a line of a unit. *)
Lemma unitKey_old_line st units e k :
  e ∈ units -> unitKey editor st e = Some k ->
  exists l, l ∈ concat (map (members st) units) /\ k = id (lineAt editor l).
Proof.
  intros He Hkey. unfold unitKey in Hkey.
  destruct (head (members st e)) as [l |] eqn:Hl; [| discriminate].
  cbn in Hkey. inversion Hkey. exists l. split; [| reflexivity].
  apply (elem_concat_map (members st) units e l He). apply head_elem. exact Hl.
Qed.

Lemma combineStep_byKey st0 done line rest g :
  GroupInv editor st0 done (line :: rest) g ->
  let g' := combineStep editor g line (head rest) in
  (byKey_ok editor (g_state g) (g_combined g) (g_byKey g) ->
   byKey_ok editor (g_state g') (g_combined g') (g_byKey g'))
  /\ (NoDup (map (fun l => id (lineAt editor l))
               (List.filter (included editor st0) (done ++ [line]))) ->
      byKey_full editor (g_state g) (g_combined g) (g_byKey g) ->
      byKey_full editor (g_state g') (g_combined g') (g_byKey g')).
Proof.
  intros Inv. cbv zeta.
  destruct (combineStep_shape editor st0 done line rest g Inv) as [Hmem Hshape].
  cbv zeta in Hmem, Hshape.
  pose proof (kept_lines_step st0 done line rest g Inv) as Hkept.
  set (g' := combineStep editor g line (head rest)) in *.
  set (st := g_state g) in *. set (st' := g_state g') in *.
  assert (forall c0 m0,
            NoDup (map (fun l => id (lineAt editor l))
                     (concat (map (members st) (g_combined g)) ++ m0)) ->
            c0 ∈ m0 ->
            forall e, e ∈ g_combined g -> unitKey editor st e <> Some (id (lineAt editor c0)))
    as Hdistinct.
  { intros c0 m0 Hnd Hc0 e He Hkey.
    destruct (unitKey_old_line st _ e _ He Hkey) as (l & Hl & Heq).
    exact (NoDup_map_parts _ _ _ l c0 Hnd Hl Hc0 (eq_sym Heq)). }
  destruct (shouldCombine (lineTypeAt editor (resolve editor st0 line))) as [sc |] eqn:Hsc.
  - assert (included editor st0 line = true) as Hincl
      by (unfold included; rewrite Hsc; reflexivity).
    specialize (Hkept Hincl).
    destruct (closesAfter _ _ _ _ _ _).
    + destruct Hshape as (r & Hc & Hr & _ & Hbk & _).
      assert (unitKey editor st' (EArr r)
              = Some (id (lineAt editor (hd line (readArr st (g_collect g) ++ [line])))))
        as Hk0.
      { unfold unitKey. cbn [members]. rewrite Hr, hd_snoc. reflexivity. }
      rewrite Hc, Hbk. split.
      * apply byKey_ok_push; assumption.
      * intros Hnd. apply byKey_full_push; [assumption | assumption |].
        apply (Hdistinct _ (readArr st (g_collect g) ++ [line])).
        -- rewrite <- Hkept. exact Hnd.
        -- apply head_elem. apply hd_snoc.
    + destruct Hshape as (Hc & Hbk & _). rewrite Hc, Hbk. split.
      * apply byKey_ok_frame. exact Hmem.
      * intros _. apply byKey_full_frame. exact Hmem.
  - destruct Hshape as (Hempty & _ & _ & _ & Hshape).
    destruct (lt_render (lineTypeAt editor (resolve editor st0 line))) as [rd |] eqn:Hrd.
    + assert (included editor st0 line = true) as Hincl
        by (unfold included; rewrite Hsc, Hrd; reflexivity).
      specialize (Hkept Hincl). rewrite Hempty in Hkept. cbn [app] in Hkept.
      destruct Hshape as [Hc Hbk]. rewrite Hc, Hbk. split.
      * apply byKey_ok_push; [assumption | reflexivity].
      * intros Hnd. apply byKey_full_push; [assumption | reflexivity |].
        apply (Hdistinct _ [line]); [rewrite <- Hkept; exact Hnd | left].
    + destruct Hshape as [Hc Hbk]. rewrite Hc, Hbk. split.
      * apply byKey_ok_frame. exact Hmem.
      * intros _. apply byKey_full_frame. exact Hmem.
Qed.

Lemma NoDup_map_prefix {A B} (f : A -> B) (p : A -> bool) (l1 l2 : list A) :
  NoDup (map f (List.filter p (l1 ++ l2))) -> NoDup (map f (List.filter p l1)).
Proof.
  rewrite List.filter_app, map_app. intros H. apply NoDup_app in H as (H & _). exact H.
Qed.

Lemma combineLoop_byKey st0 all rest :
  forall done g,
    GroupInv editor st0 done rest g ->
    done ++ rest = all ->
    let g' := combineLoop editor g rest in
    (byKey_ok editor (g_state g) (g_combined g) (g_byKey g) ->
     byKey_ok editor (g_state g') (g_combined g') (g_byKey g'))
    /\ (NoDup (map (fun l => id (lineAt editor l)) (List.filter (included editor st0) all)) ->
        byKey_full editor (g_state g) (g_combined g) (g_byKey g) ->
        byKey_full editor (g_state g') (g_combined g') (g_byKey g')).
Proof.
  induction rest as [| line rest IH]; intros done g Inv Hall; cbv zeta.
  - cbn. split; auto.
  - cbn [combineLoop].
    assert ((done ++ [line]) ++ rest = all) as Hall'
      by (rewrite <- app_assoc; exact Hall).
    destruct (IH (done ++ [line]) _ (combineStep_inv editor _ _ _ _ _ Inv) Hall') as [IH1 IH2].
    destruct (combineStep_byKey st0 done line rest g Inv) as [S1 S2].
    split.
    + intros H. apply IH1, S1, H.
    + intros Hnd H. apply (IH2 Hnd). apply S2; [| exact H].
      rewrite <- Hall' in Hnd. exact (NoDup_map_prefix _ _ _ _ Hnd).
Qed.

Lemma combineLines_index (st st' : State) (lines : ArrRef) (d : DataRef) :
  linesCombined st !! lines = None ->
  combineLines editor st lines = (d, st') ->
  byKey_ok editor st' (combined (readData st' d)) (byKey (readData st' d))
  /\ (NoDup (map (fun l => id (lineAt editor l))
               (List.filter (included editor st) (readArr st lines))) ->
      byKey_full editor st' (combined (readData st' d)) (byKey (readData st' d))).
Proof.
  intros Hmiss Hcall.
  destruct (combineLines_run editor st lines Hmiss)
    as (Inv0 & _ & d' & st'' & Hcall' & Harr & _ & Hdata).
  rewrite Hcall in Hcall'. inversion Hcall'; subst d' st''. clear Hcall'.
  rewrite Hdata. cbn [combined byKey].
  destruct (combineLoop_byKey st (readArr st lines) (readArr st lines) [] _ Inv0 eq_refl)
    as [H1 H2].
  cbv zeta in H1, H2. cbn [g_state g_combined g_byKey] in H1, H2.
  set (g := combineLoop editor _ (readArr st lines)) in *.
  assert (forall e, e ∈ g_combined g -> members st' e = members (g_state g) e) as Hmem.
  { intros [l | a] _; cbn; [reflexivity |]. apply readArr_arrays. exact Harr. }
  split.
  - apply (byKey_ok_frame (g_state g)); [exact Hmem |]. apply H1.
    intros k e Hk. rewrite lookup_empty in Hk. discriminate Hk.
  - intros Hnd. apply (byKey_full_frame (g_state g)); [exact Hmem |]. apply (H2 Hnd).
    intros e He. inversion He.
Qed.

(** X20: in the result of [combineLines] every entry of [byKey] is a unit
    of [combined], filed under the id of its first line; and when the
    ids of the lines that are kept are pairwise distinct, every unit is
    found in [byKey] under the id of its first line. *)
Theorem combineLines_byKey (st st' : State) (lines : ArrRef) (d : DataRef) :
  linesCombined st !! lines = None ->
  combineLines editor st lines = (d, st') ->
  (forall k e, byKey (readData st' d) !! k = Some e ->
     e ∈ combined (readData st' d)
     /\ exists l0, head (members st' e) = Some l0 /\ k = id (lineAt editor l0))
  /\ (NoDup (map (fun l => id (lineAt editor l))
               (List.filter (included editor st) (readArr st lines))) ->
      forall e, e ∈ combined (readData st' d) ->
        exists l0, head (members st' e) = Some l0
                   /\ byKey (readData st' d) !! id (lineAt editor l0) = Some e).
Proof.
  intros Hmiss Hcall. destruct (combineLines_index st st' lines d Hmiss Hcall) as [Hok Hfull].
  split.
  - intros k e Hk. destruct (Hok k e Hk) as [He Hkey]. split; [exact He |].
    unfold unitKey in Hkey. destruct (head (members st' e)) as [l0 |]; [| discriminate].
    exists l0. split; [reflexivity |]. cbn in Hkey. inversion Hkey. reflexivity.
  - intros Hnd e He. destruct (Hfull Hnd e He) as (k & Hkey & Hk).
    unfold unitKey in Hkey. destruct (head (members st' e)) as [l0 |]; [| discriminate].
    exists l0. split; [reflexivity |]. cbn in Hkey. inversion Hkey; subst k. exact Hk.
Qed.

End MemoMore.

(** ** Arrays are reused from one grouping to the next *)

Section ReuseMore.
Variable editor : Editor.

Lemma combineStep_memo st0 done line rest g :
  GroupInv editor st0 done (line :: rest) g ->
  NoDup (List.filter (included editor st0) (done ++ [line])) ->
  let g' := combineStep editor g line (head rest) in
  memo_kept st0 (g_state g) (g_combined g)
  /\ memo_holds (g_state g) (g_combined g)
  /\ memo_reused st0 (g_state g) (g_combined g) ->
  memo_kept st0 (g_state g') (g_combined g')
  /\ memo_holds (g_state g') (g_combined g')
  /\ memo_reused st0 (g_state g') (g_combined g').
Proof.
  intros Inv Hnd. cbv zeta. intros (Hkept & Hholds & Hreused).
  destruct (combineStep_shape editor st0 done line rest g Inv) as [Hmem Hshape].
  cbv zeta in Hmem, Hshape.
  pose proof (kept_lines_step editor st0 done line rest g Inv) as Hlines.
  set (g' := combineStep editor g line (head rest)) in *.
  set (st := g_state g) in *. set (st' := g_state g') in *.
  set (oldlines := concat (map (members st) (g_combined g))) in *.
  assert (concat (map (members st') (g_combined g)) = oldlines) as Hold.
  { unfold oldlines. f_equal. apply map_ext_elem. exact Hmem. }
  assert (forall r, EArr r ∈ g_combined g -> readArr st' r = readArr st r) as Hrd.
  { intros r Hr. exact (Hmem (EArr r) Hr). }
  assert (forall r l0, EArr r ∈ g_combined g -> head (readArr st r) = Some l0 -> l0 ∈ oldlines)
    as Hfirst.
  { intros r l0 Hr Hl0. apply (elem_concat_map (members st) _ (EArr r) l0 Hr).
    apply head_elem. exact Hl0. }
  (* the three properties when the units and the memo stay *)
  assert (g_combined g' = g_combined g -> linesMultiples st' = linesMultiples st ->
          memo_kept st0 st' (g_combined g') /\ memo_holds st' (g_combined g')
          /\ memo_reused st0 st' (g_combined g')) as Hsame.
  { intros Hc Hlm. rewrite Hc. split; [| split].
    - intros l Hl. rewrite Hold in Hl. rewrite Hlm. apply Hkept. exact Hl.
    - intros r Hr. destruct (Hholds r Hr) as (l0 & Hl0 & Hm). exists l0.
      rewrite (Hrd r Hr), Hlm. split; assumption.
    - intros r l0 last Hr Hl0 Hm Heq. rewrite (Hrd r Hr) in Hl0, Heq.
      exact (Hreused r l0 last Hr Hl0 Hm Heq). }
  destruct (shouldCombine (lineTypeAt editor (resolve editor st0 line))) as [sc |] eqn:Hsc.
  - assert (included editor st0 line = true) as Hincl
      by (unfold included; rewrite Hsc; reflexivity).
    specialize (Hlines Hincl). rewrite Hlines in Hnd.
    set (coll := readArr st (g_collect g) ++ [line]) in *.
    set (c0 := hd line coll) in *.
    destruct (closesAfter _ _ _ _ _ _).
    + destruct Hshape as (r & Hc & Hr & _ & _ & Hmemo).
      assert (head coll = Some c0) as Hhead by apply hd_snoc.
      assert (c0 ∈ coll) as Hc0 by (apply head_elem; exact Hhead).
      assert (c0 ∉ oldlines) as Hc0old by (exact (NoDup_parts _ _ _ Hnd Hc0)).
      assert (coll <> []) as Hcne by (unfold coll; destruct (readArr st _); discriminate).
      assert (forall l, l <> c0 -> linesMultiples st' !! l = linesMultiples st !! l) as Hlm.
      { intros l Hl. destruct Hmemo as [[_ ->] | (_ & -> & _)]; [reflexivity |].
        apply lookup_insert_ne. congruence. }
      assert (linesMultiples st' !! c0 = Some r) as Hlm0.
      { destruct Hmemo as [[Hm ->] | (-> & -> & _)]; [exact Hm | apply lookup_insert_eq]. }
      rewrite Hc. split; [| split].
      * intros l Hl. rewrite concat_map_snoc, Hold in Hl. cbn [members] in Hl.
        rewrite Hr in Hl. rewrite Hlm.
        -- apply Hkept. intros Hin. apply Hl. apply elem_of_app. left. exact Hin.
        -- intros ->. apply Hl. apply elem_of_app. right. exact Hc0.
      * intros r' Hr'. apply elem_of_app in Hr' as [Hr' | Hr'].
        -- destruct (Hholds r' Hr') as (l0 & Hl0 & Hm). exists l0.
           rewrite (Hrd r' Hr'). split; [exact Hl0 |].
           rewrite Hlm; [exact Hm |]. intros ->. exact (Hc0old (Hfirst r' c0 Hr' Hl0)).
        -- apply list_elem_of_singleton in Hr'. inversion Hr'; subst r'.
           exists c0. rewrite Hr. split; [exact Hhead | exact Hlm0].
      * intros r' l0 last Hr' Hl0 Hm Heq. apply elem_of_app in Hr' as [Hr' | Hr'].
        -- rewrite (Hrd r' Hr') in Hl0, Heq. exact (Hreused r' l0 last Hr' Hl0 Hm Heq).
        -- apply list_elem_of_singleton in Hr'. inversion Hr'; subst r'.
           rewrite Hr in Hl0, Heq. rewrite Hhead in Hl0. inversion Hl0; subst l0.
           assert (linesMultiples st !! c0 = Some last) as Hmst
             by (rewrite (Hkept c0 Hc0old); exact Hm).
           assert (is_Some (arrays st0 !! last)) as Halloc.
           { apply readArr_nonempty_allocated. rewrite Heq. exact Hcne. }
           assert (readArr st last = coll) as Hlast.
           { rewrite <- Heq. unfold readArr.
             pose proof (gi_heap _ _ _ _ _ Inv last Halloc) as Hheap. fold st in Hheap.
             rewrite Hheap. reflexivity. }
           destruct Hmemo as [[Hm' _] | (_ & _ & Hno)].
           ++ fold st in Hm'. congruence.
           ++ exfalso. apply (Hno last Hmst); [| exact Hlast].
              intros ->. destruct Halloc as [x Hx].
              rewrite (gi_fresh _ _ _ _ _ Inv) in Hx. discriminate Hx.
    + destruct Hshape as (Hc & _ & _ & _ & Hlm). exact (Hsame Hc Hlm).
  - destruct Hshape as (_ & _ & _ & Hlm & Hshape).
    destruct (lt_render (lineTypeAt editor (resolve editor st0 line))) as [rd |].
    + destruct Hshape as [Hc _]. rewrite Hc. split; [| split].
      * intros l Hl. rewrite concat_map_snoc, Hold in Hl. rewrite Hlm. apply Hkept.
        intros Hin. apply Hl. apply elem_of_app. left. exact Hin.
      * intros r Hr. apply elem_of_app in Hr as [Hr | Hr];
          [| apply list_elem_of_singleton in Hr; discriminate Hr].
        destruct (Hholds r Hr) as (l0 & Hl0 & Hm). exists l0.
        rewrite (Hrd r Hr), Hlm. split; assumption.
      * intros r l0 last Hr Hl0 Hm Heq. apply elem_of_app in Hr as [Hr | Hr];
          [| apply list_elem_of_singleton in Hr; discriminate Hr].
        rewrite (Hrd r Hr) in Hl0, Heq. exact (Hreused r l0 last Hr Hl0 Hm Heq).
    + destruct Hshape as [Hc _]. exact (Hsame Hc Hlm).
Qed.

Lemma combineLoop_memo st0 all rest :
  forall done g,
    GroupInv editor st0 done rest g ->
    done ++ rest = all -> NoDup all ->
    let g' := combineLoop editor g rest in
    memo_kept st0 (g_state g) (g_combined g)
    /\ memo_holds (g_state g) (g_combined g)
    /\ memo_reused st0 (g_state g) (g_combined g) ->
    memo_kept st0 (g_state g') (g_combined g')
    /\ memo_holds (g_state g') (g_combined g')
    /\ memo_reused st0 (g_state g') (g_combined g').
Proof.
  induction rest as [| line rest IH]; intros done g Inv Hall Hnd; cbv zeta; [auto |].
  cbn [combineLoop]. intros H.
  assert ((done ++ [line]) ++ rest = all) as Hall' by (rewrite <- app_assoc; exact Hall).
  apply (IH (done ++ [line]) _ (combineStep_inv editor _ _ _ _ _ Inv) Hall' Hnd).
  apply (combineStep_memo st0 done line rest g Inv); [| exact H].
  apply NoDup_ListNoDup, List.NoDup_filter, NoDup_ListNoDup.
  rewrite <- Hall' in Hnd. apply NoDup_app in Hnd as (Hnd & _). exact Hnd.
Qed.

(** What a call that misses the cache leaves in the memo, for an array
    of distinct lines. *)
Lemma combineLines_memo st st' lines d :
  linesCombined st !! lines = None ->
  NoDup (readArr st lines) ->
  combineLines editor st lines = (d, st') ->
  memo_holds st' (combined (readData st' d))
  /\ memo_reused st st' (combined (readData st' d)).
Proof.
  intros Hmiss Hnd Hcall.
  destruct (combineLines_run editor st lines Hmiss)
    as (Inv0 & _ & d' & st'' & Hcall' & Harr & Hlm & Hdata).
  rewrite Hcall in Hcall'. inversion Hcall'; subst d' st''. clear Hcall'.
  rewrite Hdata. cbn [combined].
  destruct (combineLoop_memo st (readArr st lines) (readArr st lines) [] _ Inv0 eq_refl Hnd)
    as (_ & Hholds & Hreused).
  { cbn [g_state g_combined]. split; [| split].
    - intros l _. reflexivity.
    - intros r Hr. inversion Hr.
    - intros r l0 last Hr. inversion Hr. }
  set (g := combineLoop editor _ (readArr st lines)) in *.
  assert (forall r, readArr st' r = readArr (g_state g) r) as Hrd.
  { intros r. apply readArr_arrays. exact Harr. }
  split.
  - intros r Hr. destruct (Hholds r Hr) as (l0 & Hl0 & Hm). exists l0.
    rewrite Hrd, Hlm. split; assumption.
  - intros r l0 last Hr Hl0 Hm Heq. rewrite Hrd in Hl0, Heq.
    exact (Hreused r l0 last Hr Hl0 Hm Heq).
Qed.

(** An array unit of a second grouping that holds the lines of an array
    unit of a first grouping is that array. *)
Lemma combineLines_reuse st s1 s2 A B dA dB a b :
  linesCombined st !! A = None -> NoDup (readArr st A) ->
  combineLines editor st A = (dA, s1) ->
  linesCombined s1 !! B = None -> NoDup (readArr s1 B) ->
  combineLines editor s1 B = (dB, s2) ->
  EArr a ∈ combined (readData s1 dA) ->
  EArr b ∈ combined (readData s2 dB) ->
  readArr s2 b = readArr s1 a ->
  b = a.
Proof.
  intros HmA HndA HcA HmB HndB HcB Ha Hb Heq.
  destruct (combineLines_memo st s1 A dA HmA HndA HcA) as [Hholds _].
  destruct (combineLines_memo s1 s2 B dB HmB HndB HcB) as [_ Hreused].
  destruct (Hholds a Ha) as (l0 & Hl0 & Hm).
  apply (Hreused b l0 a Hb); [rewrite Heq; exact Hl0 | exact Hm | symmetry; exact Heq].
Qed.

(** X21: identity of groups across groupings. After [combineLines] has
    grouped an array of distinct lines, the memo holds each array unit
    under its first line; and when a second array of distinct lines is
    grouped next, every array unit of the second result that holds the
    same lines as an array unit of the first result is that very array,
    not a copy. *)
Theorem group_arrays_are_reused (st s1 s2 : State) (A B : ArrRef) (dA dB : DataRef) :
  linesCombined st !! A = None -> NoDup (readArr st A) ->
  combineLines editor st A = (dA, s1) ->
  linesCombined s1 !! B = None -> NoDup (readArr s1 B) ->
  combineLines editor s1 B = (dB, s2) ->
  memo_holds s1 (combined (readData s1 dA))
  /\ forall a b,
       EArr a ∈ combined (readData s1 dA) ->
       EArr b ∈ combined (readData s2 dB) ->
       readArr s2 b = readArr s1 a ->
       b = a.
Proof.
  intros HmA HndA HcA HmB HndB HcB. split.
  - exact (proj1 (combineLines_memo st s1 A dA HmA HndA HcA)).
  - intros a b. exact (combineLines_reuse st s1 s2 A B dA dB a b HmA HndA HcA HmB HndB HcB).
Qed.

(** X22: when the second array holds the same distinct lines as the
    first, the second result has the very units of the first, array by
    array: the two sequences of units are equal, so that the range diff
    of the two finds nothing to patch. *)
Theorem regrouping_gives_the_same_units (st s1 s2 : State) (A B : ArrRef) (dA dB : DataRef) :
  linesCombined st !! A = None -> NoDup (readArr st A) ->
  combineLines editor st A = (dA, s1) ->
  linesCombined s1 !! B = None -> readArr s1 B = readArr st A ->
  combineLines editor s1 B = (dB, s2) ->
  combined (readData s2 dB) = combined (readData s1 dA)
  /\ getChangedRanges s2 (combined (readData s1 dA)) (combined (readData s2 dB))
     = ((0, 0), (0, 0))%Z.
Proof.
  intros HmA HndA HcA HmB Hlines HcB.
  assert (NoDup (readArr s1 B)) as HndB by (rewrite Hlines; exact HndA).
  assert (forall l, resolve editor s1 l = resolve editor st l) as Hres.
  { destruct (combineLines_effect editor st A) as (_ & _ & _ & _ & H).
    rewrite HcA in H. exact H. }
  assert (map (unitView s2) (combined (readData s2 dB))
          = map (unitView s1) (combined (readData s1 dA))) as Hviews.
  { rewrite (combineLines_views editor st s1 A dA HmA HcA).
    rewrite (combineLines_views editor s1 s2 B dB HmB HcB), Hlines.
    apply groupFrom_ext. exact Hres. }
  assert (combined (readData s2 dB) = combined (readData s1 dA)) as Hsame.
  { apply list_eq. intros i.
    assert (map (unitView s2) (combined (readData s2 dB)) !! i
            = map (unitView s1) (combined (readData s1 dA)) !! i) as Hi
      by (rewrite Hviews; reflexivity).
    rewrite !list_lookup_fmap in Hi.
    destruct (combined (readData s2 dB) !! i) as [eb |] eqn:Hb;
      destruct (combined (readData s1 dA) !! i) as [ea |] eqn:Ha;
      cbn in Hi; try discriminate; [| reflexivity].
    f_equal. destruct eb as [lb | b], ea as [la | a]; cbn in Hi; try discriminate.
    - inversion Hi. reflexivity.
    - inversion Hi as [Heq]. f_equal.
      apply (combineLines_reuse st s1 s2 A B dA dB a b HmA HndA HcA HmB HndB HcB).
      + apply list_elem_of_lookup. exists i. exact Ha.
      + apply list_elem_of_lookup. exists i. exact Hb.
      + exact Heq. }
  split; [exact Hsame |]. rewrite Hsame.
  apply getChangedRanges_all_same, Forall2_isSame_refl.
Qed.

End ReuseMore.

(** ** The ranges of the on-screen nodes *)

(** The elements that a query finds lie below the node that is queried. *)
Lemma querySelectorAll_paths (sel : list VNode -> VNode -> bool) :
  forall node ancestors path,
    Forall (fun pe => length path < length (fst pe))
      (querySelectorAll sel ancestors path node).
Proof.
  fix IH 1. intros [t p cs k] ancestors path. cbn [querySelectorAll].
  set (node := mkVNode t p cs k). clearbody node.
  generalize 0 as i. induction cs as [| [s | m] cs IHcs]; intros i.
  - constructor.
  - apply IHcs.
  - apply Forall_app. split.
    { destruct (sel (node :: ancestors) m); constructor; [| constructor].
      cbn [fst]. rewrite length_app. cbn. lia. }
    apply Forall_app. split; [| apply IHcs].
    eapply Forall_impl; [apply IH |]. intros pe Hpe. cbn beta in Hpe.
    rewrite length_app in Hpe. cbn in Hpe. lia.
Qed.

Lemma sectionRanges_other (d : TextDocument) (els : list (list nat * VNode))
    (p : list nat) :
  Forall (fun pe => fst pe <> p) els ->
  forall ranges, sectionRanges d els ranges !! p = ranges !! p.
Proof.
  unfold sectionRanges. induction 1 as [| el els Hel Hels IH]; intros ranges; [reflexivity |].
  cbn [fold_left]. rewrite IH.
  destruct (getLineBy d (key (snd el))); [| reflexivity].
  apply lookup_insert_ne. exact Hel.
Qed.

Lemma remainingRanges_keeps (d : TextDocument) (els : list (list nat * VNode))
    (p : list nat) (r : Z * Z) :
  forall ranges, ranges !! p = Some r -> remainingRanges d els ranges !! p = Some r.
Proof.
  unfold remainingRanges. induction els as [| el els IH]; intros ranges H; [exact H |].
  cbn [fold_left]. apply IH.
  destruct (ranges !! fst el) as [x |] eqn:Hx; [exact H |].
  destruct (key (snd el)) as [k |]; [| exact H].
  destruct (bool_decide (k = "")); [exact H |].
  destruct (getLineBy d (Some k)) as [line |]; [| exact H].
  rewrite lookup_insert_ne; [exact H |]. intros Heq. rewrite Heq, H in Hx. discriminate Hx.
Qed.

Lemma remainingRanges_covers (d : TextDocument) (els : list (list nat * VNode)) :
  forall ranges el k line,
    el ∈ els -> key (snd el) = Some k -> k <> "" ->
    getLineBy d (Some k) = Some line ->
    is_Some (remainingRanges d els ranges !! fst el).
Proof.
  induction els as [| e0 els IH]; intros ranges el k line Hel Hk Hne Hline; [inversion Hel |].
  apply elem_of_cons in Hel as [-> | Hel].
  - change (remainingRanges d (e0 :: els) ranges)
      with (remainingRanges d els
              (match ranges !! fst e0, key (snd e0) with
               | Some _, _ => ranges
               | None, None => ranges
               | None, Some k =>
                   if bool_decide (k = "") then ranges
                   else match getLineBy d (Some k) with
                        | Some line => <[fst e0 := getLineRange d line]> ranges
                        | None => ranges
                        end
               end)).
    destruct (ranges !! fst e0) as [r |] eqn:Hr.
    + exists r. apply remainingRanges_keeps. exact Hr.
    + rewrite Hk. rewrite bool_decide_eq_false_2 by exact Hne. rewrite Hline.
      eexists. apply remainingRanges_keeps. apply lookup_insert_eq.
  - exact (IH _ el k line Hel Hk Hne Hline).
Qed.

Section RangesMore.
Variable editor : Editor.

Lemma query_not_top (i j : nat) (child : VNode) :
  Forall (fun pe => fst pe <> [i])
    (querySelectorAll (lines_selector editor) [] [j] child).
Proof.
  eapply Forall_impl; [apply querySelectorAll_paths |].
  intros pe Hpe Heq. cbn beta in Hpe. rewrite Heq in Hpe. cbn in Hpe. lia.
Qed.

(** The range of a unit in the document. *)
Lemma childRanges_other st d bk ranges i j child :
  i <> j -> childRanges editor st d bk ranges j child !! [i] = ranges !! [i].
Proof.
  intros Hij. unfold childRanges. destruct (key child) as [k |]; [| reflexivity].
  destruct (bool_decide (k = "")); [reflexivity |].
  destruct (bk !! k) as [[l | a] |]; [| | reflexivity].
  - apply lookup_insert_ne. congruence.
  - destruct (head (readArr st a)) as [first |]; [| reflexivity].
    destruct (last (readArr st a)) as [final |]; [| reflexivity].
    rewrite (sectionRanges_other d _ [i] (query_not_top i j child)).
    apply lookup_insert_ne. congruence.
Qed.

Lemma childRanges_self st d bk ranges i child k e first final :
  key child = Some k -> k <> "" -> bk !! k = Some e ->
  head (members st e) = Some first -> last (members st e) = Some final ->
  childRanges editor st d bk ranges i child !! [i]
  = Some (fst (getLineRange d first), snd (getLineRange d final)).
Proof.
  intros Hk Hne Hbk Hfirst Hfinal. unfold childRanges. rewrite Hk.
  rewrite bool_decide_eq_false_2 by exact Hne. rewrite Hbk.
  destruct e as [l | a]; cbn [members] in Hfirst, Hfinal.
  - cbn in Hfirst, Hfinal. inversion Hfirst; inversion Hfinal; subst first final.
    rewrite lookup_insert_eq. destruct (getLineRange d l); reflexivity.
  - rewrite Hfirst, Hfinal.
    rewrite (sectionRanges_other d _ [i] (query_not_top i i child)).
    apply lookup_insert_eq.
Qed.

Lemma fold_childRanges_other st d bk i (L : list (nat * VNode)) :
  Forall (fun ic => fst ic <> i) L ->
  forall ranges,
    fold_left (fun ranges ic => childRanges editor st d bk ranges (fst ic) (snd ic)) L ranges
    !! [i] = ranges !! [i].
Proof.
  induction 1 as [| ic L Hic HL IH]; intros ranges; [reflexivity |].
  cbn [fold_left]. rewrite IH. apply childRanges_other. congruence.
Qed.

Lemma imap_pairs_split {A} (l : list A) (i : nat) (x : A) :
  l !! i = Some x ->
  exists L1 L2,
    imap (fun j c => (j, c)) l = L1 ++ (i, x) :: L2
    /\ Forall (fun ic => fst ic <> i) L1 /\ Forall (fun ic => fst ic <> i) L2.
Proof.
  intros Hi.
  assert (forall (k : nat) (l' : list A),
            Forall (fun ic : nat * A => k <= fst ic < k + length l')
              (imap (fun j c => (k + j, c)) l')) as Hrange.
  { intros k l'. revert k. induction l' as [| a l' IH]; intros k; [constructor |].
    cbn [imap length]. constructor; [cbn; lia |].
    specialize (IH (S k)).
    rewrite (imap_ext _ (fun j c => (S k + j, c)) l').
    - eapply Forall_impl; [exact IH |]. intros ic Hic. cbn beta in Hic. lia.
    - intros j c _. cbn. f_equal. lia. }
  rewrite <- (take_drop_middle l i x Hi). rewrite imap_app. cbn [imap].
  pose proof (lookup_lt_Some _ _ _ Hi) as Hlt.
  assert (length (take i l) = i) as Hlen by (rewrite length_take; lia).
  rewrite Hlen, Nat.add_0_r. eexists _, _. split; [reflexivity |]. split.
  - pose proof (Hrange 0 (take i l)) as H. cbn [Nat.add] in H.
    eapply Forall_impl; [exact H |]. intros ic Hic. cbn beta in Hic. lia.
  - pose proof (Hrange (S i) (drop (S i) l)) as H.
    rewrite (imap_ext _ (fun j c => (S i + j, c)) (drop (S i) l)).
    + eapply Forall_impl; [exact H |]. intros ic Hic. cbn beta in Hic. lia.
    + intros j c _. cbn. f_equal. lia.
Qed.

(** The child at index [i] whose key [byKey] knows gets the range of its
    entry. *)
Lemma setLineNodesRanges_top st v dd st1 i n k e first final :
  combineLines editor st (doc_lines (doc v)) = (dd, st1) ->
  childNodes v !! i = Some n ->
  key n = Some k -> k <> "" ->
  byKey (readData st1 dd) !! k = Some e ->
  head (members st1 e) = Some first -> last (members st1 e) = Some final ->
  nodeRanges (snd (setLineNodesRanges editor st v)) !! [i]
  = Some (fst (getLineRange (doc v) first), snd (getLineRange (doc v) final)).
Proof.
  intros Hcall Hi Hk Hne Hbk Hfirst Hfinal.
  unfold setLineNodesRanges. rewrite Hcall. cbn [snd nodeRanges].
  apply remainingRanges_keeps.
  destruct (imap_pairs_split (childNodes v) i n Hi) as (L1 & L2 & -> & H1 & H2).
  rewrite fold_left_app. cbn [fold_left fst snd].
  rewrite (fold_childRanges_other st1 (doc v) _ i L2 H2).
  exact (childRanges_self _ _ _ _ _ _ k e first final Hk Hne Hbk Hfirst Hfinal).
Qed.

End RangesMore.

Lemma nodeRanges_dispatchEvent (name : string) (v : View) :
  nodeRanges (dispatchEvent name v) = nodeRanges v.
Proof. reflexivity. Qed.

Section IndexMore.
Variable editor : Editor.

(** X23: [setLineNodesRanges] gives the child of the root at index [i],
    when its key is not empty and [byKey] holds an entry for it, the range
    from the start of the first line of the entry to the end of its last
    line; [getLineNodeStart] and [getLineNodeEnd] return the two ends. *)
Theorem setLineNodesRanges_indexes_children (st st1 : State) (v : View) (dd : DataRef)
    (i : nat) (n : VNode) (k : string) (e : CombinedEntry) (first final : LineRef) :
  combineLines editor st (doc_lines (doc v)) = (dd, st1) ->
  childNodes v !! i = Some n ->
  key n = Some k -> k <> "" ->
  byKey (readData st1 dd) !! k = Some e ->
  head (members st1 e) = Some first ->
  last (members st1 e) = Some final ->
  let v' := snd (setLineNodesRanges editor st v) in
  getLineNodeStart v' [i] = Some (fst (getLineRange (doc v) first))
  /\ getLineNodeEnd v' [i] = Some (snd (getLineRange (doc v) final)).
Proof.
  intros Hcall Hi Hk Hne Hbk Hfirst Hfinal. cbv zeta.
  unfold getLineNodeStart, getLineNodeEnd.
  rewrite (setLineNodesRanges_top editor st v dd st1 i n k e first final
             Hcall Hi Hk Hne Hbk Hfirst Hfinal).
  split; reflexivity.
Qed.

(** X24: after the first [render] of a document that the editor holds,
    when the ids of its lines are not empty and pairwise distinct among
    the lines that are kept, the top-level node of every unit is indexed:
    the unit has a first and a last line, [getLineNodeStart] is the start
    of the first line of the unit and [getLineNodeEnd] the end of its last
    line. *)
Theorem render_indexes_units (st st' : State) (v v' : View) (d : TextDocument) :
  doc v = d ->
  linesCombined st !! doc_lines d = None ->
  NoDup (map (fun l => id (lineAt editor l))
           (List.filter (included editor st) (readArr st (doc_lines d)))) ->
  Forall (fun l => id (lineAt editor l) <> "") (readArr st (doc_lines d)) ->
  render editor st v d = (Ok tt, (st', v')) ->
  exists dd,
    linesCombined st' !! doc_lines d = Some dd
    /\ forall i e,
         combined (readData st' dd) !! i = Some e ->
         exists first final,
           head (members st' e) = Some first
           /\ last (members st' e) = Some final
           /\ getLineNodeStart v' [i] = Some (fst (getLineRange d first))
           /\ getLineNodeEnd v' [i] = Some (snd (getLineRange d final)).
Proof.
  intros Hdoc Hmiss Hnd Hids Hr.
  destruct (combineLines editor st (doc_lines d)) as [dd sA] eqn:HcA.
  destruct (renderCombined editor sA (combined (readData sA dd))) as [res sB] eqn:HrB.
  rewrite (render_unfold editor st v d dd sA res sB HcA HrB) in Hr.
  destruct res as [vnodes | msg]; [| discriminate Hr]. cbv zeta in Hr.
  set (v1 := mkView (doc v) vnodes (nodeRanges v) (events v ++ ["rendering"])) in *.
  pose proof (combineLines_cached editor st (doc_lines d)) as HcachedA.
  rewrite HcA in HcachedA. cbn [fst snd] in HcachedA.
  destruct (renderCombined_effect editor (combined (readData sA dd)) sA)
    as (HarrB & HdB & HlcB & _).
  rewrite HrB in HarrB, HdB, HlcB. cbn [snd] in HarrB, HdB, HlcB.
  assert (combineLines editor sB (doc_lines (doc v1)) = (dd, sB)) as Hhit.
  { apply combineLines_hit. cbn [v1 doc]. rewrite Hdoc, HlcB. exact HcachedA. }
  assert (fst (setLineNodesRanges editor sB v1) = sB) as Hst.
  { unfold setLineNodesRanges. rewrite Hhit. reflexivity. }
  rewrite Hst in Hr. inversion Hr; subst st' v'. clear Hr.
  assert (readData sB dd = readData sA dd) as Hdata by (unfold readData; rewrite HdB; reflexivity).
  exists dd. split; [rewrite HlcB; exact HcachedA |].
  intros i e Hi. rewrite Hdata in Hi.
  destruct (combineLines_index editor st sA (doc_lines d) dd Hmiss HcA) as [_ Hfull].
  assert (e ∈ combined (readData sA dd)) as He by (apply list_elem_of_lookup; eauto).
  destruct (Hfull Hnd e He) as (k & Hkey & Hbk).
  pose proof (renderCombined_fst editor (combined (readData sA dd)) sA) as Hall.
  rewrite HrB in Hall. cbn [fst] in Hall. symmetry in Hall.
  destruct (renderAll_lookup editor sA _ vnodes i e Hall Hi) as (n & Hn & Hrn).
  destruct (renderLine_key editor sA e n Hrn) as (line0 & Hhead & Hkn).
  assert (k = id (lineAt editor line0)) as Hk.
  { unfold unitKey in Hkey. rewrite Hhead in Hkey. cbn in Hkey. inversion Hkey. reflexivity. }
  assert (line0 ∈ readArr st (doc_lines d)) as Hline0.
  { assert (line0 ∈ concat (map (members sA) (combined (readData sA dd)))) as Hin.
    { apply (elem_concat_map (members sA) _ e line0 He). apply head_elem. exact Hhead. }
    rewrite (combineLines_parts editor st sA (doc_lines d) dd Hmiss HcA) in Hin.
    apply list_elem_of_In in Hin. apply List.filter_In in Hin as [Hin _].
    apply list_elem_of_In. exact Hin. }
  assert (k <> "") as Hkne.
  { rewrite Hk. rewrite Forall_forall in Hids. apply Hids. exact Hline0. }
  assert (members sB e = members sA e) as Hmem.
  { destruct e as [l | a]; cbn; [reflexivity |]. apply readArr_arrays. exact HarrB. }
  assert (exists final, last (members sA e) = Some final) as [final Hlast].
  { destruct (last (members sA e)) as [final |] eqn:Hl; [exists final; reflexivity |].
    apply last_None in Hl. rewrite Hl in Hhead. discriminate Hhead. }
  exists line0, final. rewrite Hmem. split; [exact Hhead |]. split; [exact Hlast |].
  unfold getLineNodeStart, getLineNodeEnd. rewrite !nodeRanges_dispatchEvent.
  rewrite (setLineNodesRanges_top editor sB v1 dd sB i n k e line0 final Hhit Hn).
  - cbn [v1 doc]. rewrite Hdoc. split; reflexivity.
  - rewrite Hkn, Hk. reflexivity.
  - exact Hkne.
  - rewrite Hdata. exact Hbk.
  - rewrite Hmem. exact Hhead.
  - rewrite Hmem. exact Hlast.
Qed.

(** X30: after [setLineNodesRanges] every element of the tree that the
    line selector matches and whose key is the id of a line of the
    document has a range: [getLineNodeStart] and [getLineNodeEnd] are
    defined for it. *)
Theorem setLineNodesRanges_indexes_line_elements (st : State) (v : View)
    (el : list nat * VNode) (k : string) (line : LineRef) :
  el ∈ rootElements (lines_selector editor) (childNodes v) ->
  key (snd el) = Some k -> k <> "" ->
  getLineBy (doc v) (Some k) = Some line ->
  let v' := snd (setLineNodesRanges editor st v) in
  is_Some (getLineNodeStart v' (fst el)) /\ is_Some (getLineNodeEnd v' (fst el)).
Proof.
  intros Hel Hk Hne Hline. cbv zeta.
  unfold getLineNodeStart, getLineNodeEnd, setLineNodesRanges.
  destruct (combineLines editor st (doc_lines (doc v))) as [dd st1]. cbn [snd nodeRanges].
  destruct (remainingRanges_covers (doc v) _
              (fold_left
                 (fun ranges ic =>
                    childRanges editor st1 (doc v) (byKey (readData st1 dd)) ranges
                      (fst ic) (snd ic))
                 (imap (fun i child => (i, child)) (childNodes v)) ∅)
              el k line Hel Hk Hne Hline) as [r Hr].
  rewrite Hr. split; eexists; reflexivity.
Qed.

End IndexMore.

(** ** Formats: nesting, and where the content of an operation goes *)

Section FormatsMore.
Variable editor : Editor.

Lemma renderableTypes_renderable keys :
  Forall (fun ty => is_Some (fmt_render (formatAt editor ty))) (renderableTypes editor keys).
Proof.
  apply Forall_forall. intros ty Hty. unfold renderableTypes in Hty.
  apply list_elem_of_omap in Hty as (name & _ & Hname).
  destruct (formats_get editor name) as [ty' |]; [| discriminate].
  destruct (fmt_render (formatAt editor ty')) as [r |] eqn:Hr; [| discriminate].
  inversion Hname; subst ty'. rewrite Hr. eauto.
Qed.

(** Collapsing frames that hold no content of their own wraps the
    children in the formats, the innermost first. *)
Lemma collapseLoop_wraps attrs tys :
  Forall (fun ty => is_Some (fmt_render (formatAt editor ty))) tys ->
  forall chn,
    collapseLoop editor 0 (rev (map (fun ty => mkItem ty attrs None) tys)) (Some chn)
    = ([], Some (foldr (wrapFormat editor attrs) chn tys)).
Proof.
  induction tys as [| ty tys IH] using rev_ind; intros Hall chn; [reflexivity |].
  apply Forall_app in Hall as [Hall Hty]. inversion Hty as [| ? ? [r Hr] _]; subst.
  rewrite map_app, rev_app_distr. cbn [map rev app].
  cbn [collapseLoop length Nat.ltb Nat.leb item_type item_attributes item_content].
  rewrite Hr. cbn [combineChildren]. rewrite foldr_app. cbn [foldr].
  unfold wrapFormat at 2. rewrite Hr.
  destruct (r attrs chn) as [node |]; apply IH; exact Hall.
Qed.

(** X25: a lone text operation with attributes renders to its text
    wrapped in the formats of its attributes that render, in the order of
    their priorities, the first outermost: every format gets the children
    that the formats after it have produced, and a format whose render
    function returns no node passes them on. When no format of the
    attributes renders, nothing is rendered at all: the text is lost. *)
Theorem renderInline_nests_formats (s : string) (attrs : AttributeMap) :
  let tys := renderableTypes editor
               (sort_by_priority (formats_priority editor) (attr_keys attrs)) in
  renderInline editor [mkOp (InsText s) (Some attrs)]
  = match tys with
    | [] => []
    | _ :: _ => foldr (wrapFormat editor attrs) [VText (opText None s None)] tys
    end.
Proof.
  cbv zeta. unfold renderInline, renderOps, renderOp, opChildren.
  cbn [insert attributes head inlineChildren trailingBreak activeStack].
  set (t := opText None s None). clearbody t.
  set (keys := sort_by_priority (formats_priority editor) (attr_keys attrs)).
  rewrite (insertKeys_build editor attrs keys (mkComposer [] false []) 0 eq_refl).
  cbn [inlineChildren trailingBreak activeStack]. rewrite app_nil_r.
  pose proof (renderableTypes_renderable keys) as Hall.
  destruct (renderableTypes editor keys) as [| ty0 tys0] eqn:Htys using rev_ind;
    [reflexivity |].
  apply Forall_app in Hall as [Hall Hty].
  inversion Hty as [| ? ? [r Hr] _]; subst.
  rewrite map_app, rev_app_distr. cbn [map rev app].
  cbn [item_type item_attributes item_content combineChildren inlineChildren
       trailingBreak activeStack length Nat.ltb Nat.leb].
  unfold collapseStack. cbn [activeStack].
  cbn [collapseLoop length Nat.ltb Nat.leb item_type item_attributes item_content].
  rewrite Hr. cbn [combineChildren].
  assert (foldr (wrapFormat editor attrs) [VText t] (tys0 ++ [ty0])
          = foldr (wrapFormat editor attrs) (wrapFormat editor attrs ty0 [VText t]) tys0) as Hfold
    by (rewrite foldr_app; reflexivity).
  assert (match tys0 ++ [ty0] with
          | [] => []
          | _ :: _ => foldr (wrapFormat editor attrs) [VText t] (tys0 ++ [ty0])
          end = foldr (wrapFormat editor attrs) (wrapFormat editor attrs ty0 [VText t]) tys0)
    as -> by (rewrite <- Hfold; destruct tys0; reflexivity).
  unfold wrapFormat at 2. rewrite Hr.
  destruct (r attrs [VText t]) as [node |]; rewrite (collapseLoop_wraps attrs tys0 Hall);
    reflexivity.
Qed.

(** *** Operations that open no frame *)

Lemma insertStackItem_match i ty attrs c active :
  rev (activeStack c) !! i = Some active ->
  frameMatches editor active ty attrs ->
  insertStackItem editor i ty attrs c = c.
Proof.
  intros Hact [Hty Hval]. unfold insertStackItem. rewrite Hact, Hty.
  rewrite bool_decide_eq_true_2 by reflexivity.
  unfold isEqual. rewrite bool_decide_eq_true_2 by exact Hval.
  reflexivity.
Qed.

(** When every format of the keys that renders matches the open frame at
    its depth, the keys leave the composer as it is. *)
Lemma insertKeys_match attrs keys :
  forall c i,
    (forall j ty, renderableTypes editor keys !! j = Some ty ->
       exists active, rev (activeStack c) !! (i + j) = Some active
                      /\ frameMatches editor active ty attrs) ->
    fold_left (insertKey editor attrs) keys (c, i)
    = (c, i + length (renderableTypes editor keys)).
Proof.
  induction keys as [| name keys IH]; intros c i Hframes.
  - cbn. rewrite Nat.add_0_r. reflexivity.
  - cbn [fold_left].
    destruct (formats_get editor name) as [ty |] eqn:Hg.
    + destruct (fmt_render (formatAt editor ty)) as [r |] eqn:Hr.
      * rewrite (insertKey_renderable editor _ _ _ _ _ _ Hg Hr).
        rewrite (renderableTypes_cons_renderable editor _ _ _ _ Hg Hr) in Hframes |- *.
        destruct (Hframes 0 ty eq_refl) as (active & Hact & Hm).
        rewrite Nat.add_0_r in Hact.
        rewrite (insertStackItem_match i ty attrs c active Hact Hm).
        rewrite IH.
        { cbn [length]. f_equal. lia. }
        intros j ty' Hj. destruct (Hframes (S j) ty' Hj) as (a' & Ha' & Hm').
        exists a'. split; [| exact Hm']. rewrite <- Ha'. f_equal. lia.
      * rewrite (insertKey_not_renderable editor _ _ _ _ _ Hg Hr).
        assert (renderableTypes editor (name :: keys) = renderableTypes editor keys) as Heq.
        { unfold renderableTypes. cbn. rewrite Hg, Hr. reflexivity. }
        rewrite Heq in Hframes |- *. apply IH. exact Hframes.
    + rewrite (insertKey_unresolved editor _ _ _ _ Hg).
      assert (renderableTypes editor (name :: keys) = renderableTypes editor keys) as Heq.
      { unfold renderableTypes. cbn. rewrite Hg. reflexivity. }
      rewrite Heq in Hframes |- *. apply IH. exact Hframes.
Qed.

(** X26: an operation with attributes whose formats that render each
    match the open frame at their depth (the same type with an equal
    value; in particular an operation none of whose formats renders)
    opens and closes no frame. Its content is added to the innermost open
    frame, also when more frames are open than the operation has
    formats; when no frame is open the content is dropped. *)
Theorem content_goes_to_innermost_frame (prev : option Op) (op : Op) (next : option Op)
    (c : Composer) (attrs : AttributeMap) :
  attributes op = Some attrs ->
  (forall j ty,
     renderableTypes editor (sort_by_priority (formats_priority editor) (attr_keys attrs)) !! j
     = Some ty ->
     exists active, rev (activeStack c) !! j = Some active
                    /\ frameMatches editor active ty attrs) ->
  let chn := fst (opChildren editor prev op next (trailingBreak c)) in
  let tb := snd (opChildren editor prev op next (trailingBreak c)) in
  renderOp editor prev op next c
  = match activeStack c with
    | [] => mkComposer (inlineChildren c) tb []
    | last :: rest =>
        mkComposer (inlineChildren c) tb
          (mkItem (item_type last) (item_attributes last)
             (Some (combineChildren (item_content last) (Some chn))) :: rest)
    end.
Proof.
  intros Ha Hframes. cbv zeta. unfold renderOp.
  destruct (opChildren editor prev op next (trailingBreak c)) as [chn tb]. cbn [fst snd].
  rewrite Ha.
  rewrite (insertKeys_match attrs _ (mkComposer (inlineChildren c) tb (activeStack c)) 0).
  - cbn [activeStack inlineChildren trailingBreak].
    destruct (activeStack c); reflexivity.
  - intros j ty Hj. cbn [activeStack Nat.add]. apply Hframes. exact Hj.
Qed.

End FormatsMore.

(** ** The windows that [renderChanges] patches *)

(** X27: the two slices that [renderChanges] takes, for a tree that has
    one child for each old unit, when no two old units and no two new
    units hold the same lines: either both slices are empty, or the old
    slice is the children from [a] up to [b] (one at least), the new
    slice is the units from [a] up to [c], the units before [a] are the
    same in both sequences and so are the units from [b] and from [c]
    on. Every unit that differs lies in the windows. *)
Theorem changed_windows_cover_the_changes (st : State) (oldC newC : list CombinedEntry) :
  NoDup (map (unitView st) oldC) -> NoDup (map (unitView st) newC) ->
  let ol := length oldC in
  let nl := length newC in
  let ranges :=
    expandRanges (Z.of_nat ol) (Z.of_nat ol) (Z.of_nat nl)
      (getChangedRanges st oldC newC) in
  let oldSlice := js_slice (seq 0 ol) (fst (fst ranges)) (snd (fst ranges)) in
  let newSlice := js_slice newC (fst (snd ranges)) (snd (snd ranges)) in
  (oldSlice = [] /\ newSlice = [])
  \/ exists a b c,
      a < b /\ b <= ol /\ a <= c /\ c <= nl
      /\ oldSlice = seq a (b - a)
      /\ newSlice = firstn (c - a) (skipn a newC)
      /\ firstn a (map (unitView st) oldC) = firstn a (map (unitView st) newC)
      /\ skipn b (map (unitView st) oldC) = skipn c (map (unitView st) newC).
Proof.
  intros Ho Hn. exact (renderChanges_slices st oldC newC Ho Hn).
Qed.

(** ** The further properties at the examples *)

(** A decidable proposition about the example, by evaluation. *)
Ltac by_compute := refine (bool_decide_unpack _ _); vm_compute; exact I.

Lemma getChangedRanges_same_units_witness :
  getChangedRanges ex_twins [EArr 0; ELine 5] [EArr 1; ELine 5] = ((0, 0), (0, 0))%Z
  /\ getChangedRanges ex_twins [EArr 0; ELine 5] [EArr 0; ELine 5] = ((0, 0), (0, 0))%Z.
Proof.
  apply (getChangedRanges_same_units ex_twins [EArr 0; ELine 5] [EArr 1; ELine 5]).
  repeat constructor.
Defined.

Lemma getChangedRanges_replaced_run_witness :
  getChangedRanges ex_state ([ELine 0] ++ [ELine 1] ++ [ELine 2])
    ([ELine 0] ++ [ELine 3; ELine 4] ++ [ELine 2])
  = ((1, 2), (1, 3))%Z.
Proof.
  exact (getChangedRanges_replaced_run ex_state [ELine 0] [ELine 1] [ELine 3; ELine 4]
           [ELine 2] (ELine 1) (ELine 3) (ELine 1) (ELine 4)
           eq_refl eq_refl eq_refl eq_refl eq_refl eq_refl).
Defined.

Lemma renderInline_plain_text_run_witness :
  renderInline ex_editor [mkOp (InsText "a ") None; mkOp (InsText " b") None]
  = [VText (plainText None [mkOp (InsText "a ") None; mkOp (InsText " b") None])].
Proof.
  apply (renderInline_plain_text_run ex_editor).
  - discriminate.
  - repeat constructor; eexists; reflexivity.
Defined.

Lemma renderInline_trailing_break_witness :
  appendsBreak ex_editor_embeds
    ([mkOp (InsText "a") None] ++ [mkOp (InsEmbed [("br", VBool true)]) None]) = true
  /\ appendsBreak ex_editor_embeds
       ([mkOp (InsText "a") None] ++ [mkOp (InsEmbed [("anchor", VStr "x")]) None]) = false.
Proof.
  split.
  - exact (proj1 (proj2 (proj2 (proj2 (renderInline_trailing_break ex_editor_embeds))))
             [mkOp (InsText "a") None] [("br", VBool true)] None
             (mkEmbedType "br" (Some (fun _ _ => VElem BR)) false)
             (fun _ _ => VElem BR) eq_refl eq_refl).
  - exact (proj1 (proj2 (proj2 (proj2 (renderInline_trailing_break ex_editor_embeds))))
             [mkOp (InsText "a") None] [("anchor", VStr "x")] None
             (mkEmbedType "anchor" (Some (fun _ _ => VElem (h "a" ∅ []))) true)
             (fun _ _ => VElem (h "a" ∅ [])) eq_refl eq_refl).
Defined.

Lemma renderCombined_nodes_witness :
  length (match fst (renderCombined ex_editor ex_state [EArr 1; ELine 2]) with
          | Ok nodes => nodes
          | Throw _ => []
          end) = 2.
Proof.
  exact (proj1 (renderCombined_nodes ex_editor ex_state
                  (snd (renderCombined ex_editor ex_state [EArr 1; ELine 2]))
                  [EArr 1; ELine 2]
                  (match fst (renderCombined ex_editor ex_state [EArr 1; ELine 2]) with
                   | Ok nodes => nodes
                   | Throw _ => []
                   end) eq_refl)).
Defined.

Lemma renderChanges_same_lines_witness :
  renderChanges ex_editor ex_state (mkView ex_doc_old [] ∅ []) ex_doc_old
    (mkDoc 0 (fun _ => (0, 0)%Z) ex_lineBy)
  = render ex_editor ex_state (mkView ex_doc_old [] ∅ []) (mkDoc 0 (fun _ => (0, 0)%Z) ex_lineBy).
Proof.
  apply (renderChanges_same_lines ex_editor). reflexivity.
Defined.

Lemma caches_stay_sound_witness :
  caches_ok ex_editor (snd (combineLines ex_editor ex_state (doc_lines ex_doc_new)))
  /\ caches_ok ex_editor (snd (renderCombined ex_editor ex_state [ELine 2]))
  /\ caches_ok ex_editor
       (fst (snd (render ex_editor ex_state (mkView ex_doc_new [] ∅ []) ex_doc_new)))
  /\ caches_ok ex_editor
       (fst (snd (renderChanges ex_editor ex_state (mkView ex_doc_new [] ∅ [])
                    ex_doc_old ex_doc_new))).
Proof.
  apply (caches_stay_sound ex_editor ex_state (mkView ex_doc_new [] ∅ []) ex_doc_old
           ex_doc_new [ELine 2]).
  - apply caches_ok_empty. reflexivity.
  - exists [0; 1; 2]. reflexivity.
  - exists [0; 1; 2; 3]. reflexivity.
  - exists [0; 1; 2; 3]. reflexivity.
Defined.

Lemma render_shows_cached_units_witness :
  exists dd,
    linesCombined (fst (snd (render ex_editor ex_state (mkView ex_doc_old [] ∅ []) ex_doc_old)))
      !! doc_lines ex_doc_old = Some dd
    /\ fst (renderCombined ex_editor
              (fst (snd (render ex_editor ex_state (mkView ex_doc_old [] ∅ []) ex_doc_old)))
              (combined
                 (readData
                    (fst (snd (render ex_editor ex_state (mkView ex_doc_old [] ∅ [])
                                 ex_doc_old))) dd)))
       = Ok (childNodes (snd (snd (render ex_editor ex_state (mkView ex_doc_old [] ∅ [])
                                     ex_doc_old))))
    /\ caches_ok ex_editor
         (fst (snd (render ex_editor ex_state (mkView ex_doc_old [] ∅ []) ex_doc_old))).
Proof.
  apply (render_shows_cached_units ex_editor ex_state (mkView ex_doc_old [] ∅ []) ex_doc_old).
  - apply caches_ok_empty. reflexivity.
  - exists [0; 1; 2]. reflexivity.
  - exists [0; 1; 2]. reflexivity.
  - reflexivity.
Defined.

Lemma combineLines_groups_by_type_witness :
  map (unitView (snd (combineLines ex_editor ex_state 0)))
    (combined (readData (snd (combineLines ex_editor ex_state 0))
                 (fst (combineLines ex_editor ex_state 0))))
  = [(true, [0; 1]); (false, [2])].
Proof.
  apply (eq_trans
           (proj1 (combineLines_groups_by_type ex_editor ex_state
                     (snd (combineLines ex_editor ex_state 0)) 0
                     (fst (combineLines ex_editor ex_state 0))
                     eq_refl (surjective_pairing _)))).
  reflexivity.
Defined.

Lemma units_are_uniform_witness :
  shouldCombine (lineTypeAt ex_editor (resolve ex_editor ex_state 2)) = None
  /\ is_Some (lt_render (lineTypeAt ex_editor (resolve ex_editor ex_state 2))).
Proof.
  refine (proj2 (units_are_uniform ex_editor ex_state
                   (snd (combineLines ex_editor ex_state 0)) 0
                   (fst (combineLines ex_editor ex_state 0))
                   eq_refl (surjective_pairing _)) 2 _).
  by_compute.
Defined.

Lemma combineLines_byKey_witness :
  ELine 2 ∈ combined (readData (snd (combineLines ex_editor ex_state 0))
                        (fst (combineLines ex_editor ex_state 0)))
  /\ exists l0,
      head (members (snd (combineLines ex_editor ex_state 0)) (ELine 2)) = Some l0
      /\ "c" = id (lineAt ex_editor l0).
Proof.
  exact (proj1 (combineLines_byKey ex_editor ex_state
                  (snd (combineLines ex_editor ex_state 0)) 0
                  (fst (combineLines ex_editor ex_state 0))
                  eq_refl (surjective_pairing _)) "c" (ELine 2) eq_refl).
Defined.

Lemma group_arrays_are_reused_witness :
  match combined
          (readData (snd (combineLines ex_editor (snd (combineLines ex_editor ex_state 0)) 2))
             (fst (combineLines ex_editor (snd (combineLines ex_editor ex_state 0)) 2))) with
  | EArr b :: _ => b
  | _ => 0
  end
  = match combined (readData (snd (combineLines ex_editor ex_state 0))
                      (fst (combineLines ex_editor ex_state 0))) with
    | EArr a :: _ => a
    | _ => 0
    end.
Proof.
  refine (proj2 (group_arrays_are_reused ex_editor ex_state
                   (snd (combineLines ex_editor ex_state 0))
                   (snd (combineLines ex_editor (snd (combineLines ex_editor ex_state 0)) 2))
                   0 2
                   (fst (combineLines ex_editor ex_state 0))
                   (fst (combineLines ex_editor (snd (combineLines ex_editor ex_state 0)) 2))
                   eq_refl _ (surjective_pairing _) eq_refl _ (surjective_pairing _))
            (match combined (readData (snd (combineLines ex_editor ex_state 0))
                               (fst (combineLines ex_editor ex_state 0))) with
             | EArr a :: _ => a
             | _ => 0
             end)
            (match combined
                     (readData
                        (snd (combineLines ex_editor (snd (combineLines ex_editor ex_state 0)) 2))
                        (fst (combineLines ex_editor (snd (combineLines ex_editor ex_state 0)) 2)))
             with
             | EArr b :: _ => b
             | _ => 0
             end) _ _ _).
  - by_compute.
  - by_compute.
  - by_compute.
  - by_compute.
  - vm_compute. reflexivity.
Defined.

Lemma regrouping_gives_the_same_units_witness :
  combined (readData (snd (combineLines ex_editor (snd (combineLines ex_editor ex_twins 0)) 1))
              (fst (combineLines ex_editor (snd (combineLines ex_editor ex_twins 0)) 1)))
  = combined (readData (snd (combineLines ex_editor ex_twins 0))
                (fst (combineLines ex_editor ex_twins 0))).
Proof.
  refine (proj1 (regrouping_gives_the_same_units ex_editor ex_twins
                   (snd (combineLines ex_editor ex_twins 0))
                   (snd (combineLines ex_editor (snd (combineLines ex_editor ex_twins 0)) 1))
                   0 1
                   (fst (combineLines ex_editor ex_twins 0))
                   (fst (combineLines ex_editor (snd (combineLines ex_editor ex_twins 0)) 1))
                   eq_refl _ (surjective_pairing _) eq_refl eq_refl (surjective_pairing _))).
  by_compute.
Defined.

Lemma setLineNodesRanges_indexes_children_witness :
  getLineNodeStart (snd (setLineNodesRanges ex_editor ex_rendered ex_view)) [0] = Some 0%Z
  /\ getLineNodeEnd (snd (setLineNodesRanges ex_editor ex_rendered ex_view)) [0] = Some 4%Z.
Proof.
  exact (setLineNodesRanges_indexes_children ex_editor ex_rendered
           (snd (combineLines ex_editor ex_rendered (doc_lines (doc ex_view)))) ex_view
           (fst (combineLines ex_editor ex_rendered (doc_lines (doc ex_view))))
           0 (default BR (childNodes ex_view !! 0)) "a"
           (default (ELine 0)
              (byKey (readData
                        (snd (combineLines ex_editor ex_rendered (doc_lines (doc ex_view))))
                        (fst (combineLines ex_editor ex_rendered (doc_lines (doc ex_view)))))
                 !! "a"))
           0 1
           (surjective_pairing _) eq_refl eq_refl ltac:(discriminate) eq_refl
           eq_refl eq_refl).
Defined.

Lemma render_indexes_units_witness :
  exists dd,
    linesCombined (fst (snd (render ex_editor ex_state (mkView ex_doc_old [] ∅ []) ex_doc_old)))
      !! doc_lines ex_doc_old = Some dd
    /\ forall i e,
         combined
           (readData
              (fst (snd (render ex_editor ex_state (mkView ex_doc_old [] ∅ []) ex_doc_old)))
              dd) !! i = Some e ->
         exists first final,
           head (members
                   (fst (snd (render ex_editor ex_state (mkView ex_doc_old [] ∅ []) ex_doc_old)))
                   e) = Some first
           /\ last (members
                      (fst (snd (render ex_editor ex_state (mkView ex_doc_old [] ∅ [])
                                   ex_doc_old))) e) = Some final
           /\ getLineNodeStart
                (snd (snd (render ex_editor ex_state (mkView ex_doc_old [] ∅ []) ex_doc_old)))
                [i]
              = Some (fst (getLineRange ex_doc_old first))
           /\ getLineNodeEnd
                (snd (snd (render ex_editor ex_state (mkView ex_doc_old [] ∅ []) ex_doc_old)))
                [i]
              = Some (snd (getLineRange ex_doc_old final)).
Proof.
  refine (render_indexes_units ex_editor ex_state
            (fst (snd (render ex_editor ex_state (mkView ex_doc_old [] ∅ []) ex_doc_old)))
            (mkView ex_doc_old [] ∅ [])
            (snd (snd (render ex_editor ex_state (mkView ex_doc_old [] ∅ []) ex_doc_old)))
            ex_doc_old eq_refl eq_refl _ _ eq_refl).
  - by_compute.
  - repeat constructor; discriminate.
Defined.

Lemma content_goes_to_innermost_frame_witness :
  activeStack
    (renderOp ex_editor (Some ex_op_bold_link) ex_op_link None
       (renderOp ex_editor None ex_op_bold_link (Some ex_op_link) (mkComposer [] true [])))
  = [mkItem 0 [("bold", VBool true); ("link", VStr "u")] (Some [VText "ab"]);
     mkItem 1 [("bold", VBool true); ("link", VStr "u")] None].
Proof.
  refine (eq_trans
            (f_equal activeStack
               (content_goes_to_innermost_frame ex_editor (Some ex_op_bold_link) ex_op_link None
                  (renderOp ex_editor None ex_op_bold_link (Some ex_op_link)
                     (mkComposer [] true []))
                  [("link", VStr "u")] eq_refl _)) eq_refl).
  intros j ty Hj. destruct j as [| j]; [| destruct j; discriminate Hj].
  inversion Hj; subst ty.
  exists (mkItem 1 [("bold", VBool true); ("link", VStr "u")] None).
  split; [reflexivity |]. split; reflexivity.
Defined.

Lemma changed_windows_cover_the_changes_witness :
  js_slice [ELine 0; ELine 3; ELine 2]
    (fst (snd (expandRanges 3 3 3
                 (getChangedRanges ex_state [ELine 0; ELine 1; ELine 2]
                    [ELine 0; ELine 3; ELine 2]))))
    (snd (snd (expandRanges 3 3 3
                 (getChangedRanges ex_state [ELine 0; ELine 1; ELine 2]
                    [ELine 0; ELine 3; ELine 2]))))
  = [ELine 3].
Proof.
  destruct (changed_windows_cover_the_changes ex_state [ELine 0; ELine 1; ELine 2]
              [ELine 0; ELine 3; ELine 2]) as [[_ H] | _].
  - by_compute.
  - by_compute.
  - discriminate H.
  - reflexivity.
Defined.

Lemma render_life_cycle_witness :
  events (snd (snd (render ex_editor ex_state (mkView ex_doc_old [] ∅ []) ex_doc_old)))
  = ["rendering"; "render"; "rendered"].
Proof.
  exact (proj1 (proj2 (proj2 (proj2 (render_life_cycle ex_editor ex_state
                                       (mkView ex_doc_old [] ∅ []) ex_doc_old) eq_refl)))).
Defined.

Lemma renderChanges_life_cycle_witness :
  events (snd (snd (renderChanges ex_editor ex_rendered ex_view ex_doc_old ex_doc_new)))
  = events ex_view ++ ["rendering"; "render"; "rendered"].
Proof.
  exact (proj2 (proj2 (renderChanges_life_cycle ex_editor ex_rendered ex_view ex_doc_old
                         ex_doc_new) eq_refl)).
Defined.

Lemma getChangedRanges_inserted_run_witness :
  getChangedRanges ex_state ([ELine 0] ++ [ELine 2]) ([ELine 0] ++ [ELine 3] ++ [ELine 2])
  = ((1, 1), (1, 2))%Z.
Proof.
  refine (getChangedRanges_inserted_run ex_state [ELine 0] [ELine 3] [ELine 2] _ _ _).
  - discriminate.
  - intros x y Hx Hy. inversion Hx. inversion Hy. reflexivity.
  - intros x y Hx Hy. inversion Hx. inversion Hy. reflexivity.
Defined.

Lemma setLineNodesRanges_indexes_line_elements_witness :
  is_Some (getLineNodeStart (snd (setLineNodesRanges ex_editor ex_rendered ex_view)) [0; 1])
  /\ is_Some (getLineNodeEnd (snd (setLineNodesRanges ex_editor ex_rendered ex_view)) [0; 1]).
Proof.
  refine (setLineNodesRanges_indexes_line_elements ex_editor ex_rendered ex_view
            ([0; 1], mkVNode "li" ∅ [VText "B"] (Some "b")) "b" 1 _ eq_refl _ eq_refl).
  - vm_compute. apply list_elem_of_further, list_elem_of_here.
  - discriminate.
Defined.
